(** * LinkNet: wire messages, file transfer, discovery, crypto wrapper, chat history

    A shallow embedding of the parts of LinkNet (C++) that its specification
    makes claims about, with the claims stated and settled as theorems.

    Conventions.
    - [ByteBuffer] ([std::vector<uint8_t>]) is [list byte]; [PeerId] and
      [MessageId] ([std::array<uint8_t,N>]) are byte lists whose length is
      stated where it matters.
    - Fixed-width integers are [Z] with the wrap-around written out.
    - [std::map] / [std::unordered_map] are [gmap].
    - Functions that can throw return an [outcome]. *)

From Stdlib Require Import ZArith Lia Bool.
From Stdlib Require Import Strings.Byte Strings.Ascii Strings.String.
From stdpp Require Import base option list gmap strings.
From stdpp Require Import sorting.

Local Open Scope Z_scope.

(** ** Bytes and fixed-width integers *)

Module Bytes.

Abbreviation ByteBuffer := (list byte).

Definition byte_to_Z (b : byte) : Z := Z.of_N (Byte.to_N b).

(** [static_cast<uint8_t>(z)]: the low eight bits of [z]. *)
Definition byte_of_Z (z : Z) : byte :=
  match Byte.of_N (Z.to_N (z mod 256)) with
  | Some b => b
  | None => x00
  end.

(** [htobe32]/[htobe64] followed by [memcpy]: the [k] low-order bytes of
    [n], most significant first. *)
Fixpoint be_encode (k : nat) (n : Z) : ByteBuffer :=
  match k with
  | O => []
  | S k' => be_encode k' (n / 256) ++ [byte_of_Z n]
  end.

(** [memcpy] followed by [be32toh]/[be64toh]. *)
Definition be_decode (l : ByteBuffer) : Z :=
  fold_left (fun acc b => acc * 256 + byte_to_Z b) l 0.

(** [static_cast<uint32_t>], [static_cast<uint64_t>] and the signed
    [std::time_t] read back from a [uint64_t]. *)
Definition to_uint32 (z : Z) : Z := z mod 2 ^ 32.
Definition to_uint64 (z : Z) : Z := z mod 2 ^ 64.
Definition to_int64 (u : Z) : Z := if u <? 2 ^ 63 then u else u - 2 ^ 64.

(** The bytes [data[off .. off+len)], as read by [std::copy], [memcpy]
    and [assign] once the bounds were checked. *)
Definition slice (off len : nat) (data : ByteBuffer) : ByteBuffer :=
  take len (drop off data).

(** Bytes as map keys ([PeerId] keys a [std::map]). *)
#[global] Instance byte_eq_dec : EqDecision byte := Byte.byte_eq_dec.
#[global] Instance byte_countable : Countable byte :=
  inj_countable Byte.to_N Byte.of_N Byte.of_to_N.

End Bytes.

(** ** Wire messages (message.h, message.cpp and the two message classes of
    file_transfer.cpp) *)

Module Wire.
Import Bytes.

(** [std::array<uint8_t, 32>] and [std::array<uint8_t, 16>]. *)
Abbreviation PeerId := (list byte).
Abbreviation MessageId := (list byte).

Inductive MessageType :=
| CHAT_MESSAGE
| FILE_TRANSFER_REQUEST
| FILE_TRANSFER_RESPONSE
| FILE_CHUNK
| FILE_TRANSFER_COMPLETE
| PEER_DISCOVERY
| PING
| PONG
| CONNECTION_NOTIFICATION.

(** [static_cast<uint8_t>(type)]. *)
Definition MessageType_code (t : MessageType) : Z :=
  match t with
  | CHAT_MESSAGE => 0
  | FILE_TRANSFER_REQUEST => 1
  | FILE_TRANSFER_RESPONSE => 2
  | FILE_CHUNK => 3
  | FILE_TRANSFER_COMPLETE => 4
  | PEER_DISCOVERY => 5
  | PING => 6
  | PONG => 7
  | CONNECTION_NOTIFICATION => 8
  end.

(** The fields of the base class [Message] other than [_type], which every
    derived constructor fixes. [_timestamp] is a [std::time_t]. *)
Record Header := mkHeader {
  _sender : PeerId;
  _id : MessageId;
  _timestamp : Z
}.

Record ChatMessage := mkChatMessage {
  chat_header : Header;
  _content : string
}.

Record FileTransferRequestMessage := mkFileTransferRequestMessage {
  request_header : Header;
  _filename : string;
  _file_size : Z
}.

Record FileChunkMessage := mkFileChunkMessage {
  chunk_header : Header;
  chunk_file_id : string;
  _chunk_index : Z;
  _data : ByteBuffer
}.

Record FileTransferCompleteMessage := mkFileTransferCompleteMessage {
  complete_header : Header;
  complete_file_id : string;
  _success : bool;
  _error_message : string
}.

(** What a [std::unique_ptr<Message>] can point to: the four classes derived
    from [Message] that the sources define. *)
Inductive Message :=
| Chat (m : ChatMessage)
| FileTransferRequest (m : FileTransferRequestMessage)
| FileChunk (m : FileChunkMessage)
| FileTransferComplete (m : FileTransferCompleteMessage).

Definition GetHeader (m : Message) : Header :=
  match m with
  | Chat c => chat_header c
  | FileTransferRequest r => request_header r
  | FileChunk c => chunk_header c
  | FileTransferComplete c => complete_header c
  end.

Definition GetType (m : Message) : MessageType :=
  match m with
  | Chat _ => CHAT_MESSAGE
  | FileTransferRequest _ => FILE_TRANSFER_REQUEST
  | FileChunk _ => FILE_CHUNK
  | FileTransferComplete _ => FILE_TRANSFER_COMPLETE
  end.

Definition GetSender (m : Message) : PeerId := _sender (GetHeader m).
Definition GetId (m : Message) : MessageId := _id (GetHeader m).
Definition GetTimestamp (m : Message) : Z := _timestamp (GetHeader m).

(** The bytes of a [std::string] and back ([assign] from a byte range). *)
Definition string_bytes (s : string) : ByteBuffer := list_byte_of_string s.
Definition bytes_string (l : ByteBuffer) : string := string_of_list_byte l.
Definition size (s : string) : Z := Z.of_nat (length (string_bytes s)).

(** The first 57 bytes every [Serialize] writes: type, sender, id and the
    big-endian timestamp. *)
Definition serialize_header (t : MessageType) (h : Header) : ByteBuffer :=
  [byte_of_Z (MessageType_code t)]
  ++ _sender h
  ++ _id h
  ++ be_encode 8 (to_uint64 (_timestamp h)).

(** The header fields every [Deserialize] copies out of [data]. *)
Definition deserialize_header (data : ByteBuffer) : Header :=
  {| _sender := slice 1 32 data;
     _id := slice 33 16 data;
     _timestamp := to_int64 (be_decode (slice 49 8 data)) |}.

(** [data[0] == type] *)
Definition has_type (t : MessageType) (data : ByteBuffer) : bool :=
  match data with
  | b :: _ => byte_to_Z b =? MessageType_code t
  | [] => false
  end.

Definition ChatMessage_Serialize (m : ChatMessage) : ByteBuffer :=
  serialize_header CHAT_MESSAGE (chat_header m)
  ++ be_encode 4 (to_uint32 (size (_content m)))
  ++ string_bytes (_content m).

(** [Deserialize] fills the receiving object field by field and returns a
    flag; the model returns the filled object, or [None] where the code
    returns [false] (no caller looks at the object then). *)
Definition ChatMessage_Deserialize (data : ByteBuffer) : option ChatMessage :=
  let HEADER_SIZE := 1 + 32 + 16 + 8 + 4 in
  if Z.of_nat (length data) <? HEADER_SIZE then None
  else if negb (has_type CHAT_MESSAGE data) then None
  else
    let content_len := be_decode (slice 57 4 data) in
    if Z.of_nat (length data) <? HEADER_SIZE + content_len then None
    else Some {| chat_header := deserialize_header data;
                 _content := bytes_string (slice 61 (Z.to_nat content_len) data) |}.

Definition FileTransferRequestMessage_Serialize (m : FileTransferRequestMessage) : ByteBuffer :=
  serialize_header FILE_TRANSFER_REQUEST (request_header m)
  ++ be_encode 8 (to_uint64 (_file_size m))
  ++ be_encode 4 (to_uint32 (size (_filename m)))
  ++ string_bytes (_filename m).

Definition FileTransferRequestMessage_Deserialize (data : ByteBuffer)
  : option FileTransferRequestMessage :=
  let HEADER_SIZE := 1 + 32 + 16 + 8 + 8 + 4 in
  if Z.of_nat (length data) <? HEADER_SIZE then None
  else if negb (has_type FILE_TRANSFER_REQUEST data) then None
  else
    let file_size := be_decode (slice 57 8 data) in
    let filename_len := be_decode (slice 65 4 data) in
    if Z.of_nat (length data) <? HEADER_SIZE + filename_len then None
    else Some {| request_header := deserialize_header data;
                 _filename := bytes_string (slice 69 (Z.to_nat filename_len) data);
                 _file_size := file_size |}.

Definition FileChunkMessage_Serialize (m : FileChunkMessage) : ByteBuffer :=
  serialize_header FILE_CHUNK (chunk_header m)
  ++ be_encode 4 (to_uint32 (size (chunk_file_id m)))
  ++ string_bytes (chunk_file_id m)
  ++ be_encode 4 (_chunk_index m)
  ++ be_encode 4 (to_uint32 (Z.of_nat (length (_data m))))
  ++ _data m.

Definition FileChunkMessage_Deserialize (data : ByteBuffer) : option FileChunkMessage :=
  let MIN_HEADER_SIZE := 1 + 32 + 16 + 8 + 4 in
  if Z.of_nat (length data) <? MIN_HEADER_SIZE then None
  else if negb (has_type FILE_CHUNK data) then None
  else
    let file_id_len := be_decode (slice 57 4 data) in
    if Z.of_nat (length data) <? MIN_HEADER_SIZE + file_id_len + 8 then None
    else
      let n := Z.to_nat file_id_len in
      let data_len := be_decode (slice (65 + n) 4 data) in
      if Z.of_nat (length data) <? MIN_HEADER_SIZE + file_id_len + 8 + data_len then None
      else Some {| chunk_header := deserialize_header data;
                   chunk_file_id := bytes_string (slice 61 n data);
                   _chunk_index := be_decode (slice (61 + n) 4 data);
                   _data := slice (69 + n) (Z.to_nat data_len) data |}.

Definition FileTransferCompleteMessage_Serialize (m : FileTransferCompleteMessage)
  : ByteBuffer :=
  serialize_header FILE_TRANSFER_COMPLETE (complete_header m)
  ++ be_encode 4 (to_uint32 (size (complete_file_id m)))
  ++ string_bytes (complete_file_id m)
  ++ [byte_of_Z (if _success m then 1 else 0)]
  ++ be_encode 4 (to_uint32 (size (_error_message m)))
  ++ string_bytes (_error_message m).

Definition FileTransferCompleteMessage_Deserialize (data : ByteBuffer)
  : option FileTransferCompleteMessage :=
  let MIN_HEADER_SIZE := 1 + 32 + 16 + 8 + 4 in
  if Z.of_nat (length data) <? MIN_HEADER_SIZE then None
  else if negb (has_type FILE_TRANSFER_COMPLETE data) then None
  else
    let file_id_len := be_decode (slice 57 4 data) in
    if Z.of_nat (length data) <? MIN_HEADER_SIZE + file_id_len + 5 then None
    else
      let n := Z.to_nat file_id_len in
      let error_len := be_decode (slice (62 + n) 4 data) in
      if Z.of_nat (length data) <? MIN_HEADER_SIZE + file_id_len + 5 + error_len then None
      else Some {| complete_header := deserialize_header data;
                   complete_file_id := bytes_string (slice 61 n data);
                   _success := negb (be_decode (slice (61 + n) 1 data) =? 0);
                   _error_message :=
                     bytes_string (slice (66 + n) (Z.to_nat error_len) data) |}.

(** The virtual [Message::Serialize]. *)
Definition Serialize (m : Message) : ByteBuffer :=
  match m with
  | Chat c => ChatMessage_Serialize c
  | FileTransferRequest r => FileTransferRequestMessage_Serialize r
  | FileChunk c => FileChunkMessage_Serialize c
  | FileTransferComplete c => FileTransferCompleteMessage_Serialize c
  end.

(** [MessageFactory::CreateFromBuffer]; [None] is the null pointer. *)
Definition CreateFromBuffer (data : ByteBuffer) : option Message :=
  match data with
  | [] => None
  | type :: _ =>
    if (length data <? 33)%nat then None
    else
      match byte_to_Z type with
      | 0 => Chat <$> ChatMessage_Deserialize data
      | 1 => FileTransferRequest <$> FileTransferRequestMessage_Deserialize data
      | _ => None
      end
  end.

(** One turn of [PeerSession::ReadMessage] on the bytes still to come from
    the socket: the 4-byte big-endian size, then the frame, which goes to
    [_message_callback] when the factory returns a message. A short read is
    the error branch ([Close], no further read). The result lists the
    messages handed to the callback, in order. *)
Fixpoint ReadMessage_loop (fuel : nat) (input : ByteBuffer) : list Message :=
  match fuel with
  | O => []
  | S fuel' =>
    if (length input <? 4)%nat then []
    else
      let message_size := Z.to_nat (be_decode (take 4 input)) in
      let rest := drop 4 input in
      if (length rest <? message_size)%nat then []
      else
        let delivered :=
          match CreateFromBuffer (take message_size rest) with
          | Some message => [message]
          | None => []
          end in
        delivered ++ ReadMessage_loop fuel' (drop message_size rest)
  end.

(** Every turn consumes at least the four size bytes. *)
Definition ReadMessage (input : ByteBuffer) : list Message :=
  ReadMessage_loop (S (length input)) input.

(** [PeerSession::SendMessage] puts this on the socket. *)
Definition frame (m : Message) : ByteBuffer :=
  let data := Serialize m in
  be_encode 4 (to_uint32 (Z.of_nat (length data))) ++ data.

(** What the C++ types guarantee of a message object, plus the one real
    restriction of the format: a 32-bit length field. *)
Definition valid_Header (h : Header) : Prop :=
  length (_sender h) = 32%nat /\ length (_id h) = 16%nat
  /\ - 2 ^ 63 <= _timestamp h < 2 ^ 63.

Definition valid_ChatMessage (m : ChatMessage) : Prop :=
  valid_Header (chat_header m) /\ size (_content m) < 2 ^ 32.

Definition valid_FileTransferRequestMessage (m : FileTransferRequestMessage) : Prop :=
  valid_Header (request_header m)
  /\ 0 <= _file_size m < 2 ^ 64
  /\ size (_filename m) < 2 ^ 32.

Definition valid_FileChunkMessage (m : FileChunkMessage) : Prop :=
  valid_Header (chunk_header m)
  /\ size (chunk_file_id m) < 2 ^ 32
  /\ 0 <= _chunk_index m < 2 ^ 32
  /\ Z.of_nat (length (_data m)) < 2 ^ 32.

Definition valid_FileTransferCompleteMessage (m : FileTransferCompleteMessage) : Prop :=
  valid_Header (complete_header m)
  /\ size (complete_file_id m) < 2 ^ 32
  /\ size (_error_message m) < 2 ^ 32.

Definition valid_Message (m : Message) : Prop :=
  match m with
  | Chat c => valid_ChatMessage c
  | FileTransferRequest r => valid_FileTransferRequestMessage r
  | FileChunk c => valid_FileChunkMessage c
  | FileTransferComplete c => valid_FileTransferCompleteMessage c
  end.

(** The virtual [Message::Deserialize] called on a fresh object of the class
    for [t], as the tests call it. *)
Definition Deserialize (t : MessageType) (data : ByteBuffer) : option Message :=
  match t with
  | CHAT_MESSAGE => Chat <$> ChatMessage_Deserialize data
  | FILE_TRANSFER_REQUEST =>
    FileTransferRequest <$> FileTransferRequestMessage_Deserialize data
  | FILE_CHUNK => FileChunk <$> FileChunkMessage_Deserialize data
  | FILE_TRANSFER_COMPLETE =>
    FileTransferComplete <$> FileTransferCompleteMessage_Deserialize data
  | _ => None
  end.

(** The kinds the factory has a case for. *)
Definition factory_kind (t : MessageType) : bool :=
  match t with
  | CHAT_MESSAGE | FILE_TRANSFER_REQUEST => true
  | _ => false
  end.

End Wire.

(** ** The crypto provider (sodium_crypto.cpp) *)

Module Crypto.
Import Bytes.

Definition KEY_SIZE : nat := 32.
Definition NONCE_SIZE : nat := 24.
Definition MAC_SIZE : nat := 16.

(** Constants of libsodium's headers. *)
Definition crypto_secretbox_MACBYTES : nat := 16.
Definition crypto_sign_BYTES : nat := 64.

(** [std::array<uint8_t, KEY_SIZE>] and [std::array<uint8_t, NONCE_SIZE>]. *)
Abbreviation Key := (list byte).
Abbreviation Nonce := (list byte).

(** A call either returns or leaves by an exception. *)
Inductive outcome (A : Type) :=
| Returns (a : A)
| Throws (what : string).
Arguments Returns {A} a.
Arguments Throws {A} what.

(** The libsodium entry points the provider calls. libsodium is an external
    library: each function is taken as given, as the [int] it returns and,
    for the two that fill an output buffer, the bytes it writes there. *)
Class Sodium := {
  crypto_secretbox_easy : ByteBuffer -> Nonce -> Key -> Z * ByteBuffer;
  crypto_secretbox_open_easy : ByteBuffer -> Nonce -> Key -> Z * ByteBuffer;
  crypto_sign_verify_detached : ByteBuffer -> ByteBuffer -> ByteBuffer -> Z
}.

(** What libsodium documents of the secret box: sealing succeeds and writes
    the message length plus [crypto_secretbox_MACBYTES] bytes; opening what
    was sealed, under the same nonce and key, succeeds and writes the
    message. *)
Record SodiumContract (sodium : Sodium) : Prop := {
  easy_ok : forall m n k,
    length n = NONCE_SIZE -> length k = KEY_SIZE ->
    exists c, crypto_secretbox_easy m n k = (0, c)
              /\ length c = (length m + crypto_secretbox_MACBYTES)%nat;
  open_easy_ok : forall m n k c,
    length n = NONCE_SIZE -> length k = KEY_SIZE ->
    crypto_secretbox_easy m n k = (0, c) ->
    crypto_secretbox_open_easy c n k = (0, m)
}.

(** [ByteBuffer buffer(n)]: [n] zero bytes. *)
Definition ByteBuffer_sized (n : nat) : ByteBuffer := replicate n x00.

(** A callee writing [written] at the start of the caller's [buffer]. *)
Definition fill (buffer written : ByteBuffer) : ByteBuffer :=
  take (length buffer) (written ++ drop (length written) buffer).

Definition Encrypt {sodium : Sodium} (plaintext : ByteBuffer) (key : Key) (nonce : Nonce)
  : outcome ByteBuffer :=
  let ciphertext := ByteBuffer_sized (length plaintext + crypto_secretbox_MACBYTES) in
  let '(rc, written) := crypto_secretbox_easy plaintext nonce key in
  if negb (rc =? 0) then Throws "Encryption failed"
  else Returns (fill ciphertext written).

Definition Decrypt {sodium : Sodium} (ciphertext : ByteBuffer) (key : Key) (nonce : Nonce)
  : outcome ByteBuffer :=
  if (length ciphertext <? crypto_secretbox_MACBYTES)%nat
  then Throws "Ciphertext too short"
  else
    let plaintext := ByteBuffer_sized (length ciphertext - crypto_secretbox_MACBYTES) in
    let '(rc, written) := crypto_secretbox_open_easy ciphertext nonce key in
    if negb (rc =? 0) then Throws "Decryption failed"
    else Returns (fill plaintext written).

Definition Verify {sodium : Sodium} (message signature public_key : ByteBuffer) : outcome bool :=
  if negb (length signature =? crypto_sign_BYTES)%nat then Returns false
  else Returns (crypto_sign_verify_detached signature message public_key =? 0).

(** *** A secret box built the way libsodium documents its own: a stream
    cipher whose first 32 key-stream bytes key a one-time authenticator
    over the ciphertext, the tag put in front. The cipher and the
    authenticator stay parameters. *)

Definition byte_xor (a b : byte) : byte :=
  byte_of_Z (Z.lxor (byte_to_Z a) (byte_to_Z b)).

Definition xor_bytes (m pad : ByteBuffer) : ByteBuffer := zip_with byte_xor m pad.

Section Secretbox.
Variable stream : nat -> Nonce -> Key -> ByteBuffer.
Variable onetimeauth : ByteBuffer -> ByteBuffer -> ByteBuffer.

Definition secretbox_easy (m : ByteBuffer) (n : Nonce) (k : Key) : Z * ByteBuffer :=
  let block := stream (32 + length m) n k in
  let c := xor_bytes m (drop 32 block) in
  (0, onetimeauth c (take 32 block) ++ c).

Definition secretbox_open_easy (c : ByteBuffer) (n : Nonce) (k : Key) : Z * ByteBuffer :=
  if (length c <? crypto_secretbox_MACBYTES)%nat then (-1, [])
  else
    let tag := take crypto_secretbox_MACBYTES c in
    let body := drop crypto_secretbox_MACBYTES c in
    let block := stream (32 + length body) n k in
    if bool_decide (onetimeauth body (take 32 block) = tag)
    then (0, xor_bytes body (drop 32 block))
    else (-1, []).

End Secretbox.

(** A small cipher and authenticator to run the construction on: key-stream
    byte [i] mixes key byte [i mod 32] with nonce byte [i mod 24]; tag byte
    [j] folds the ciphertext and the first [j+1] bytes of the one-time key. *)
Definition repeat_stream (len : nat) (n : Nonce) (k : Key) : ByteBuffer :=
  map (fun i => byte_xor (nth (i mod 32) k x00) (nth (i mod 24) n x00)) (seq 0 len).

Definition fold_auth (c key : ByteBuffer) : ByteBuffer :=
  map (fun j => fold_left byte_xor (c ++ take (S j) key) x00) (seq 0 16).

#[global] Instance repeat_sodium : Sodium := {
  crypto_secretbox_easy := secretbox_easy repeat_stream fold_auth;
  crypto_secretbox_open_easy := secretbox_open_easy repeat_stream fold_auth;
  crypto_sign_verify_detached := fun _ _ _ => -1
}.

End Crypto.

(** ** Chat history (chat_manager.cpp) *)

Module Chat.
Import Bytes Wire.

Record ChatInfo := mkChatInfo {
  sender_id : PeerId;
  sender_name : string;
  content : string;
  timestamp : Z
}.

(** [std::map<PeerId, std::vector<ChatInfo>> _chat_history]. *)
Abbreviation History := (gmap PeerId (list ChatInfo)).

(** [_chat_history[peer_id].push_back(info)]. *)
Definition push_back (peer_id : PeerId) (info : ChatInfo) (h : History) : History :=
  <[peer_id := default [] (h !! peer_id) ++ [info]]> h.

(** [ChatManager::HandleMessage]: the history after an inbound message. *)
Definition HandleMessage (message : Message) (h : History) : History :=
  match message with
  | Chat chat_msg =>
    let sender_id := _sender (chat_header chat_msg) in
    push_back sender_id
      {| sender_id := sender_id; sender_name := "Unknown";
         content := _content chat_msg;
         timestamp := _timestamp (chat_header chat_msg) |} h
  | _ => h
  end.

(** [ChatManager::GetChatHistory]; [max_messages] is a [size_t]. *)
Definition GetChatHistory (h : History) (peer_id : PeerId) (max_messages : nat)
  : list ChatInfo :=
  match h !! peer_id with
  | None => []
  | Some history =>
    if (length history <=? max_messages)%nat then history
    else drop (length history - max_messages) history
  end.

End Chat.

(** ** LAN discovery (peer_discovery.cpp) *)

Module Discovery.
Import Bytes.
Local Open Scope string_scope.
Local Open Scope Z_scope.

Definition DISCOVERY_PREFIX : string := "LINKNET_DISCOVERY".
Definition PEER_TIMEOUT_SEC : Z := 30.

(** [std::to_string] of a non-negative integer. *)
Definition digit_char (d : Z) : ascii := ascii_of_N (Z.to_N (48 + d)).

Fixpoint to_string_aux (fuel : nat) (n : Z) (acc : string) : string :=
  match fuel with
  | O => acc
  | S fuel' =>
    let acc' := String (digit_char (n mod 10)) acc in
    if n <? 10 then acc' else to_string_aux fuel' (n / 10) acc'
  end.

Definition to_string (n : Z) : string := to_string_aux 20 n "".

(** The payload [BroadcastThreadFunc] multicasts for local port [port]. *)
Definition announce (port : Z) : string :=
  DISCOVERY_PREFIX +:+ ":" +:+ to_string port.

(** [std::stoi]: leading white space, an optional sign, the longest run of
    decimal digits; [invalid_argument] without a digit, [out_of_range]
    outside [int]. What follows the digits is not looked at. *)
Inductive stoi_result :=
| stoi_value (v : Z)
| invalid_argument
| out_of_range.

Definition isspace (c : ascii) : bool :=
  let n := N_of_ascii c in ((n =? 32) || ((9 <=? n) && (n <=? 13)))%N.

Definition digit_value (c : ascii) : option Z :=
  let n := Z.of_N (N_of_ascii c) in
  if (48 <=? n) && (n <=? 57) then Some (n - 48) else None.

Fixpoint skip_spaces (s : string) : string :=
  match s with
  | String c s' => if isspace c then skip_spaces s' else s
  | EmptyString => s
  end.

Fixpoint read_digits (s : string) (acc : option Z) : option Z :=
  match s with
  | String c s' =>
    match digit_value c with
    | Some d => read_digits s' (Some (default 0 acc * 10 + d))
    | None => acc
    end
  | EmptyString => acc
  end.

Definition INT_MIN : Z := - 2 ^ 31.
Definition INT_MAX : Z := 2 ^ 31 - 1.

Definition stoi (s : string) : stoi_result :=
  let s1 := skip_spaces s in
  let '(negative, s2) :=
    match s1 with
    | String "-" r => (true, r)
    | String "+" r => (false, r)
    | _ => (false, s1)
    end in
  match read_digits s2 None with
  | None => invalid_argument
  | Some v =>
    let v := if negative then - v else v in
    if (INT_MIN <=? v) && (v <=? INT_MAX) then stoi_value v else out_of_range
  end.

(** The implicit conversion of [int] to [uint16_t]. *)
Definition to_uint16 (z : Z) : Z := z mod 2 ^ 16.

(** [std::string message(buffer)] after [recvfrom] into [char buffer[256]]
    with room kept for the terminator: at most 255 bytes, cut at the first
    zero byte. *)
Fixpoint c_str (l : ByteBuffer) : ByteBuffer :=
  match l with
  | [] => []
  | b :: l' => if bool_decide (b = x00) then [] else b :: c_str l'
  end.

Definition received_message (payload : ByteBuffer) : string :=
  string_of_list_byte (c_str (take 255 payload)).

(** [message.find(':')]. *)
Fixpoint find_colon (s : string) : option nat :=
  match s with
  | EmptyString => None
  | String c s' => if Ascii.eqb c ":" then Some O else S <$> find_colon s'
  end.

(** [message.substr(pos)]. *)
Fixpoint substr_from (pos : nat) (s : string) : string :=
  match pos, s with
  | O, _ => s
  | S p, String _ s' => substr_from p s'
  | S _, EmptyString => EmptyString
  end.

Record State := mkState {
  _port : Z;
  _discovered_peers : gmap string Z;
  _discovered_callback : bool
}.

(** A call of [_discovered_callback]. *)
Inductive Event := discovered (ip : string) (port : Z).

(** Lines 231-238: the prefix test, the colon, the text after it and its
    value as a [uint16_t]; [None] where the code falls through or [stoi]
    throws into the [catch]. *)
Definition parse_announce (message : string) : option (string * Z) :=
  if negb (String.eqb (substring 0 (String.length DISCOVERY_PREFIX) message)
                      DISCOVERY_PREFIX)
  then None
  else
    match find_colon message with
    | None => None
    | Some colon_pos =>
      if negb (colon_pos <? String.length message - 1)%nat then None
      else
        let port_str := substr_from (colon_pos + 1) message in
        match stoi port_str with
        | stoi_value v => Some (port_str, to_uint16 v)
        | _ => None
        end
    end.

(** Line 241, the condition under "Skip self", as written. *)
Definition is_own_announce (st : State) (sender_ip : string) (port : Z) : bool :=
  (port =? _port st) || (String.eqb sender_ip "127.0.0.1" && (port =? _port st)).

(** Lines 247-266: refresh or insert the peer, and call back for a new one. *)
Definition record_peer (now : Z) (sender_ip port_str : string) (port : Z)
    (st : State) : State * list Event :=
  let peer_key := sender_ip +:+ ":" +:+ port_str in
  let is_new := bool_decide (_discovered_peers st !! peer_key = None) in
  ({| _port := _port st;
      _discovered_peers := <[peer_key := now]> (_discovered_peers st);
      _discovered_callback := _discovered_callback st |},
   if is_new && _discovered_callback st then [discovered sender_ip port] else []).

(** The body of the loop of [ListenThreadFunc] for one datagram, received
    at steady-clock time [now] from source address [sender_ip]. *)
Definition on_datagram (now : Z) (sender_ip : string) (payload : ByteBuffer)
    (st : State) : State * list Event :=
  match parse_announce (received_message payload) with
  | None => (st, [])
  | Some (port_str, port) =>
    if is_own_announce st sender_ip port then (st, [])
    else record_peer now sender_ip port_str port st
  end.

(** The listen loop over the datagrams that arrive, in order. *)
Fixpoint ListenThreadFunc (datagrams : list (Z * string * ByteBuffer)) (st : State)
  : State * list Event :=
  match datagrams with
  | [] => (st, [])
  | (now, sender_ip, payload) :: rest =>
    let '(st1, ev1) := on_datagram now sender_ip payload st in
    let '(st2, ev2) := ListenThreadFunc rest st1 in
    (st2, (ev1 ++ ev2)%list)
  end.

(** The datagram [BroadcastThreadFunc] sends for [port]. *)
Definition announce_datagram (port : Z) : ByteBuffer :=
  list_byte_of_string (announce port).

(** Decimal digits, most significant first: the text they print as and the
    number they denote. *)
Definition digits_string (ds : list Z) : string :=
  fold_right (fun d s => String (digit_char d) s) "" ds.

Definition digits_value (ds : list Z) : Z :=
  fold_left (fun a d => a * 10 + d) ds 0.

Definition is_digit (d : Z) : Prop := 0 <= d < 10.

(** No zero byte inside. *)
Fixpoint no_nul (s : string) : Prop :=
  match s with
  | EmptyString => True
  | String c s' => c <> zero /\ no_nul s'
  end.

End Discovery.

(** ** The file-transfer engine (file_transfer.cpp) and the part of the
    network manager it calls (network.cpp)

    The handlers run one at a time, each to its end, so a [lock_guard] on
    [_transfers_mutex] shows only where the thread that takes it holds it
    already: [StartSendingFile] calls [SendNextChunk] under its lock, and
    [SendNextChunk] calls itself under its own. Logging is left out, and so
    is [start_time], which nothing reads. *)

Module FileTransfer.
Import Bytes Wire.
Local Open Scope string_scope.
Local Open Scope Z_scope.

Inductive FileTransferStatus :=
| PENDING
| IN_PROGRESS
| COMPLETED
| FAILED
| REJECTED.

#[global] Instance FileTransferStatus_eq_dec : EqDecision FileTransferStatus.
Proof. solve_decision. Defined.

Definition DEFAULT_CHUNK_SIZE : Z := 16 * 1024.

(** A [std::ifstream]: whether it is open, and whether [failbit] is set (a
    read that came up short sets it, and a later [seekg] then does
    nothing). *)
Record ifstream := mkifstream {
  in_is_open : bool;
  in_fail : bool
}.

(** A [std::ofstream], writing to the path it was opened on. *)
Record ofstream := mkofstream {
  out_is_open : bool;
  out_fail : bool
}.

Definition closed_ifstream : ifstream := {| in_is_open := false; in_fail := false |}.
Definition closed_ofstream : ofstream := {| out_is_open := false; out_fail := false |}.

Record TransferInfo := mkTransferInfo {
  file_path : string;
  file_id : string;
  file_size : Z;
  peer_id : PeerId;
  status : FileTransferStatus;
  bytes_transferred : Z;
  input_stream : ifstream;
  output_stream : ofstream;
  next_chunk_index : Z;
  received_chunks : gmap Z bool
}.

Definition with_status (s : FileTransferStatus) (t : TransferInfo) : TransferInfo :=
  {| file_path := file_path t; file_id := file_id t; file_size := file_size t;
     peer_id := peer_id t; status := s;
     bytes_transferred := bytes_transferred t;
     input_stream := input_stream t; output_stream := output_stream t;
     next_chunk_index := next_chunk_index t;
     received_chunks := received_chunks t |}.

Definition with_bytes_transferred (b : Z) (t : TransferInfo) : TransferInfo :=
  {| file_path := file_path t; file_id := file_id t; file_size := file_size t;
     peer_id := peer_id t; status := status t;
     bytes_transferred := b;
     input_stream := input_stream t; output_stream := output_stream t;
     next_chunk_index := next_chunk_index t;
     received_chunks := received_chunks t |}.

Definition with_input_stream (s : ifstream) (t : TransferInfo) : TransferInfo :=
  {| file_path := file_path t; file_id := file_id t; file_size := file_size t;
     peer_id := peer_id t; status := status t;
     bytes_transferred := bytes_transferred t;
     input_stream := s; output_stream := output_stream t;
     next_chunk_index := next_chunk_index t;
     received_chunks := received_chunks t |}.

Definition with_next_chunk_index (i : Z) (t : TransferInfo) : TransferInfo :=
  {| file_path := file_path t; file_id := file_id t; file_size := file_size t;
     peer_id := peer_id t; status := status t;
     bytes_transferred := bytes_transferred t;
     input_stream := input_stream t; output_stream := output_stream t;
     next_chunk_index := i;
     received_chunks := received_chunks t |}.

Definition with_received_chunks (r : gmap Z bool) (t : TransferInfo) : TransferInfo :=
  {| file_path := file_path t; file_id := file_id t; file_size := file_size t;
     peer_id := peer_id t; status := status t;
     bytes_transferred := bytes_transferred t;
     input_stream := input_stream t; output_stream := output_stream t;
     next_chunk_index := next_chunk_index t;
     received_chunks := r |}.

(** A [PeerSession]: its [_is_connected] flag and its socket. [socket_room]
    is what the connection still takes: [None] when it holds for good,
    [Some n] when it breaks after [n] more bytes. *)
Record PeerSession := mkPeerSession {
  _is_connected : bool;
  socket_room : option nat
}.

(** What the engine does to the outside, in order.
    - [sent_to]: both writes of [PeerSession::SendMessage] went through, so
      the whole frame of [message] is on the wire.
    - [wrote_to]: a write threw; [bytes] is what the socket had taken of
      the frame by then.
    - [completed_callback_erased]: the completed callback called with
      [transfer.file_path] after [erase(it)] has destroyed the entry
      [transfer] refers to. The reference dangles, so the path the callback
      reads is undefined and the event carries none; from this event on the
      behaviour of the execution is undefined. *)
Inductive Event :=
| sent_to (peer : PeerId) (message : Message)
| wrote_to (peer : PeerId) (bytes : ByteBuffer)
| request_callback (peer : PeerId) (filename : string) (size : Z)
| progress_callback (peer : PeerId) (path : string) (bytes total : Z)
| completed_callback (peer : PeerId) (path : string) (success : bool) (error : string)
| completed_callback_erased (peer : PeerId) (success : bool) (error : string).

Abbreviation TransferKey := (PeerId * string)%type.

(** The engine, the network manager it holds and the world around them.
    - [_progress_callback], [_completed_callback]: whether the slot is set;
      a call is an [Event]. [progress_callback] carries the two integers
      whose quotient the code passes.
    - [files]: the regular files, by path. [is_directory]: the paths that
      exist and are no regular file, directories above all.
      [creates_directories] says where [std::filesystem::create_directories]
      returns rather than throws, [ofstream_opens] where an [ofstream] can
      be opened and [write_goes_through] where a write succeeds.
    - [indeterminate]: what a member left uninitialised holds.
    - [drawn], [constructed]: the message id and clock reading the n-th
      [Message] constructor draws, and how many ran. *)
Record State := mkState {
  _outgoing_transfers : gmap TransferKey TransferInfo;
  _incoming_transfers : gmap TransferKey TransferInfo;
  _chunk_size : Z;
  _progress_callback : bool;
  _completed_callback : bool;
  _request_callback : option (PeerId -> string -> Z -> bool);
  _peer_sessions : gmap PeerId PeerSession;
  files : gmap string ByteBuffer;
  is_directory : string -> bool;
  creates_directories : string -> bool;
  ofstream_opens : string -> bool;
  write_goes_through : string -> bool;
  current_path : string;
  indeterminate : Z;
  drawn : nat -> MessageId * Z;
  constructed : nat;
  trace : list Event
}.

Definition set_outgoing (f : gmap TransferKey TransferInfo -> gmap TransferKey TransferInfo)
    (st : State) : State :=
  {| _outgoing_transfers := f (_outgoing_transfers st);
     _incoming_transfers := _incoming_transfers st;
     _chunk_size := _chunk_size st;
     _progress_callback := _progress_callback st;
     _completed_callback := _completed_callback st;
     _request_callback := _request_callback st;
     _peer_sessions := _peer_sessions st;
     files := files st;
     is_directory := is_directory st;
     creates_directories := creates_directories st;
     ofstream_opens := ofstream_opens st;
     write_goes_through := write_goes_through st;
     current_path := current_path st;
     indeterminate := indeterminate st;
     drawn := drawn st;
     constructed := constructed st;
     trace := trace st |}.

Definition set_incoming (f : gmap TransferKey TransferInfo -> gmap TransferKey TransferInfo)
    (st : State) : State :=
  {| _outgoing_transfers := _outgoing_transfers st;
     _incoming_transfers := f (_incoming_transfers st);
     _chunk_size := _chunk_size st;
     _progress_callback := _progress_callback st;
     _completed_callback := _completed_callback st;
     _request_callback := _request_callback st;
     _peer_sessions := _peer_sessions st;
     files := files st;
     is_directory := is_directory st;
     creates_directories := creates_directories st;
     ofstream_opens := ofstream_opens st;
     write_goes_through := write_goes_through st;
     current_path := current_path st;
     indeterminate := indeterminate st;
     drawn := drawn st;
     constructed := constructed st;
     trace := trace st |}.

Definition set_sessions (f : gmap PeerId PeerSession -> gmap PeerId PeerSession)
    (st : State) : State :=
  {| _outgoing_transfers := _outgoing_transfers st;
     _incoming_transfers := _incoming_transfers st;
     _chunk_size := _chunk_size st;
     _progress_callback := _progress_callback st;
     _completed_callback := _completed_callback st;
     _request_callback := _request_callback st;
     _peer_sessions := f (_peer_sessions st);
     files := files st;
     is_directory := is_directory st;
     creates_directories := creates_directories st;
     ofstream_opens := ofstream_opens st;
     write_goes_through := write_goes_through st;
     current_path := current_path st;
     indeterminate := indeterminate st;
     drawn := drawn st;
     constructed := constructed st;
     trace := trace st |}.

Definition set_files (f : gmap string ByteBuffer -> gmap string ByteBuffer)
    (st : State) : State :=
  {| _outgoing_transfers := _outgoing_transfers st;
     _incoming_transfers := _incoming_transfers st;
     _chunk_size := _chunk_size st;
     _progress_callback := _progress_callback st;
     _completed_callback := _completed_callback st;
     _request_callback := _request_callback st;
     _peer_sessions := _peer_sessions st;
     files := f (files st);
     is_directory := is_directory st;
     creates_directories := creates_directories st;
     ofstream_opens := ofstream_opens st;
     write_goes_through := write_goes_through st;
     current_path := current_path st;
     indeterminate := indeterminate st;
     drawn := drawn st;
     constructed := constructed st;
     trace := trace st |}.

Definition set_is_directory (f : (string -> bool) -> string -> bool) (st : State) : State :=
  {| _outgoing_transfers := _outgoing_transfers st;
     _incoming_transfers := _incoming_transfers st;
     _chunk_size := _chunk_size st;
     _progress_callback := _progress_callback st;
     _completed_callback := _completed_callback st;
     _request_callback := _request_callback st;
     _peer_sessions := _peer_sessions st;
     files := files st;
     is_directory := f (is_directory st);
     creates_directories := creates_directories st;
     ofstream_opens := ofstream_opens st;
     write_goes_through := write_goes_through st;
     current_path := current_path st;
     indeterminate := indeterminate st;
     drawn := drawn st;
     constructed := constructed st;
     trace := trace st |}.

Definition set_constructed (n : nat) (st : State) : State :=
  {| _outgoing_transfers := _outgoing_transfers st;
     _incoming_transfers := _incoming_transfers st;
     _chunk_size := _chunk_size st;
     _progress_callback := _progress_callback st;
     _completed_callback := _completed_callback st;
     _request_callback := _request_callback st;
     _peer_sessions := _peer_sessions st;
     files := files st;
     is_directory := is_directory st;
     creates_directories := creates_directories st;
     ofstream_opens := ofstream_opens st;
     write_goes_through := write_goes_through st;
     current_path := current_path st;
     indeterminate := indeterminate st;
     drawn := drawn st;
     constructed := n;
     trace := trace st |}.

Definition set_trace (f : list Event -> list Event) (st : State) : State :=
  {| _outgoing_transfers := _outgoing_transfers st;
     _incoming_transfers := _incoming_transfers st;
     _chunk_size := _chunk_size st;
     _progress_callback := _progress_callback st;
     _completed_callback := _completed_callback st;
     _request_callback := _request_callback st;
     _peer_sessions := _peer_sessions st;
     files := files st;
     is_directory := is_directory st;
     creates_directories := creates_directories st;
     ofstream_opens := ofstream_opens st;
     write_goes_through := write_goes_through st;
     current_path := current_path st;
     indeterminate := indeterminate st;
     drawn := drawn st;
     constructed := constructed st;
     trace := f (trace st) |}.

(** *** The state monad the member functions run in *)

Definition M (A : Type) : Type := State -> A * State.

#[global] Instance M_ret : MRet M := fun A a st => (a, st).
#[global] Instance M_bind : MBind M :=
  fun A B f m st => let '(a, st') := m st in f a st'.

Definition gets {A : Type} (f : State -> A) : M A := fun st => (f st, st).
Definition modify (f : State -> State) : M unit := fun st => (tt, f st).
Definition emit (e : Event) : M unit := modify (set_trace (fun t => (t ++ [e])%list)).
Definition when (b : bool) (m : M unit) : M unit := if b then m else mret tt.

(** [Message::Message]: a fresh id and the current time. *)
Definition new_Header (sender : PeerId) : M Header :=
  fun st =>
    let '(id, now) := drawn st (constructed st) in
    ({| _sender := sender; _id := id; _timestamp := now |},
     set_constructed (S (constructed st)) st).

Definition new_FileTransferRequestMessage (sender : PeerId) (filename : string)
    (file_size : Z) : M Message :=
  h ← new_Header sender;
  mret (FileTransferRequest
          {| request_header := h; _filename := filename; _file_size := file_size |}).

Definition new_FileChunkMessage (sender : PeerId) (file_id : string)
    (chunk_index : Z) (data : ByteBuffer) : M Message :=
  h ← new_Header sender;
  mret (FileChunk
          {| chunk_header := h; chunk_file_id := file_id;
             _chunk_index := chunk_index; _data := data |}).

Definition new_FileTransferCompleteMessage (sender : PeerId) (file_id : string)
    (success : bool) (error_message : string) : M Message :=
  h ← new_Header sender;
  mret (FileTransferComplete
          {| complete_header := h; complete_file_id := file_id;
             _success := success; _error_message := error_message |}).

(** [asio::write(_socket, buffer)] on a socket with [room] left: the bytes
    the socket takes, and the room left after them, or [None] when the
    connection broke before all of [bytes] were out and the call threw. *)
Definition asio_write (room : option nat) (bytes : ByteBuffer)
  : ByteBuffer * option (option nat) :=
  match room with
  | None => (bytes, Some None)
  | Some n =>
    if (length bytes <=? n)%nat then (bytes, Some (Some (n - length bytes)%nat))
    else (take n bytes, None)
  end.

(** [PeerSession::Close]. *)
Definition Close (session : PeerSession) : PeerSession :=
  {| _is_connected := false; socket_room := Some O |}.

(** [PeerSession::SendMessage] on a connected session: the four bytes of
    the length go out in one write and the serialized message in a second
    one. The value returned, the bytes that reached the socket, and the
    session afterwards: a write that throws is caught, and the session
    closed. *)
Definition PeerSession_SendMessage (session : PeerSession) (message : Message)
  : bool * ByteBuffer * PeerSession :=
  let data := Serialize message in
  let size_network := be_encode 4 (to_uint32 (Z.of_nat (length data))) in
  match asio_write (socket_room session) size_network with
  | (taken, None) => (false, taken, Close session)
  | (_, Some room) =>
    match asio_write room data with
    | (taken, None) => (false, (size_network ++ taken)%list, Close session)
    | (_, Some room') =>
      (true, (size_network ++ data)%list,
       {| _is_connected := true; socket_room := room' |})
    end
  end.

(** [AsioNetworkManager::SendMessage]: no session, or a session that is not
    connected, gives [false] without a write. *)
Definition NetworkManager_SendMessage (peer_id : PeerId) (message : Message) : M bool :=
  sessions ← gets _peer_sessions;
  match sessions !! peer_id with
  | None => mret false
  | Some session =>
    if negb (_is_connected session) then mret false
    else
      let '(sent, taken, session') := PeerSession_SendMessage session message in
      modify (set_sessions <[peer_id := session']>);;
      emit (if sent then sent_to peer_id message else wrote_to peer_id taken);;
      mret sent
  end.

(** [std::filesystem::path(p).filename()]: what follows the last slash. *)
Fixpoint path_filename_from (p acc : string) : string :=
  match p with
  | EmptyString => acc
  | String c r =>
    if Ascii.eqb c "/" then path_filename_from r ""
    else path_filename_from r (acc +:+ String c "")
  end.

Definition path_filename (p : string) : string := path_filename_from p "".

Fixpoint ends_with_slash (p : string) : bool :=
  match p with
  | EmptyString => false
  | String c EmptyString => Ascii.eqb c "/"
  | String _ r => ends_with_slash r
  end.

(** [a / b] on [std::filesystem::path]: an absolute [b] replaces [a]. *)
Definition path_append (a b : string) : string :=
  match b with
  | String "/" _ => b
  | _ => if ends_with_slash a || String.eqb a "" then a +:+ b else a +:+ "/" +:+ b
  end.

(** [map.emplace(key, value)]: no effect when the key is there. *)
Definition emplace (key : TransferKey) (value : TransferInfo)
    (m : gmap TransferKey TransferInfo) : gmap TransferKey TransferInfo :=
  match m !! key with
  | Some _ => m
  | None => <[key := value]> m
  end.

(** How a call that goes to the file system ends: it returns, or a
    [std::filesystem::filesystem_error] leaves it and reaches the caller. *)
Inductive ending (A : Type) :=
| returned (a : A)
| filesystem_error.
Arguments returned {A} a.
Arguments filesystem_error {A}.

(** [std::filesystem::exists] holds of a directory as it does of a regular
    file, and [std::filesystem::file_size] (line 309) throws on what is no
    regular file; nothing in [SendFile] catches. *)
Definition SendFile (peer_id : PeerId) (file_path : string) : M (ending bool) :=
  directory ← gets (fun st => is_directory st file_path);
  fs ← gets files;
  match fs !! file_path with
  | None => mret (if directory : bool then filesystem_error else returned false)
  | Some content =>
    let file_size := Z.of_nat (length content) in
    let file_id := file_path in
    let filename := path_filename file_path in
    request ← new_FileTransferRequestMessage peer_id filename file_size;
    sent ← NetworkManager_SendMessage peer_id request;
    if negb sent then mret (returned false)
    else
      garbage ← gets indeterminate;
      let transfer_info :=
        {| file_path := file_path; file_id := file_id; file_size := file_size;
           peer_id := peer_id; status := PENDING; bytes_transferred := 0;
           input_stream := closed_ifstream; output_stream := closed_ofstream;
           next_chunk_index := garbage; received_chunks := ∅ |} in
      modify (set_outgoing (emplace (peer_id, file_id) transfer_info));;
      mret (returned true)
  end.

(** The status set and the stream closed just before [erase] go with the
    erased entry. *)
Definition CancelTransfer (peer_id : PeerId) (file_path : string) : M unit :=
  let file_id := file_path in
  outgoing ← gets _outgoing_transfers;
  match outgoing !! (peer_id, file_id) with
  | Some _ =>
    complete ← new_FileTransferCompleteMessage peer_id file_id false
                 "Transfer cancelled by sender";
    NetworkManager_SendMessage peer_id complete;;
    modify (set_outgoing (delete (peer_id, file_id)))
  | None =>
    incoming ← gets _incoming_transfers;
    match incoming !! (peer_id, file_id) with
    | Some _ =>
      complete ← new_FileTransferCompleteMessage peer_id file_id false
                   "Transfer cancelled by receiver";
      NetworkManager_SendMessage peer_id complete;;
      modify (set_incoming (delete (peer_id, file_id)))
    | None => mret tt
    end
  end.

(** The file at [path] after [seekp(pos)] and a write of [data]; a gap
    past the old end reads as zeros. A write of no bytes leaves the file as
    it is, wherever the stream was put. *)
Definition write_at (content : ByteBuffer) (pos : nat) (data : ByteBuffer) : ByteBuffer :=
  if bool_decide (data = []) then content
  else (take pos (content ++ replicate (pos - length content)%nat x00)
        ++ data ++ drop (pos + length data)%nat content)%list.

(** [current_path() / "downloads"] and [output_dir / filename]. *)
Definition output_dir_of (st : State) : string :=
  path_append (current_path st) "downloads".

Definition output_path_of (st : State) (filename : string) : string :=
  path_append (path_append (current_path st) "downloads") filename.

(** Whether lines 487 to 492 end with an open stream on [path]: the
    [downloads] directory is there or can be made, and the stream opens. *)
Definition opens_for_writing (st : State) (path : string) : bool :=
  creates_directories st (output_dir_of st) && ofstream_opens st path.

(** [create_directories] (line 488) is outside any [try]: when it throws,
    the exception leaves the handler before a stream is opened or a message
    sent. When it returns, the directory is there. *)
Definition HandleFileTransferRequest (message : FileTransferRequestMessage)
  : M (ending unit) :=
  let sender := _sender (request_header message) in
  let filename := _filename message in
  let file_size := _file_size message in
  callback ← gets _request_callback;
  accept ← match callback with
           | Some f =>
             emit (request_callback sender filename file_size);;
             mret (f sender filename file_size)
           | None => mret true
           end;
  if negb accept then
    response ← new_FileTransferCompleteMessage sender filename false
                 "Transfer rejected by receiver";
    NetworkManager_SendMessage sender response;;
    mret (returned tt)
  else
    output_dir ← gets output_dir_of;
    created ← gets (fun st => creates_directories st output_dir);
    if negb created then mret filesystem_error
    else
      modify (set_is_directory
                (fun directory p => directory p || String.eqb p output_dir));;
      output_path ← gets (fun st => output_path_of st filename);
      opens ← gets (fun st => ofstream_opens st output_path);
      if negb opens then
        response ← new_FileTransferCompleteMessage sender filename false
                     "Failed to create output file";
        NetworkManager_SendMessage sender response;;
        mret (returned tt)
      else
        modify (set_files <[output_path := []]>);;
        let transfer_info :=
          {| file_path := output_path; file_id := filename; file_size := file_size;
             peer_id := sender; status := IN_PROGRESS; bytes_transferred := 0;
             input_stream := closed_ifstream;
             output_stream := {| out_is_open := true; out_fail := false |};
             next_chunk_index := 0; received_chunks := ∅ |} in
        modify (set_incoming <[(sender, filename) := transfer_info]>);;
        mret (returned tt).

(** On a failed write the entry is erased before the completed callback is
    handed [transfer.file_path] (lines 551 to 555). *)
Definition HandleFileChunk (message : FileChunkMessage) : M unit :=
  let sender := _sender (chunk_header message) in
  let file_id := chunk_file_id message in
  let chunk_index := _chunk_index message in
  let data := _data message in
  incoming ← gets _incoming_transfers;
  match incoming !! (sender, file_id) with
  | None => mret tt
  | Some transfer =>
    match received_chunks transfer !! chunk_index with
    | Some _ => mret tt
    | None =>
      chunk_size ← gets _chunk_size;
      writes ← gets (fun st => write_goes_through st (file_path transfer));
      let stream := output_stream transfer in
      if negb (out_is_open stream && negb (out_fail stream) && writes) then
        response ← new_FileTransferCompleteMessage sender file_id false
                     "Failed to write to output file";
        NetworkManager_SendMessage sender response;;
        modify (set_incoming (delete (sender, file_id)));;
        has_completed ← gets _completed_callback;
        when has_completed
          (emit (completed_callback_erased sender false
                   "Failed to write to output file"))
      else
        let pos := Z.to_nat (to_uint64 (chunk_index * chunk_size)) in
        modify (set_files (fun fs =>
          <[file_path transfer :=
              write_at (default [] (fs !! file_path transfer)) pos data]> fs));;
        let bytes := to_uint64 (bytes_transferred transfer + Z.of_nat (length data)) in
        let transfer' :=
          with_bytes_transferred bytes
            (with_received_chunks (<[chunk_index := true]> (received_chunks transfer))
               transfer) in
        modify (set_incoming <[(sender, file_id) := transfer']>);;
        has_progress ← gets _progress_callback;
        when has_progress
          (emit (progress_callback sender (file_path transfer) bytes (file_size transfer)));;
        if file_size transfer <=? bytes then
          response ← new_FileTransferCompleteMessage sender file_id true "";
          NetworkManager_SendMessage sender response;;
          has_completed ← gets _completed_callback;
          when has_completed
            (emit (completed_callback sender (file_path transfer) true ""));;
          modify (set_incoming (delete (sender, file_id)))
        else mret tt
    end
  end.

Definition HandleFileTransferComplete (message : FileTransferCompleteMessage) : M unit :=
  let sender := _sender (complete_header message) in
  let file_id := complete_file_id message in
  outgoing ← gets _outgoing_transfers;
  match outgoing !! (sender, file_id) with
  | None => mret tt
  | Some transfer =>
    has_completed ← gets _completed_callback;
    when has_completed
      (emit (completed_callback sender (file_path transfer) (_success message)
               (if _success message then "" else _error_message message)));;
    modify (set_outgoing (delete (sender, file_id)))
  end.

(** How a call on the sending side ends. [_transfers_mutex] is a plain
    [std::mutex]: a thread that locks it while holding it has undefined
    behaviour (with the usual implementations it waits for itself for ever).
    The model stops there, in the state the engine has at that point. *)
Inductive call_end :=
| returns_to_caller
| locks_held_mutex.

(** The four failure exits of the sending side: tell the peer, erase the
    entry, then hand the completed callback [transfer.file_path] of the
    entry just erased. *)
Definition fail_outgoing (peer_id : PeerId) (file_id : string) (reason : string) : M unit :=
  complete ← new_FileTransferCompleteMessage peer_id file_id false reason;
  NetworkManager_SendMessage peer_id complete;;
  modify (set_outgoing (delete (peer_id, file_id)));;
  has_completed ← gets _completed_callback;
  when has_completed (emit (completed_callback_erased peer_id false reason)).

(** The two successful exits of the sending side: the callback first, then
    the erase. *)
Definition complete_outgoing (peer_id : PeerId) (file_id : string)
    (transfer : TransferInfo) : M unit :=
  has_completed ← gets _completed_callback;
  when has_completed
    (emit (completed_callback peer_id (file_path transfer) true ""));;
  modify (set_outgoing (delete (peer_id, file_id))).

(** [SendNextChunk] entered by a thread that holds [_transfers_mutex]: the
    [lock_guard] of line 665 locks it a second time. *)
Definition SendNextChunk_under_lock (peer_id : PeerId) (file_id : string) : M call_end :=
  mret locks_held_mutex.

(** [SendNextChunk] entered with [_transfers_mutex] free. Its [lock_guard]
    holds the mutex to the end of the function, so the call to itself in
    the last line (779) is made under the lock. *)
Definition SendNextChunk (peer_id : PeerId) (file_id : string) : M call_end :=
  outgoing ← gets _outgoing_transfers;
  match outgoing !! (peer_id, file_id) with
  | None => mret returns_to_caller
  | Some transfer =>
    if negb (bool_decide (status transfer = IN_PROGRESS)) then mret returns_to_caller
    else if negb (in_is_open (input_stream transfer)) then mret returns_to_caller
    else if in_fail (input_stream transfer) then
      fail_outgoing peer_id file_id "Failed to read from file";;
      mret returns_to_caller
    else
      chunk_size ← gets _chunk_size;
      fs ← gets files;
      let pos := Z.to_nat (to_uint64 (next_chunk_index transfer * chunk_size)) in
      let content := default [] (fs !! file_path transfer) in
      let chunk := take (Z.to_nat chunk_size) (drop pos content) in
      let bytes_read := Z.of_nat (length chunk) in
      if bytes_read =? 0 then
        (if file_size transfer <=? bytes_transferred transfer
         then complete_outgoing peer_id file_id transfer
         else fail_outgoing peer_id file_id "Unexpected end of file");;
        mret returns_to_caller
      else
        chunk_msg ← new_FileChunkMessage peer_id file_id (next_chunk_index transfer)
                      chunk;
        sent ← NetworkManager_SendMessage peer_id chunk_msg;
        if negb sent then
          fail_outgoing peer_id file_id "Failed to send file chunk";;
          mret returns_to_caller
        else
          let bytes := to_uint64 (bytes_transferred transfer + bytes_read) in
          let transfer' :=
            with_input_stream
              {| in_is_open := true; in_fail := bytes_read <? chunk_size |}
              (with_next_chunk_index (to_uint32 (next_chunk_index transfer + 1))
                 (with_bytes_transferred bytes transfer)) in
          modify (set_outgoing <[(peer_id, file_id) := transfer']>);;
          has_progress ← gets _progress_callback;
          when has_progress
            (emit (progress_callback peer_id (file_path transfer) bytes
                     (file_size transfer)));;
          if file_size transfer <=? bytes
          then complete_outgoing peer_id file_id transfer;; mret returns_to_caller
          else SendNextChunk_under_lock peer_id file_id
  end.

(** [StartSendingFile] takes [_transfers_mutex] in its first line (630) and
    holds it to its end, so its call of [SendNextChunk] in the last line
    (661) is made under the lock. *)
Definition StartSendingFile (peer_id : PeerId) (file_id : string) : M call_end :=
  outgoing ← gets _outgoing_transfers;
  match outgoing !! (peer_id, file_id) with
  | None => mret returns_to_caller
  | Some transfer =>
    fs ← gets files;
    let opened := in_is_open (input_stream transfer) in
    if negb opened && negb (bool_decide (is_Some (fs !! file_path transfer))) then
      fail_outgoing peer_id file_id "Failed to open file for reading";;
      mret returns_to_caller
    else
      let stream :=
        if opened then input_stream transfer
        else {| in_is_open := true; in_fail := false |} in
      let transfer' :=
        with_next_chunk_index 0
          (with_status IN_PROGRESS (with_input_stream stream transfer)) in
      modify (set_outgoing <[(peer_id, file_id) := transfer']>);;
      SendNextChunk_under_lock peer_id file_id
  end.

(** The callback the engine registers with the network manager. An
    exception of a handler passes through it to the caller. *)
Definition HandleMessage (message : Message) : M (ending unit) :=
  match message with
  | FileTransferRequest m => HandleFileTransferRequest m
  | FileChunk m => fun st => (returned tt, (HandleFileChunk m st).2)
  | FileTransferComplete m => fun st => (returned tt, (HandleFileTransferComplete m st).2)
  | Chat _ => mret (returned tt)
  end.

Definition SetProgressCallback (set : bool) (st : State) : State :=
  {| _outgoing_transfers := _outgoing_transfers st;
     _incoming_transfers := _incoming_transfers st;
     _chunk_size := _chunk_size st;
     _progress_callback := set;
     _completed_callback := _completed_callback st;
     _request_callback := _request_callback st;
     _peer_sessions := _peer_sessions st;
     files := files st;
     is_directory := is_directory st;
     creates_directories := creates_directories st;
     ofstream_opens := ofstream_opens st;
     write_goes_through := write_goes_through st;
     current_path := current_path st;
     indeterminate := indeterminate st;
     drawn := drawn st;
     constructed := constructed st;
     trace := trace st |}.

Definition SetCompletedCallback (set : bool) (st : State) : State :=
  {| _outgoing_transfers := _outgoing_transfers st;
     _incoming_transfers := _incoming_transfers st;
     _chunk_size := _chunk_size st;
     _progress_callback := _progress_callback st;
     _completed_callback := set;
     _request_callback := _request_callback st;
     _peer_sessions := _peer_sessions st;
     files := files st;
     is_directory := is_directory st;
     creates_directories := creates_directories st;
     ofstream_opens := ofstream_opens st;
     write_goes_through := write_goes_through st;
     current_path := current_path st;
     indeterminate := indeterminate st;
     drawn := drawn st;
     constructed := constructed st;
     trace := trace st |}.

Definition SetRequestCallback (callback : option (PeerId -> string -> Z -> bool))
    (st : State) : State :=
  {| _outgoing_transfers := _outgoing_transfers st;
     _incoming_transfers := _incoming_transfers st;
     _chunk_size := _chunk_size st;
     _progress_callback := _progress_callback st;
     _completed_callback := _completed_callback st;
     _request_callback := callback;
     _peer_sessions := _peer_sessions st;
     files := files st;
     is_directory := is_directory st;
     creates_directories := creates_directories st;
     ofstream_opens := ofstream_opens st;
     write_goes_through := write_goes_through st;
     current_path := current_path st;
     indeterminate := indeterminate st;
     drawn := drawn st;
     constructed := constructed st;
     trace := trace st |}.

(** *** The states the engine can be in

    A freshly constructed engine has empty tables and the default chunk
    size. From there the state moves by the public member functions, by
    [HandleMessage] on an inbound message, and by the world changing under
    the engine. [StartSendingFile] and [SendNextChunk] are private and no
    member function calls [StartSendingFile], so they are no steps. *)

Definition constructed_engine (st : State) : Prop :=
  _outgoing_transfers st = ∅ /\ _incoming_transfers st = ∅
  /\ _chunk_size st = DEFAULT_CHUNK_SIZE /\ trace st = [].

Definition same_engine (st st' : State) : Prop :=
  _outgoing_transfers st' = _outgoing_transfers st
  /\ _incoming_transfers st' = _incoming_transfers st
  /\ _chunk_size st' = _chunk_size st
  /\ trace st' = trace st.

Inductive step : State -> State -> Prop :=
| step_SendFile peer_id file_path st :
    step st (SendFile peer_id file_path st).2
| step_CancelTransfer peer_id file_path st :
    step st (CancelTransfer peer_id file_path st).2
| step_HandleMessage message st :
    step st (HandleMessage message st).2
| step_SetProgressCallback set st :
    step st (SetProgressCallback set st)
| step_SetCompletedCallback set st :
    step st (SetCompletedCallback set st)
| step_SetRequestCallback callback st :
    step st (SetRequestCallback callback st)
| step_world st st' :
    same_engine st st' -> step st st'.

Inductive reachable : State -> Prop :=
| reachable_constructed st : constructed_engine st -> reachable st
| reachable_step st st' : reachable st -> step st st' -> reachable st'.

(** The chunks among the events, as (index, size) pairs in order. *)
Definition chunk_of (e : Event) : option (Z * Z) :=
  match e with
  | sent_to _ (FileChunk m) => Some (_chunk_index m, Z.of_nat (length (_data m)))
  | _ => None
  end.

Definition chunks_sent (t : list Event) : list (Z * Z) := omap chunk_of t.

(** The request callback, when one is set, says yes. *)
Definition accepts (st : State) (message : FileTransferRequestMessage) : Prop :=
  match _request_callback st with
  | Some f => f (_sender (request_header message)) (_filename message)
                (_file_size message) = true
  | None => True
  end.

(** The sender is about to read chunk [i] of the file [content] at [path]
    for [peer]: the entry is in progress on an open stream in good state,
    [i] chunks were sent, and peer, chunk size and file are in place. *)
Definition sending (st : State) (peer : PeerId) (path : string)
    (content : ByteBuffer) (i : Z) : Prop :=
  exists transfer,
    _outgoing_transfers st !! (peer, path) = Some transfer
    /\ status transfer = IN_PROGRESS
    /\ input_stream transfer = {| in_is_open := true; in_fail := false |}
    /\ next_chunk_index transfer = i
    /\ bytes_transferred transfer = i * DEFAULT_CHUNK_SIZE
    /\ file_size transfer = Z.of_nat (length content)
    /\ file_path transfer = path
    /\ files st !! path = Some content
    /\ _peer_sessions st !! peer
       = Some {| _is_connected := true; socket_room := None |}
    /\ _chunk_size st = DEFAULT_CHUNK_SIZE.

(** Every outgoing entry is pending and sits under its own peer and path. *)
Definition outgoing_pending (st : State) : Prop :=
  forall key transfer,
    _outgoing_transfers st !! key = Some transfer ->
    status transfer = PENDING /\ key = (peer_id transfer, file_path transfer).

(** An outgoing table that holds nothing but entries of the table before
    and fresh pending ones. *)
Definition outgoing_from (before after : gmap TransferKey TransferInfo) : Prop :=
  forall key transfer,
    after !! key = Some transfer ->
    before !! key = Some transfer
    \/ (status transfer = PENDING /\ key = (peer_id transfer, file_path transfer)).

Definition session_up (st : State) (peer : PeerId) : Prop :=
  _peer_sessions st !! peer
  = Some {| _is_connected := true; socket_room := None |}.

(** The events that put bytes on the wire. *)
Definition is_sent (e : Event) : bool :=
  match e with
  | sent_to _ _ | wrote_to _ _ => true
  | _ => false
  end.

(** The messages that went out whole, with their receiver. *)
Definition message_of (e : Event) : option (PeerId * Message) :=
  match e with
  | sent_to peer message => Some (peer, message)
  | _ => None
  end.

End FileTransfer.

(** ** Concrete values the statements below are run on *)

Module Samples.
Import Bytes Wire.
Local Open Scope string_scope.
Local Open Scope Z_scope.

Definition alice : PeerId := replicate 32 "a"%byte.
Definition sample_header : Header :=
  {| _sender := alice; _id := replicate 16 "i"%byte; _timestamp := 1700000000 |}.

Definition sample_chat : Message :=
  Chat {| chat_header := sample_header; _content := "hi" |}.

Definition sample_key : list byte := replicate 32 "k"%byte.
Definition sample_nonce : list byte := replicate 24 "n"%byte.
Definition sample_plaintext : ByteBuffer := list_byte_of_string "Hello, world".

Definition sample_entry (n : Z) : Chat.ChatInfo :=
  {| Chat.sender_id := alice; Chat.sender_name := "Unknown";
     Chat.content := "hi"; Chat.timestamp := n |}.

Definition sample_history : gmap PeerId (list Chat.ChatInfo) :=
  {[ alice := [sample_entry 1; sample_entry 2; sample_entry 3] ]}.

Definition sample_discovery : Discovery.State :=
  {| Discovery._port := 8080; Discovery._discovered_peers := ∅;
     Discovery._discovered_callback := true |}.

(** An engine with one connected peer, one local file of [n] bytes, both
    callbacks that only report set, and no request callback. *)
Definition sample_engine (n : nat) : FileTransfer.State :=
  {| FileTransfer._outgoing_transfers := ∅;
     FileTransfer._incoming_transfers := ∅;
     FileTransfer._chunk_size := FileTransfer.DEFAULT_CHUNK_SIZE;
     FileTransfer._progress_callback := true;
     FileTransfer._completed_callback := true;
     FileTransfer._request_callback := None;
     FileTransfer._peer_sessions :=
       {[ alice := {| FileTransfer._is_connected := true;
                      FileTransfer.socket_room := None |} ]};
     FileTransfer.files := {[ "/srv/report.bin" := replicate n "r"%byte ]};
     FileTransfer.is_directory := fun p => String.eqb p "/srv";
     FileTransfer.creates_directories := fun _ => true;
     FileTransfer.ofstream_opens := fun _ => true;
     FileTransfer.write_goes_through := fun _ => true;
     FileTransfer.current_path := "/home/bob";
     FileTransfer.indeterminate := 77;
     FileTransfer.drawn := fun n => (replicate 16 x00, Z.of_nat n);
     FileTransfer.constructed := 0;
     FileTransfer.trace := [] |}.

Definition sample_request (size : Z) : FileTransferRequestMessage :=
  {| request_header := sample_header; _filename := "e.bin"; _file_size := size |}.

Definition sample_data_chunk (index : Z) (data : ByteBuffer) : FileChunkMessage :=
  {| chunk_header := sample_header; chunk_file_id := "e.bin";
     _chunk_index := index; _data := data |}.

(** The receiver after accepting a request for [size] bytes, and after one
    chunk with index 1. *)
Definition receiving (size : Z) : FileTransfer.State :=
  (FileTransfer.HandleFileTransferRequest (sample_request size) (sample_engine 0)).2.

Definition received_chunk_1 : FileTransfer.State :=
  (FileTransfer.HandleFileChunk (sample_data_chunk 1 ["d"%byte; "a"%byte])
     (receiving 40000)).2.


(** The sender of the [n]-byte file in the middle of its transfer: the
    entry as [SendFile] filed it, then in progress on an open stream, with
    [k] full chunks sent and chunk [k] next. *)
Definition sending_sample (n : nat) (k : Z) : FileTransfer.State :=
  FileTransfer.set_outgoing
    (fun _ =>
       {[ (alice, "/srv/report.bin") :=
            {| FileTransfer.file_path := "/srv/report.bin";
               FileTransfer.file_id := "/srv/report.bin";
               FileTransfer.file_size := Z.of_nat (length (replicate n "r"%byte));
               FileTransfer.peer_id := alice;
               FileTransfer.status := FileTransfer.IN_PROGRESS;
               FileTransfer.bytes_transferred := k * FileTransfer.DEFAULT_CHUNK_SIZE;
               FileTransfer.input_stream :=
                 {| FileTransfer.in_is_open := true; FileTransfer.in_fail := false |};
               FileTransfer.output_stream := FileTransfer.closed_ofstream;
               FileTransfer.next_chunk_index := k;
               FileTransfer.received_chunks := ∅ |} ]})
    (sample_engine n).

Definition sample_chunk : Message :=
  FileChunk {| chunk_header := sample_header; chunk_file_id := "notes.txt";
               _chunk_index := 1; _data := ["d"%byte; "a"%byte; "t"%byte; "a"%byte] |}.

End Samples.

(** ** The public-key half of the crypto provider (sodium_crypto.cpp) *)

Module Asymmetric.
Import Bytes Crypto.

(** A constant of libsodium's headers. *)
Definition crypto_box_MACBYTES : nat := 16.

(** The [crypto_box] entry points, taken as given like those of [Sodium],
    and the pairs of a public and a secret key that [crypto_box_keypair]
    can write. *)
Class SodiumBox := {
  crypto_box_easy : ByteBuffer -> Nonce -> Key -> Key -> Z * ByteBuffer;
  crypto_box_open_easy : ByteBuffer -> Nonce -> Key -> Key -> Z * ByteBuffer;
  crypto_box_keypair : Key -> Key -> Prop
}.

(** What libsodium documents of the box: sealing to the public key of a
    key pair succeeds and writes the message length plus
    [crypto_box_MACBYTES] bytes; what one party sealed for another, the other
    opens with the sender's public key and its own secret key. *)
Record BoxContract (box : SodiumBox) : Prop := {
  box_easy_ok : forall m n pk_r sk_r sk_s,
    length n = NONCE_SIZE -> crypto_box_keypair pk_r sk_r ->
    exists c, crypto_box_easy m n pk_r sk_s = (0, c)
              /\ length c = (length m + crypto_box_MACBYTES)%nat;
  box_open_easy_ok : forall m n c pk_s sk_s pk_r sk_r,
    length n = NONCE_SIZE ->
    crypto_box_keypair pk_s sk_s -> crypto_box_keypair pk_r sk_r ->
    crypto_box_easy m n pk_r sk_s = (0, c) ->
    crypto_box_open_easy c n pk_s sk_r = (0, m)
}.

(** [nonce] is what [GenerateNonce] returned, [randombytes_buf] having filled
    it. The two [std::copy] calls fill [result] exactly: the nonce, then the
    sealed bytes. *)
Definition AsymmetricEncrypt {box : SodiumBox} (nonce : Nonce) (plaintext : ByteBuffer)
    (receiver_public_key sender_private_key : Key) : outcome ByteBuffer :=
  let ciphertext := ByteBuffer_sized (length plaintext + crypto_box_MACBYTES) in
  let result := ByteBuffer_sized (length nonce + length ciphertext) in
  let '(rc, written) :=
    crypto_box_easy plaintext nonce receiver_public_key sender_private_key in
  if negb (rc =? 0) then Throws "Asymmetric encryption failed"
  else Returns (fill result (nonce ++ fill ciphertext written)).

Definition AsymmetricDecrypt {box : SodiumBox} (data : ByteBuffer)
    (sender_public_key receiver_private_key : Key) : outcome ByteBuffer :=
  if (length data <? NONCE_SIZE + crypto_box_MACBYTES)%nat
  then Throws "Encrypted data too short"
  else
    let nonce := take NONCE_SIZE data in
    let ciphertext := drop NONCE_SIZE data in
    let plaintext := ByteBuffer_sized (length ciphertext - crypto_box_MACBYTES) in
    let '(rc, written) :=
      crypto_box_open_easy ciphertext nonce sender_public_key receiver_private_key in
    if negb (rc =? 0) then Throws "Asymmetric decryption failed"
    else Returns (fill plaintext written).

(** A box to run the wrappers on: the secret box of [repeat_sodium] under
    the two keys mixed, a key pair being a 32-byte key with itself. *)
#[global] Instance repeat_box : SodiumBox := {
  crypto_box_easy := fun m n pk sk =>
    secretbox_easy repeat_stream fold_auth m n (xor_bytes pk sk);
  crypto_box_open_easy := fun c n pk sk =>
    secretbox_open_easy repeat_stream fold_auth c n (xor_bytes sk pk);
  crypto_box_keypair := fun pk sk => pk = sk /\ length sk = KEY_SIZE
}.

End Asymmetric.

(** ** Sending, broadcasting and the merged history (chat_manager.cpp) *)

Module Conversation.
Import Bytes Wire Chat.

(** [ChatManager::SendMessage] for local user [local_user_id], named
    [local_user_name]: [timestamp] is the time the [ChatMessage] was
    constructed at and [result] what the network manager's [SendMessage]
    returned. The value returned and the history after. *)
Definition SendMessage (local_user_id : PeerId) (local_user_name : string)
    (peer_id : PeerId) (message : string) (timestamp : Z) (result : bool)
    (h : History) : bool * History :=
  if result then
    (true, push_back peer_id
             {| sender_id := local_user_id; sender_name := local_user_name;
                content := message; timestamp := timestamp |} h)
  else (false, h).

(** [ChatManager::BroadcastMessage]: [peers] are the ids of what
    [GetConnectedPeers] returns after the network manager's
    [BroadcastMessage]. *)
Definition BroadcastMessage (local_user_id : PeerId) (local_user_name : string)
    (message : string) (timestamp : Z) (peers : list PeerId) (h : History) : History :=
  fold_left
    (fun h peer =>
       push_back peer
         {| sender_id := local_user_id; sender_name := local_user_name;
            content := message; timestamp := timestamp |} h)
    peers h.

(** The comparator handed to [std::sort], as "not after": [b] does not
    compare less than [a]. *)
Definition not_after (a b : ChatInfo) : Prop := timestamp a <= timestamp b.

(** What the standard asks of [std::sort]: the same elements, none
    compared less than one before it. Elements that compare equal may come
    out in any order. *)
Definition sorts_by_timestamp (sort : list ChatInfo -> list ChatInfo) : Prop :=
  forall l, sort l ≡ₚ l /\ StronglySorted not_after (sort l).

(** Everything stored, one peer's history after another's. [std::map] goes
    through the peers in key order; the order is lost in the sort. *)
Definition stored_entries (h : History) : list ChatInfo :=
  mjoin (snd <$> map_to_list h).

Section AllHistory.
Variable sort : list ChatInfo -> list ChatInfo.

(** [ChatManager::GetAllChatHistory]. *)
Definition GetAllChatHistory (h : History) (max_messages : nat) : list ChatInfo :=
  let all_history := sort (stored_entries h) in
  if (max_messages <? length all_history)%nat
  then drop (length all_history - max_messages) all_history
  else all_history.

End AllHistory.

(** What happens to a chat manager: a call of [SendMessage] or of
    [BroadcastMessage], or an inbound message. *)
Inductive Action :=
| Sent (peer_id : PeerId) (message : string) (timestamp : Z) (result : bool)
| Broadcast (message : string) (timestamp : Z) (peers : list PeerId)
| Received (message : Message).

Definition act (local_user_id : PeerId) (local_user_name : string) (a : Action)
    (h : History) : History :=
  match a with
  | Sent peer_id message timestamp result =>
    (SendMessage local_user_id local_user_name peer_id message timestamp result h).2
  | Broadcast message timestamp peers =>
    BroadcastMessage local_user_id local_user_name message timestamp peers h
  | Received message => HandleMessage message h
  end.

(** The entries an action belongs into the conversation with [peer] as. *)
Definition entries_with (local_user_id : PeerId) (local_user_name : string)
    (peer : PeerId) (a : Action) : list ChatInfo :=
  let own message timestamp :=
    {| sender_id := local_user_id; sender_name := local_user_name;
       content := message; timestamp := timestamp |} in
  match a with
  | Sent peer_id message timestamp true =>
    if bool_decide (peer_id = peer) then [own message timestamp] else []
  | Sent _ _ _ false => []
  | Broadcast message timestamp peers =>
    (fun _ => own message timestamp)
      <$> List.filter (fun p => bool_decide (p = peer)) peers
  | Received (Chat chat_msg) =>
    if bool_decide (_sender (chat_header chat_msg) = peer)
    then [{| sender_id := _sender (chat_header chat_msg); sender_name := "Unknown";
             content := _content chat_msg;
             timestamp := _timestamp (chat_header chat_msg) |}]
    else []
  | Received _ => []
  end.

#[global] Instance not_after_dec a b : Decision (not_after a b).
Proof. unfold not_after. apply _. Defined.

End Conversation.

(** ** The clean-up of the broadcast loop (peer_discovery.cpp) *)

Module Expiry.
Import Bytes Discovery.
Local Open Scope string_scope.
Local Open Scope Z_scope.

(** Line 190: [now - it->second > std::chrono::seconds(PEER_TIMEOUT_SEC)],
    the two sides brought to the clock's own unit, [ticks_per_second] ticks
    to the second. *)
Definition timed_out (ticks_per_second now last_seen : Z) : bool :=
  PEER_TIMEOUT_SEC * ticks_per_second <? now - last_seen.

(** Lines 183-196 of [BroadcastThreadFunc]: the entries that have timed out
    at [now] are erased. *)
Definition clean_up (ticks_per_second now : Z) (st : State) : State :=
  {| _port := _port st;
     _discovered_peers :=
       filter (fun entry => timed_out ticks_per_second now entry.2 = false)
              (_discovered_peers st);
     _discovered_callback := _discovered_callback st |}.

End Expiry.

(** ** What the file-transfer engine has sent, called and still holds
       (file_transfer.cpp) *)

Module Transfers.
Import Bytes Wire FileTransfer.
Local Open Scope string_scope.
Local Open Scope Z_scope.

(** No slash inside. *)
Fixpoint no_slash (s : string) : Prop :=
  match s with
  | EmptyString => True
  | String c s' => Ascii.eqb c "/" = false /\ no_slash s'
  end.

(** The completion messages among the events, with their receiver. *)
Definition verdict_of (e : Event) : option (PeerId * FileTransferCompleteMessage) :=
  match e with
  | sent_to peer (FileTransferComplete m) => Some (peer, m)
  | _ => None
  end.

(** The calls of the completed callback among the events. *)
Definition completion_of (e : Event) : option (PeerId * string * bool * string) :=
  match e with
  | completed_callback peer path success error => Some (peer, path, success, error)
  | _ => None
  end.

(** The calls of the completed callback made through an erased entry. *)
Definition erased_completion_of (e : Event) : option (PeerId * bool * string) :=
  match e with
  | completed_callback_erased peer success error => Some (peer, success, error)
  | _ => None
  end.

(** The file chunks among the events: receiver, file id, index and data. *)
Definition sent_chunk_of (e : Event) : option (PeerId * string * Z * ByteBuffer) :=
  match e with
  | sent_to peer (FileChunk m) => Some (peer, chunk_file_id m, _chunk_index m, _data m)
  | _ => None
  end.

(** Chunk [k] of a file: the bytes from [k] chunk sizes on, one chunk size
    at most; and the number of chunks a file of [L] bytes falls into. *)
Definition chunk_at (content : ByteBuffer) (k : nat) : ByteBuffer :=
  take (Z.to_nat DEFAULT_CHUNK_SIZE) (drop (k * Z.to_nat DEFAULT_CHUNK_SIZE) content).

Definition number_of_chunks (L : nat) : nat :=
  Z.to_nat ((Z.of_nat L + DEFAULT_CHUNK_SIZE - 1) / DEFAULT_CHUNK_SIZE).

(** The chunk message for chunk [k] of a file, under a header of the
    sender's. *)
Definition chunk_message (header : Header) (file_id : string) (content : ByteBuffer)
    (k : nat) : FileChunkMessage :=
  {| chunk_header := header; chunk_file_id := file_id;
     _chunk_index := Z.of_nat k; _data := chunk_at content k |}.

(** The output file [F] holds the chunks [got] of [content] in their
    places and is no longer than [content]. *)
Definition holds_chunks (content : ByteBuffer) (got : list nat) (F : ByteBuffer) : Prop :=
  (length F <= length content)%nat
  /\ forall j, j ∈ got ->
       let len := length (chunk_at content j) in
       (j * Z.to_nat DEFAULT_CHUNK_SIZE + len <= length F)%nat
       /\ slice (j * Z.to_nat DEFAULT_CHUNK_SIZE) len F = chunk_at content j.

(** The bytes of the chunks [got]. *)
Definition bytes_of (content : ByteBuffer) (got : list nat) : nat :=
  sum_list_with (fun j => length (chunk_at content j)) got.

(** The receiver is collecting [content] from [sender] as file [name] in
    the file at [path], which holds [F]; the chunks [got] have come. *)
Definition collecting (st : State) (sender : PeerId) (name path : string)
    (content : ByteBuffer) (got : list nat) (F : ByteBuffer) : Prop :=
  exists transfer,
    _incoming_transfers st !! (sender, name) = Some transfer
    /\ file_path transfer = path
    /\ file_size transfer = Z.of_nat (length content)
    /\ output_stream transfer = {| out_is_open := true; out_fail := false |}
    /\ bytes_transferred transfer = Z.of_nat (bytes_of content got)
    /\ (forall j : nat, j ∉ got -> received_chunks transfer !! Z.of_nat j = None)
    /\ files st !! path = Some F
    /\ write_goes_through st path = true
    /\ _chunk_size st = DEFAULT_CHUNK_SIZE.

(** [GetOngoingTransfers]: one tuple per transfer, the outgoing ones first.
    The progress is [None] for the literal 0.0 and the two integers whose
    quotient the code takes otherwise. [std::map] goes through each table in
    key order; the tuples of a table come here in the order of
    [map_to_list]. *)
Definition progress (t : TransferInfo) : option (Z * Z) :=
  if 0 <? file_size t then Some (bytes_transferred t, file_size t) else None.

Definition report (t : TransferInfo)
  : PeerId * string * FileTransferStatus * option (Z * Z) :=
  (peer_id t, file_path t, status t, progress t).

Definition GetOngoingTransfers (st : State)
  : list (PeerId * string * FileTransferStatus * option (Z * Z)) :=
  ((report <$> (map_to_list (_outgoing_transfers st)).*2)
   ++ (report <$> (map_to_list (_incoming_transfers st)).*2))%list.

(** An outgoing entry as [SendFile] files it, and an incoming one between
    its request and its last chunk. *)
Definition fresh_outgoing (key : TransferKey) (t : TransferInfo) : Prop :=
  status t = PENDING /\ bytes_transferred t = 0
  /\ input_stream t = closed_ifstream
  /\ key = (peer_id t, file_path t) /\ file_id t = file_path t.

Definition live_incoming (key : TransferKey) (t : TransferInfo) : Prop :=
  status t = IN_PROGRESS /\ key = (peer_id t, file_id t)
  /\ output_stream t = {| out_is_open := true; out_fail := false |}
  /\ (bytes_transferred t = 0 \/ 0 <= bytes_transferred t < file_size t).

Definition well_kept (st : State) : Prop :=
  map_Forall fresh_outgoing (_outgoing_transfers st)
  /\ map_Forall live_incoming (_incoming_transfers st).

End Transfers.

(** ** Engine states the statements on transfers are run on *)

Module Scenarios.
Import Bytes Wire.
Local Open Scope string_scope.
Local Open Scope Z_scope.

(** A receiver whose request callback says no to everything. *)
Definition refusing_engine : FileTransfer.State :=
  FileTransfer.SetRequestCallback (Some (fun _ _ _ => false)) (Samples.sample_engine 0).

(** The sender after [SendFile] of its 8-byte file to [alice]. *)
Definition sent_report : FileTransfer.State :=
  (FileTransfer.SendFile Samples.alice "/srv/report.bin" (Samples.sample_engine 8)).2.

(** An engine whose connection to [alice] breaks after six more bytes. *)
Definition broken_link : FileTransfer.State :=
  FileTransfer.set_sessions
    (fun _ => {[ Samples.alice := {| FileTransfer._is_connected := true;
                                     FileTransfer.socket_room := Some 6%nat |} ]})
    (Samples.sample_engine 8).

(** The same sender once the file has been deleted. *)
Definition report_deleted : FileTransfer.State :=
  FileTransfer.set_files (fun _ => ∅) sent_report.

(** A receiver with no request callback, in a working directory where no
    [downloads] directory can be made. *)
Definition no_downloads : FileTransfer.State :=
  {| FileTransfer._outgoing_transfers := ∅;
     FileTransfer._incoming_transfers := ∅;
     FileTransfer._chunk_size := FileTransfer.DEFAULT_CHUNK_SIZE;
     FileTransfer._progress_callback := true;
     FileTransfer._completed_callback := true;
     FileTransfer._request_callback := None;
     FileTransfer._peer_sessions :=
       {[ Samples.alice := {| FileTransfer._is_connected := true;
                              FileTransfer.socket_room := None |} ]};
     FileTransfer.files := {[ "/home/bob/downloads" := [] ]};
     FileTransfer.is_directory := fun _ => false;
     FileTransfer.creates_directories := fun _ => false;
     FileTransfer.ofstream_opens := fun _ => false;
     FileTransfer.write_goes_through := fun _ => true;
     FileTransfer.current_path := "/home/bob";
     FileTransfer.indeterminate := 77;
     FileTransfer.drawn := fun n => (replicate 16 x00, Z.of_nat n);
     FileTransfer.constructed := 0;
     FileTransfer.trace := [] |}.

Definition pending_report : FileTransfer.TransferInfo :=
  {| FileTransfer.file_path := "/srv/report.bin";
     FileTransfer.file_id := "/srv/report.bin";
     FileTransfer.file_size := 8;
     FileTransfer.peer_id := Samples.alice;
     FileTransfer.status := FileTransfer.PENDING;
     FileTransfer.bytes_transferred := 0;
     FileTransfer.input_stream := FileTransfer.closed_ifstream;
     FileTransfer.output_stream := FileTransfer.closed_ofstream;
     FileTransfer.next_chunk_index := 77;
     FileTransfer.received_chunks := ∅ |}.

(** A file of two chunks, and the request for it. *)
Definition two_chunk_file : ByteBuffer := replicate (Z.to_nat 20000) "r"%byte.

Definition two_chunk_request : FileTransferRequestMessage :=
  Samples.sample_request (Z.of_nat (length two_chunk_file)).

End Scenarios.

(** ** The command line (main.cpp) *)

Module Main.
Import Discovery.
Local Open Scope string_scope.
Local Open Scope Z_scope.

(** The two locals the argument loop sets. *)
Record Options := mkOptions {
  port : Z;
  auto_connect : bool
}.

Definition defaults : Options := {| port := 8080; auto_connect := true |}.

(** [arg.find(prefix) == 0]. *)
Fixpoint starts_with (prefix s : string) : bool :=
  match prefix, s with
  | EmptyString, _ => true
  | String a prefix', String b s' => Ascii.eqb a b && starts_with prefix' s'
  | String _ _, EmptyString => false
  end.

(** [main] either goes on to start the node or returns from the loop. *)
Inductive parsed :=
| starts (options : Options)
| returns (code : Z).

(** The loop over [argv[1..]]. *)
Fixpoint parse_arguments (args : list string) (options : Options) : parsed :=
  match args with
  | [] => starts options
  | arg :: rest =>
    if starts_with "--port=" arg then
      match stoi (substr_from 7 arg) with
      | stoi_value v =>
        parse_arguments rest
          {| port := to_uint16 v; auto_connect := auto_connect options |}
      | _ => returns 1
      end
    else if starts_with "--auto-connect=" arg then
      let auto_connect_str := substr_from 14 arg in
      if String.eqb auto_connect_str "false" || String.eqb auto_connect_str "0"
      then parse_arguments rest {| port := port options; auto_connect := false |}
      else parse_arguments rest options
    else if String.eqb arg "--no-auto-connect" then
      parse_arguments rest {| port := port options; auto_connect := false |}
    else if String.eqb arg "--help" || String.eqb arg "-h" then returns 0
    else parse_arguments rest options
  end.

End Main.

(** * Properties *)

(** ** Bytes *)

Module BytesFacts.
Import Bytes.

Lemma byte_to_Z_range b : 0 <= byte_to_Z b < 256.
Proof.
  unfold byte_to_Z. pose proof (Byte.to_N_bounded b). lia.
Qed.

Lemma byte_to_of_Z z : byte_to_Z (byte_of_Z z) = z mod 256.
Proof.
  unfold byte_of_Z, byte_to_Z.
  assert (Hr : 0 <= z mod 256 < 256) by (apply Z.mod_pos_bound; lia).
  destruct (Byte.of_N (Z.to_N (z mod 256))) as [b|] eqn:E.
  - apply Byte.to_of_N in E. rewrite E. lia.
  - apply Byte.of_N_None_iff in E. lia.
Qed.

Lemma be_decode_app l1 l2 :
  be_decode (l1 ++ l2) = fold_left (fun acc b => acc * 256 + byte_to_Z b) l2 (be_decode l1).
Proof. unfold be_decode. apply fold_left_app. Qed.

Lemma be_decode_snoc l b : be_decode (l ++ [b]) = be_decode l * 256 + byte_to_Z b.
Proof. rewrite be_decode_app. reflexivity. Qed.

Lemma length_be_encode k n : length (be_encode k n) = k.
Proof.
  revert n. induction k as [|k IH]; intros n; simpl; [done|].
  rewrite length_app, IH. simpl. lia.
Qed.

Lemma be_decode_encode k n : be_decode (be_encode k n) = n mod 256 ^ Z.of_nat k.
Proof.
  revert n. induction k as [|k IH]; intros n.
  - simpl. rewrite Z.mod_1_r. reflexivity.
  - cbn [be_encode]. rewrite be_decode_snoc, IH, byte_to_of_Z.
    rewrite Nat2Z.inj_succ, Z.pow_succ_r by lia.
    rewrite Z.rem_mul_r by lia.
    lia.
Qed.

Lemma be_decode_encode32 n : be_decode (be_encode 4 n) = to_uint32 n.
Proof. rewrite be_decode_encode. reflexivity. Qed.

Lemma be_decode_encode64 n : be_decode (be_encode 8 n) = to_uint64 n.
Proof. rewrite be_decode_encode. reflexivity. Qed.

Lemma to_int64_to_uint64 z :
  - 2 ^ 63 <= z < 2 ^ 63 -> to_int64 (to_uint64 z) = z.
Proof.
  intros Hz. unfold to_int64, to_uint64.
  destruct (Z.ltb_spec (z mod 2 ^ 64) (2 ^ 63)) as [H|H].
  - destruct (Z.lt_ge_cases z 0) as [Hn|Hp].
    + rewrite <- (Z.mod_add z 1) in H by lia.
      rewrite Z.mod_small in H by lia. lia.
    + apply Z.mod_small. lia.
  - destruct (Z.lt_ge_cases z 0) as [Hn|Hp].
    + rewrite <- (Z.mod_add z 1) by lia.
      rewrite Z.mod_small by lia. lia.
    + rewrite Z.mod_small in H by lia. lia.
Qed.

Lemma slice_0_app (l1 l2 : ByteBuffer) : slice 0 (length l1) (l1 ++ l2) = l1.
Proof. unfold slice. simpl. apply take_app_length. Qed.

Lemma slice_app_skip (l1 l2 : ByteBuffer) off len :
  slice (length l1 + off) len (l1 ++ l2) = slice off len l2.
Proof. unfold slice. by rewrite drop_app_add. Qed.

Lemma slice_at (pre x post : ByteBuffer) off len :
  off = length pre -> len = length x -> slice off len (pre ++ x ++ post) = x.
Proof.
  intros -> ->. unfold slice.
  rewrite drop_app_length. apply take_app_length.
Qed.

Lemma slice_spec (data pre x post : ByteBuffer) off len :
  data = pre ++ x ++ post -> off = length pre -> len = length x ->
  slice off len data = x.
Proof. intros -> Ho Hl. by apply slice_at. Qed.

Lemma slice_head (x post : ByteBuffer) len :
  len = length x -> slice 0 len (x ++ post) = x.
Proof. intros ->. apply slice_0_app. Qed.

Lemma slice_at_end (pre x : ByteBuffer) off len :
  off = length pre -> len = length x -> slice off len (pre ++ x) = x.
Proof.
  intros Ho Hl. rewrite <- (app_nil_r x) at 1. by apply slice_at.
Qed.

Lemma slice_skip (pre l : ByteBuffer) off len :
  (length pre <= off)%nat -> slice off len (pre ++ l) = slice (off - length pre) len l.
Proof. intros H. unfold slice. by rewrite drop_app_ge. Qed.

Lemma byte_of_Z_inj_small a b :
  0 <= a < 256 -> 0 <= b < 256 -> byte_of_Z a = byte_of_Z b -> a = b.
Proof.
  intros Ha Hb E. apply (f_equal byte_to_Z) in E.
  rewrite !byte_to_of_Z, !Z.mod_small in E by lia. exact E.
Qed.

End BytesFacts.

(** ** Wire messages *)

Module WireFacts.
Import Bytes BytesFacts Wire.

Lemma length_serialize_header t h :
  valid_Header h -> length (serialize_header t h) = 57%nat.
Proof.
  intros (Hs & Hi & _). unfold serialize_header.
  rewrite !length_app, Hs, Hi, length_be_encode. reflexivity.
Qed.

Lemma deserialize_serialize_header t h body :
  valid_Header h -> deserialize_header (serialize_header t h ++ body) = h.
Proof.
  intros (Hs & Hi & Ht). destruct h as [s i ts].
  cbn [_sender _id _timestamp] in *.
  unfold deserialize_header, serialize_header. cbn [_sender _id _timestamp].
  set (tb := [byte_of_Z (MessageType_code t)]).
  set (e := be_encode 8 (to_uint64 ts)).
  assert (He : length e = 8%nat) by apply length_be_encode.
  f_equal.
  - rewrite <- !app_assoc. by apply (slice_at tb s).
  - replace (((tb ++ s ++ i ++ e) ++ body)) with ((tb ++ s) ++ i ++ (e ++ body))
      by (by rewrite <- !app_assoc).
    apply slice_at; [|done]. rewrite length_app, Hs. reflexivity.
  - replace (((tb ++ s ++ i ++ e) ++ body)) with ((tb ++ s ++ i) ++ e ++ body)
      by (by rewrite <- !app_assoc).
    rewrite slice_at.
    + subst e. rewrite be_decode_encode64. unfold to_uint64.
      rewrite Z.mod_mod by lia. by apply to_int64_to_uint64.
    + rewrite !length_app, Hs, Hi. reflexivity.
    + done.
Qed.

Lemma has_type_serialize_header t t' h body :
  has_type t' (serialize_header t h ++ body)
  = (MessageType_code t =? MessageType_code t').
Proof.
  unfold serialize_header, has_type. cbn [app].
  rewrite byte_to_of_Z. by destruct t, t'.
Qed.

Lemma slice_body t h body off k len :
  valid_Header h -> off = (57 + k)%nat ->
  slice off len (serialize_header t h ++ body) = slice k len body.
Proof.
  intros Hh ->. rewrite <- (length_serialize_header t h Hh). apply slice_app_skip.
Qed.

Lemma decode_length32 n :
  0 <= n < 2 ^ 32 -> be_decode (be_encode 4 (to_uint32 n)) = n.
Proof.
  intros Hn. rewrite be_decode_encode32. unfold to_uint32.
  rewrite Z.mod_mod by lia. apply Z.mod_small. lia.
Qed.

Lemma size_range s : 0 <= size s.
Proof. unfold size. lia. Qed.

Lemma bytes_string_bytes s : bytes_string (string_bytes s) = s.
Proof. apply string_of_list_byte_of_string. Qed.

Lemma length_Serialize_header_app t h body :
  valid_Header h ->
  Z.of_nat (length (serialize_header t h ++ body)) = 57 + Z.of_nat (length body).
Proof.
  intros Hh. rewrite length_app, (length_serialize_header t h Hh). lia.
Qed.

Lemma Z_to_nat_size s : Z.to_nat (size s) = length (string_bytes s).
Proof. unfold size. lia. Qed.

Lemma ChatMessage_roundtrip m :
  valid_ChatMessage m -> ChatMessage_Deserialize (ChatMessage_Serialize m) = Some m.
Proof.
  intros [Hh Hc]. destruct m as [h c]. cbn [chat_header _content] in *.
  pose proof (size_range c) as Hc0.
  unfold ChatMessage_Deserialize, ChatMessage_Serialize.
  cbn [chat_header _content].
  set (len4 := be_encode 4 (to_uint32 (size c))).
  assert (Hl4 : length len4 = 4%nat) by apply length_be_encode.
  rewrite length_Serialize_header_app, length_app, Hl4 by done.
  rewrite has_type_serialize_header. cbn [negb MessageType_code Z.eqb].
  rewrite (slice_body _ _ _ 57 0), (slice_body _ _ _ 61 4) by done.
  rewrite (slice_head len4) by done.
  subst len4. rewrite decode_length32, Z_to_nat_size by lia.
  rewrite (slice_at_end _ (string_bytes c)) by done.
  rewrite deserialize_serialize_header, bytes_string_bytes by done.
  unfold size in *.
  destruct (Z.ltb_spec (57 + Z.of_nat (4 + length (string_bytes c))) (1 + 32 + 16 + 8 + 4));
    [lia|].
  destruct (Z.ltb_spec (57 + Z.of_nat (4 + length (string_bytes c)))
              (1 + 32 + 16 + 8 + 4 + Z.of_nat (length (string_bytes c)))); [lia|].
  reflexivity.
Qed.

Lemma FileTransferRequestMessage_roundtrip m :
  valid_FileTransferRequestMessage m ->
  FileTransferRequestMessage_Deserialize (FileTransferRequestMessage_Serialize m) = Some m.
Proof.
  intros (Hh & Hs & Hn). destruct m as [h name fsz].
  cbn [request_header _filename _file_size] in *.
  pose proof (size_range name) as Hn0.
  unfold FileTransferRequestMessage_Deserialize, FileTransferRequestMessage_Serialize.
  cbn [request_header _filename _file_size].
  set (fs8 := be_encode 8 (to_uint64 fsz)).
  set (len4 := be_encode 4 (to_uint32 (size name))).
  assert (Hl8 : length fs8 = 8%nat) by apply length_be_encode.
  assert (Hl4 : length len4 = 4%nat) by apply length_be_encode.
  rewrite length_Serialize_header_app, !length_app, Hl8, Hl4 by done.
  rewrite has_type_serialize_header. cbn [negb MessageType_code Z.eqb].
  rewrite (slice_body _ _ _ 57 0), (slice_body _ _ _ 65 8), (slice_body _ _ _ 69 12)
    by done.
  rewrite (slice_head fs8) by done.
  rewrite (slice_at fs8 len4 (string_bytes name) 8 4) by done.
  subst len4. rewrite decode_length32, Z_to_nat_size by lia.
  rewrite (slice_spec _ (fs8 ++ be_encode 4 (to_uint32 (size name)))
             (string_bytes name) [])
    by (rewrite ?app_nil_r, <- ?app_assoc, ?length_app, ?Hl8, ?length_be_encode; done).
  rewrite deserialize_serialize_header, bytes_string_bytes by done.
  subst fs8. rewrite be_decode_encode64. unfold to_uint64.
  rewrite Z.mod_mod, (Z.mod_small fsz) by lia.
  unfold size in *.
  repeat match goal with
         | |- context [?a <? ?b] => destruct (Z.ltb_spec a b); [lia|]
         end.
  reflexivity.
Qed.

Lemma FileChunkMessage_roundtrip m :
  valid_FileChunkMessage m ->
  FileChunkMessage_Deserialize (FileChunkMessage_Serialize m) = Some m.
Proof.
  intros (Hh & Hf & Hi & Hd). destruct m as [h fid idx dat].
  cbn [chunk_header chunk_file_id _chunk_index _data] in *.
  pose proof (size_range fid) as Hf0.
  unfold FileChunkMessage_Deserialize, FileChunkMessage_Serialize.
  cbn [chunk_header chunk_file_id _chunk_index _data].
  set (fl4 := be_encode 4 (to_uint32 (size fid))).
  set (fb := string_bytes fid).
  set (ix4 := be_encode 4 idx).
  set (dl4 := be_encode 4 (to_uint32 (Z.of_nat (length dat)))).
  assert (Hfl : length fl4 = 4%nat) by apply length_be_encode.
  assert (Hix : length ix4 = 4%nat) by apply length_be_encode.
  assert (Hdl : length dl4 = 4%nat) by apply length_be_encode.
  assert (Hfb : Z.to_nat (size fid) = length fb) by apply Z_to_nat_size.
  rewrite length_Serialize_header_app, !length_app, Hfl, Hix, Hdl by done.
  rewrite has_type_serialize_header. cbn [negb MessageType_code Z.eqb].
  rewrite (slice_body _ _ _ 57 0) by done.
  rewrite (slice_head fl4) by done.
  subst fl4. rewrite decode_length32, Hfb by lia.
  set (fl4 := be_encode 4 (to_uint32 (size fid))) in *.
  rewrite (slice_body _ _ _ 61 4),
          (slice_body _ _ _ (61 + length fb) (4 + length fb)),
          (slice_body _ _ _ (65 + length fb) (8 + length fb)),
          (slice_body _ _ _ (69 + length fb) (12 + length fb)) by (done || lia).
  rewrite (slice_at fl4 fb _ 4 (length fb)) by done.
  rewrite (slice_spec _ (fl4 ++ fb) ix4 (dl4 ++ dat) (4 + length fb) 4)
    by (rewrite <- ?app_assoc, ?length_app, ?Hfl; done).
  rewrite (slice_spec _ (fl4 ++ fb ++ ix4) dl4 dat (8 + length fb) 4)
    by (rewrite <- ?app_assoc, ?length_app, ?Hfl, ?Hix; done || lia).
  subst dl4. rewrite decode_length32, Nat2Z.id by lia.
  rewrite (slice_spec _ (fl4 ++ fb ++ ix4 ++ be_encode 4 (to_uint32 (Z.of_nat (length dat))))
             dat [] (12 + length fb) (length dat))
    by (rewrite ?app_nil_r, <- ?app_assoc, ?length_app, ?Hfl, ?Hix, ?length_be_encode;
        done || lia).
  rewrite deserialize_serialize_header by done.
  subst ix4 fb. rewrite be_decode_encode32, bytes_string_bytes.
  unfold to_uint32. rewrite (Z.mod_small idx) by lia.
  unfold size in *.
  repeat match goal with
         | |- context [?a <? ?b] => destruct (Z.ltb_spec a b); [lia|]
         end.
  reflexivity.
Qed.

Lemma FileTransferCompleteMessage_roundtrip m :
  valid_FileTransferCompleteMessage m ->
  FileTransferCompleteMessage_Deserialize (FileTransferCompleteMessage_Serialize m)
  = Some m.
Proof.
  intros (Hh & Hf & He). destruct m as [h fid ok err].
  cbn [complete_header complete_file_id _success _error_message] in *.
  pose proof (size_range fid) as Hf0. pose proof (size_range err) as He0.
  unfold FileTransferCompleteMessage_Deserialize, FileTransferCompleteMessage_Serialize.
  cbn [complete_header complete_file_id _success _error_message].
  set (fl4 := be_encode 4 (to_uint32 (size fid))).
  set (fb := string_bytes fid).
  set (sb := [byte_of_Z (if ok then 1 else 0)]).
  set (el4 := be_encode 4 (to_uint32 (size err))).
  set (eb := string_bytes err).
  assert (Hfl : length fl4 = 4%nat) by apply length_be_encode.
  assert (Hsb : length sb = 1%nat) by done.
  assert (Hel : length el4 = 4%nat) by apply length_be_encode.
  assert (Hfb : Z.to_nat (size fid) = length fb) by apply Z_to_nat_size.
  assert (Heb : Z.to_nat (size err) = length eb) by apply Z_to_nat_size.
  rewrite length_Serialize_header_app, !length_app, Hfl, Hsb, Hel by done.
  rewrite has_type_serialize_header. cbn [negb MessageType_code Z.eqb].
  rewrite (slice_body _ _ _ 57 0) by done.
  rewrite (slice_head fl4) by done.
  subst fl4. rewrite decode_length32, Hfb by lia.
  set (fl4 := be_encode 4 (to_uint32 (size fid))) in *.
  rewrite (slice_body _ _ _ 61 4),
          (slice_body _ _ _ (61 + length fb) (4 + length fb)),
          (slice_body _ _ _ (62 + length fb) (5 + length fb)),
          (slice_body _ _ _ (66 + length fb) (9 + length fb)) by (done || lia).
  rewrite (slice_at fl4 fb _ 4 (length fb)) by done.
  rewrite (slice_spec _ (fl4 ++ fb) sb (el4 ++ eb) (4 + length fb) 1)
    by (rewrite <- ?app_assoc, ?length_app, ?Hfl; done).
  rewrite (slice_spec _ (fl4 ++ fb ++ sb) el4 eb (5 + length fb) 4)
    by (rewrite <- ?app_assoc, ?length_app, ?Hfl, ?Hsb; done || lia).
  subst el4. rewrite decode_length32, Heb by lia.
  rewrite (slice_spec _ (fl4 ++ fb ++ sb ++ be_encode 4 (to_uint32 (size err)))
             eb [] (9 + length fb) (length eb))
    by (rewrite ?app_nil_r, <- ?app_assoc, ?length_app, ?Hfl, ?Hsb, ?length_be_encode;
        done || lia).
  rewrite deserialize_serialize_header by done.
  subst fb eb sb. rewrite !bytes_string_bytes.
  assert (Hok : negb (be_decode [byte_of_Z (if ok then 1 else 0)] =? 0) = ok).
  { unfold be_decode. cbn [fold_left]. rewrite byte_to_of_Z. by destruct ok. }
  rewrite Hok.
  unfold size in *.
  repeat match goal with
         | |- context [?a <? ?b] => destruct (Z.ltb_spec a b); [lia|]
         end.
  reflexivity.
Qed.

(** Each class's own [Deserialize] undoes its [Serialize]. *)
Lemma Deserialize_Serialize m :
  valid_Message m -> Deserialize (GetType m) (Serialize m) = Some m.
Proof.
  destruct m as [c|r|c|c]; cbn [valid_Message GetType Deserialize Serialize]; intros Hv.
  - by rewrite ChatMessage_roundtrip.
  - by rewrite FileTransferRequestMessage_roundtrip.
  - by rewrite FileChunkMessage_roundtrip.
  - by rewrite FileTransferCompleteMessage_roundtrip.
Qed.

Lemma Serialize_head m :
  exists rest, Serialize m = byte_of_Z (MessageType_code (GetType m)) :: rest.
Proof. destruct m; cbn; eauto. Qed.

Lemma length_Serialize_ge m : valid_Message m -> (57 <= length (Serialize m))%nat.
Proof.
  destruct m as [[h ?]|[h ? ?]|[h ? ? ?]|[h ? ? ?]];
    cbn [Serialize valid_Message]; intros Hv;
    (assert (Hh : valid_Header h) by apply Hv);
    unfold ChatMessage_Serialize, FileTransferRequestMessage_Serialize,
      FileChunkMessage_Serialize, FileTransferCompleteMessage_Serialize;
    cbn [chat_header request_header chunk_header complete_header];
    rewrite length_app, (length_serialize_header _ h Hh); lia.
Qed.

(** The factory is the class's [Deserialize] for the two kinds it has a case
    for, and null for every other first byte. *)
Lemma CreateFromBuffer_tag data b :
  head data = Some b ->
  CreateFromBuffer data =
    if (length data <? 33)%nat then None
    else if byte_to_Z b =? 0 then Deserialize CHAT_MESSAGE data
    else if byte_to_Z b =? 1 then Deserialize FILE_TRANSFER_REQUEST data
    else None.
Proof.
  destruct data as [|b' data]; [done|]. intros [= ->].
  unfold CreateFromBuffer. destruct (length (b :: data) <? 33)%nat; [done|].
  cbn [Deserialize]. destruct (byte_to_Z b) as [|[p|p|]|]; reflexivity.
Qed.

Lemma CreateFromBuffer_Serialize m :
  valid_Message m ->
  CreateFromBuffer (Serialize m)
  = if factory_kind (GetType m) then Some m else None.
Proof.
  intros Hv. pose proof (length_Serialize_ge m Hv) as Hlen.
  destruct (Serialize_head m) as [rest Hs].
  rewrite (CreateFromBuffer_tag _ (byte_of_Z (MessageType_code (GetType m))))
    by (by rewrite Hs).
  destruct (Nat.ltb_spec (length (Serialize m)) 33); [lia|].
  rewrite byte_to_of_Z.
  pose proof (Deserialize_Serialize m Hv) as Hd.
  destruct m; cbn [GetType MessageType_code factory_kind] in *; exact Hd || reflexivity.
Qed.

Lemma CreateFromBuffer_type data m :
  CreateFromBuffer data = Some m -> factory_kind (GetType m) = true.
Proof.
  unfold CreateFromBuffer. destruct data as [|b data]; [done|].
  destruct (length (b :: data) <? 33)%nat; [done|].
  destruct (byte_to_Z b) as [|[p|p|]|]; try done.
  - destruct (ChatMessage_Deserialize _); [|done]. by intros [= <-].
  - destruct (FileTransferRequestMessage_Deserialize _); [|done]. by intros [= <-].
Qed.

Lemma ReadMessage_loop_kinds fuel input :
  Forall (fun m => factory_kind (GetType m) = true) (ReadMessage_loop fuel input).
Proof.
  revert input. induction fuel as [|fuel IH]; intros input; cbn [ReadMessage_loop].
  - constructor.
  - destruct (length input <? 4)%nat; [constructor|].
    destruct (length (drop 4 input) <? _)%nat; [constructor|].
    apply Forall_app. split; [|apply IH].
    destruct (CreateFromBuffer _) as [m|] eqn:E; [|constructor].
    repeat constructor. by apply CreateFromBuffer_type in E.
Qed.

Lemma valid_sample_chat : valid_Message Samples.sample_chat.
Proof. repeat split; vm_compute; congruence. Qed.

Lemma valid_sample_chunk : valid_Message Samples.sample_chunk.
Proof. repeat split; vm_compute; congruence. Qed.

(** C1, as amended. For every message [m] of one of the four classes,
    with every length that goes into a 32-bit field below 2^32: the [Deserialize]
    of its own class applied to [Serialize m] gives [m] back, kind, sender,
    message id, timestamp and body; [MessageFactory::CreateFromBuffer]
    applied to [Serialize m] gives [m] back when [m] is a [ChatMessage] or a
    [FileTransferRequestMessage], and null for the other kinds. *)
Theorem factory_roundtrip m :
  valid_Message m ->
  Deserialize (GetType m) (Serialize m) = Some m
  /\ CreateFromBuffer (Serialize m)
     = if factory_kind (GetType m) then Some m else None.
Proof.
  intros Hv. split.
  - by apply Deserialize_Serialize.
  - by apply CreateFromBuffer_Serialize.
Qed.

Lemma factory_roundtrip_witness :
  valid_Message Samples.sample_chat
  /\ Deserialize CHAT_MESSAGE (Serialize Samples.sample_chat) = Some Samples.sample_chat
  /\ CreateFromBuffer (Serialize Samples.sample_chat) = Some Samples.sample_chat.
Proof.
  split; [exact valid_sample_chat|].
  exact (factory_roundtrip Samples.sample_chat valid_sample_chat).
Defined.

(** C1 as stated fails: a well-formed [FileChunkMessage] is a message of a
    defined kind, and the factory does not give it back from its serialized
    form. *)
Lemma factory_loses_FileChunk :
  valid_Message Samples.sample_chunk
  /\ GetType Samples.sample_chunk = FILE_CHUNK
  /\ CreateFromBuffer (Serialize Samples.sample_chunk) <> Some Samples.sample_chunk.
Proof.
  split; [exact valid_sample_chunk|]. split; [reflexivity|].
  vm_compute. discriminate.
Qed.

Lemma ReadMessage_loop_skip fuel data after :
  Z.of_nat (length data) < 2 ^ 32 ->
  CreateFromBuffer data = None ->
  ReadMessage_loop (S fuel) (be_encode 4 (Z.of_nat (length data)) ++ data ++ after)
  = ReadMessage_loop fuel after.
Proof.
  intros Hlen Hnull. cbn [ReadMessage_loop].
  set (sz := be_encode 4 (Z.of_nat (length data))).
  assert (Hsz : length sz = 4%nat) by apply length_be_encode.
  rewrite length_app, Hsz.
  destruct (Nat.ltb_spec (4 + length (data ++ after)) 4) as [H|_]; [lia|].
  rewrite take_app_length', drop_app_length' by done.
  subst sz. rewrite be_decode_encode, Z.mod_small, Nat2Z.id
    by (change (256 ^ Z.of_nat 4) with (2 ^ 32); lia).
  destruct (Nat.ltb_spec (length (data ++ after)) (length data)) as [H|_].
  { rewrite length_app in H. lia. }
  by rewrite take_app_length, drop_app_length, Hnull.
Qed.

(** C3. A buffer whose first byte is neither 0 nor 1 makes
    [MessageFactory::CreateFromBuffer] return null; a frame holding it,
    read by [PeerSession::ReadMessage], is passed over without a call of
    the message callback; and whatever bytes arrive, every message that
    reaches the callback is a [ChatMessage] or a
    [FileTransferRequestMessage], so no FileChunk, FileTransferComplete,
    Ping, Pong or ConnectionNotification does. *)
Theorem other_kinds_not_delivered data b :
  head data = Some b -> byte_to_Z b <> 0 -> byte_to_Z b <> 1 ->
  Z.of_nat (length data) < 2 ^ 32 ->
  CreateFromBuffer data = None
  /\ (forall fuel after,
        ReadMessage_loop (S fuel)
          (be_encode 4 (Z.of_nat (length data)) ++ data ++ after)
        = ReadMessage_loop fuel after)
  /\ (forall input,
        Forall (fun m => GetType m = CHAT_MESSAGE \/ GetType m = FILE_TRANSFER_REQUEST)
               (ReadMessage input)).
Proof.
  intros Hb H0 H1 Hlen.
  assert (Hnull : CreateFromBuffer data = None).
  { rewrite (CreateFromBuffer_tag data b Hb).
    destruct (length data <? 33)%nat; [done|].
    destruct (Z.eqb_spec (byte_to_Z b) 0); [done|].
    by destruct (Z.eqb_spec (byte_to_Z b) 1). }
  split; [exact Hnull|]. split.
  - intros fuel after. by apply ReadMessage_loop_skip.
  - intros input. unfold ReadMessage.
    eapply Forall_impl; [apply ReadMessage_loop_kinds|].
    intros m Hm. cbn beta in Hm. destruct m; cbn in *; auto; discriminate.
Qed.

Lemma other_kinds_not_delivered_witness :
  CreateFromBuffer (Serialize Samples.sample_chunk) = None
  /\ (forall fuel after,
        ReadMessage_loop (S fuel)
          (be_encode 4 (Z.of_nat (length (Serialize Samples.sample_chunk)))
           ++ Serialize Samples.sample_chunk ++ after)
        = ReadMessage_loop fuel after)
  /\ (forall input,
        Forall (fun m => GetType m = CHAT_MESSAGE \/ GetType m = FILE_TRANSFER_REQUEST)
               (ReadMessage input)).
Proof.
  apply (other_kinds_not_delivered (Serialize Samples.sample_chunk) "003"%byte).
  - reflexivity.
  - vm_compute. discriminate.
  - vm_compute. discriminate.
  - vm_compute. reflexivity.
Defined.

End WireFacts.

(** ** The crypto provider *)

Module CryptoFacts.
Import Bytes BytesFacts Crypto.

Lemma length_ByteBuffer_sized n : length (ByteBuffer_sized n) = n.
Proof. apply length_replicate. Qed.

(** A callee that writes as many bytes as the buffer holds replaces it. *)
Lemma fill_exact buffer written :
  length written = length buffer -> fill buffer written = written.
Proof.
  intros H. unfold fill. rewrite <- H, drop_ge, app_nil_r by lia.
  by apply take_ge.
Qed.

Lemma length_fill buffer written : length (fill buffer written) = length buffer.
Proof.
  unfold fill. rewrite length_take, length_app, length_drop. lia.
Qed.

Section Provider.
Context {sodium : Sodium} (contract : SodiumContract sodium).

Lemma Encrypt_returns p k n :
  length k = KEY_SIZE -> length n = NONCE_SIZE ->
  exists c, Encrypt p k n = Returns c
            /\ crypto_secretbox_easy p n k = (0, c)
            /\ length c = (length p + 16)%nat.
Proof.
  intros Hk Hn. destruct (easy_ok sodium contract p n k Hn Hk) as (c & Hc & Hlen).
  exists c. unfold Encrypt. rewrite Hc. cbn [Z.eqb negb].
  rewrite fill_exact by (by rewrite length_ByteBuffer_sized).
  done.
Qed.

(** C4. With a 32-byte key and a 24-byte nonce, [Encrypt] returns a
    ciphertext 16 bytes longer than the plaintext, and [Decrypt] of that
    ciphertext under the same key and nonce returns the plaintext, libsodium
    keeping its documented contract. *)
Theorem Decrypt_Encrypt p k n :
  length k = KEY_SIZE -> length n = NONCE_SIZE ->
  exists c, Encrypt p k n = Returns c
            /\ length c = (length p + 16)%nat
            /\ Decrypt c k n = Returns p.
Proof.
  intros Hk Hn. destruct (Encrypt_returns p k n Hk Hn) as (c & He & Hc & Hlen).
  exists c. split; [exact He|]. split; [exact Hlen|].
  unfold Decrypt.
  destruct (Nat.ltb_spec (length c) crypto_secretbox_MACBYTES) as [H|_].
  { unfold crypto_secretbox_MACBYTES in H. lia. }
  rewrite (open_easy_ok sodium contract p n k c Hn Hk Hc). cbn [Z.eqb negb].
  rewrite fill_exact; [done|].
  rewrite length_ByteBuffer_sized, Hlen. unfold crypto_secretbox_MACBYTES. lia.
Qed.

(** C9. [Verify] returns a boolean whatever it is given and never leaves by
    an exception; it returns false when the signature is not 64 bytes long,
    and false when libsodium does not accept the signature. *)
Theorem Verify_returns message signature public_key :
  (exists b, Verify message signature public_key = Returns b)
  /\ (length signature <> 64%nat ->
      Verify message signature public_key = Returns false)
  /\ (crypto_sign_verify_detached signature message public_key <> 0 ->
      Verify message signature public_key = Returns false).
Proof.
  unfold Verify, crypto_sign_BYTES.
  destruct (Nat.eqb_spec (length signature) 64) as [Hl|Hl]; cbn [negb].
  - split; [eauto|]. split; [done|].
    intros Hrc. by destruct (Z.eqb_spec (crypto_sign_verify_detached signature message public_key) 0).
  - split; [eauto|]. split; done.
Qed.

End Provider.

(** *** The construction meets the contract *)

Lemma lxor_byte_range a b : 0 <= a < 256 -> 0 <= b < 256 -> 0 <= Z.lxor a b < 256.
Proof.
  intros Ha Hb. split; [apply Z.lxor_nonneg; lia|].
  destruct (Z.eq_dec (Z.lxor a b) 0) as [->|Hne]; [lia|].
  assert (Hpos : 0 < Z.lxor a b) by (pose proof (proj2 (Z.lxor_nonneg a b)); lia).
  apply (Z.log2_lt_pow2 _ 8 Hpos).
  pose proof (Z.log2_lxor a b ltac:(lia) ltac:(lia)) as Hl.
  assert (Hla : Z.log2 a < 8).
  { destruct (Z.eq_dec a 0) as [->|]; [done|]. apply Z.log2_lt_pow2; lia. }
  assert (Hlb : Z.log2 b < 8).
  { destruct (Z.eq_dec b 0) as [->|]; [done|]. apply Z.log2_lt_pow2; lia. }
  lia.
Qed.

Lemma byte_of_to_Z b : byte_of_Z (byte_to_Z b) = b.
Proof.
  unfold byte_of_Z, byte_to_Z. pose proof (Byte.to_N_bounded b).
  rewrite Z.mod_small, N2Z.id by lia. by rewrite Byte.of_to_N.
Qed.

Lemma byte_xor_involutive a b : byte_xor (byte_xor a b) b = a.
Proof.
  unfold byte_xor. rewrite byte_to_of_Z.
  rewrite Z.mod_small by (apply lxor_byte_range; apply byte_to_Z_range).
  rewrite Z.lxor_assoc, Z.lxor_nilpotent, Z.lxor_0_r. apply byte_of_to_Z.
Qed.

Lemma xor_bytes_involutive m pad :
  (length m <= length pad)%nat -> xor_bytes (xor_bytes m pad) pad = m.
Proof.
  revert pad. induction m as [|a m IH]; intros [|b pad] Hlen; cbn in *;
    try done; try lia.
  rewrite byte_xor_involutive, IH by lia. done.
Qed.

Lemma length_xor_bytes m pad :
  (length m <= length pad)%nat -> length (xor_bytes m pad) = length m.
Proof. intros H. unfold xor_bytes. rewrite length_zip_with. lia. Qed.

Lemma secretbox_contract stream onetimeauth verify :
  (forall len n k, length (stream len n k) = len) ->
  (forall c key, length (onetimeauth c key) = 16%nat) ->
  SodiumContract
    {| crypto_secretbox_easy := secretbox_easy stream onetimeauth;
       crypto_secretbox_open_easy := secretbox_open_easy stream onetimeauth;
       crypto_sign_verify_detached := verify |}.
Proof.
  intros Hstream Hauth. split; cbn [crypto_secretbox_easy crypto_secretbox_open_easy].
  - intros m n k _ _. eexists. split; [reflexivity|].
    rewrite length_app, Hauth, length_xor_bytes
      by (rewrite length_drop, Hstream; lia).
    unfold crypto_secretbox_MACBYTES. lia.
  - intros m n k c _ _ Heq. apply (f_equal snd) in Heq.
    unfold secretbox_easy in Heq. cbv zeta in Heq. cbn [snd] in Heq. subst c.
    unfold secretbox_open_easy, crypto_secretbox_MACBYTES.
    set (block := stream (32 + length m)%nat n k).
    set (body := xor_bytes m (drop 32 block)).
    assert (Hbody : length body = length m).
    { apply length_xor_bytes. subst block. rewrite length_drop, Hstream. lia. }
    set (tag := onetimeauth body (take 32 block)).
    assert (Htag : length tag = 16%nat) by apply Hauth.
    destruct (Nat.ltb_spec (length (tag ++ body)) 16) as [H|_].
    { rewrite length_app in H. lia. }
    rewrite take_app_length', drop_app_length' by done.
    rewrite Hbody. fold block. fold tag.
    rewrite bool_decide_eq_true_2 by done.
    f_equal. apply xor_bytes_involutive.
    subst block. rewrite length_drop, Hstream. lia.
Qed.

Lemma repeat_sodium_contract : SodiumContract repeat_sodium.
Proof.
  apply secretbox_contract.
  - intros len n k. unfold repeat_stream. by rewrite length_map, length_seq.
  - intros c key. unfold fold_auth. by rewrite length_map, length_seq.
Qed.

Lemma Decrypt_Encrypt_witness :
  exists c,
    Encrypt Samples.sample_plaintext Samples.sample_key Samples.sample_nonce = Returns c
    /\ length c = (length Samples.sample_plaintext + 16)%nat
    /\ Decrypt c Samples.sample_key Samples.sample_nonce
       = Returns Samples.sample_plaintext.
Proof.
  apply (Decrypt_Encrypt repeat_sodium_contract).
  - reflexivity.
  - reflexivity.
Defined.

Lemma Verify_returns_witness :
  Verify (sodium := repeat_sodium) Samples.sample_plaintext [] Samples.sample_key
  = Returns false
  /\ Verify (sodium := repeat_sodium) Samples.sample_plaintext (replicate 64 x00)
       Samples.sample_key
     = Returns false.
Proof.
  split.
  - apply (Verify_returns (sodium := repeat_sodium) Samples.sample_plaintext []
             Samples.sample_key).
    cbn. lia.
  - apply (Verify_returns (sodium := repeat_sodium) Samples.sample_plaintext
             (replicate 64 x00) Samples.sample_key).
    cbn. lia.
Defined.

(** The spec's literal scenario: a 12-byte plaintext seals to 28 bytes. *)
Example Encrypt_hello_length :
  exists c,
    Encrypt Samples.sample_plaintext Samples.sample_key Samples.sample_nonce = Returns c
    /\ length c = 28%nat.
Proof. eexists. split; [vm_compute; reflexivity|reflexivity]. Qed.

End CryptoFacts.

(** ** Chat history *)

Module ChatFacts.
Import Bytes Wire Chat.

Lemma push_back_stored (peer_id : PeerId) (info : ChatInfo) (h : History) :
  default [] (push_back peer_id info h !! peer_id)
  = default [] (h !! peer_id) ++ [info].
Proof. unfold push_back. by rewrite lookup_insert_eq. Qed.

Lemma GetChatHistory_drop (h : History) (peer_id : PeerId) (max_messages : nat) :
  GetChatHistory h peer_id max_messages
  = let stored := default [] (h !! peer_id) in
    drop (length stored - min max_messages (length stored)) stored.
Proof.
  unfold GetChatHistory. destruct (h !! peer_id) as [history|]; cbn [from_option id].
  - cbv zeta. destruct (Nat.leb_spec (length history) max_messages) as [H|H].
    + replace (length history - _)%nat with 0%nat by lia. done.
    + f_equal. lia.
  - done.
Qed.

(** C10. [GetChatHistory(peer, max)] returns the last [min(max, n)] of the
    [n] entries stored for the peer, in the order they were stored (each new
    entry is stored at the end, so oldest first and the newest last); for a
    peer without stored history it returns the empty list. *)
Theorem GetChatHistory_most_recent (h : History) (peer_id : PeerId) (max_messages : nat) :
  let stored := default [] (h !! peer_id) in
  let result := GetChatHistory h peer_id max_messages in
  (exists older, stored = older ++ result)
  /\ length result = min max_messages (length stored)
  /\ (h !! peer_id = None -> result = [])
  /\ (forall info : ChatInfo,
        default [] (push_back peer_id info h !! peer_id) = stored ++ [info]
        /\ last (GetChatHistory (push_back peer_id info h) peer_id (S max_messages))
           = Some info).
Proof.
  cbv zeta. rewrite GetChatHistory_drop. cbv zeta.
  set (stored := default [] (h !! peer_id)).
  split; [|split; [|split]].
  - exists (take (length stored - min max_messages (length stored)) stored).
    by rewrite take_drop.
  - rewrite length_drop. lia.
  - intros Hnone. subst stored. rewrite Hnone. by destruct (_ - _)%nat.
  - intros info. split; [apply push_back_stored|].
    rewrite GetChatHistory_drop. cbv zeta. rewrite push_back_stored. fold stored.
    rewrite length_app. cbn [length].
    rewrite drop_app_le by lia. apply last_snoc.
Qed.

Lemma GetChatHistory_most_recent_witness :
  GetChatHistory Samples.sample_history Samples.alice 2
  = [Samples.sample_entry 2; Samples.sample_entry 3]
  /\ GetChatHistory Samples.sample_history (replicate 32 x00) 2 = [].
Proof.
  split; [reflexivity|].
  apply (GetChatHistory_most_recent Samples.sample_history (replicate 32 x00) 2).
  reflexivity.
Defined.

End ChatFacts.

(** ** LAN discovery *)

Module DiscoveryFacts.
Import Bytes Discovery.
Local Open Scope string_scope.
Local Open Scope Z_scope.

Lemma digit_cases d : is_digit d ->
  d = 0 \/ d = 1 \/ d = 2 \/ d = 3 \/ d = 4 \/ d = 5 \/ d = 6 \/ d = 7 \/ d = 8 \/ d = 9.
Proof. unfold is_digit. lia. Qed.

Ltac each_digit H :=
  apply digit_cases in H;
  repeat (destruct H as [H|H]; [subst|]); try subst.

Lemma digit_value_char d : is_digit d -> digit_value (digit_char d) = Some d.
Proof. intros H. each_digit H; reflexivity. Qed.

Lemma digit_char_not_nul d : is_digit d -> digit_char d <> zero.
Proof. intros H. each_digit H; discriminate. Qed.

Lemma append_cons c (a b : string) : String c a +:+ b = String c (a +:+ b).
Proof. reflexivity. Qed.

Lemma append_nil_l (b : string) : "" +:+ b = b.
Proof. reflexivity. Qed.

Lemma append_nil_r (a : string) : a +:+ "" = a.
Proof. induction a as [|c a IH]; [done|]. by rewrite append_cons, IH. Qed.

Lemma digits_string_app ds1 ds2 :
  digits_string (ds1 ++ ds2)%list = digits_string ds1 +:+ digits_string ds2.
Proof.
  unfold digits_string.
  induction ds1 as [|d ds1 IH]; cbn [app fold_right]; [done|].
  by rewrite append_cons, IH.
Qed.

Lemma string_app_assoc (a b c : string) : (a +:+ b) +:+ c = a +:+ (b +:+ c).
Proof.
  induction a as [|x a IH]; [done|]. by rewrite !append_cons, IH.
Qed.

Lemma length_digits_string ds : String.length (digits_string ds) = length ds.
Proof.
  unfold digits_string.
  induction ds as [|d ds IH]; cbn [fold_right String.length length]; [done|].
  by rewrite IH.
Qed.

Lemma no_nul_digits_string ds : Forall is_digit ds -> no_nul (digits_string ds).
Proof.
  unfold digits_string.
  induction 1 as [|d ds Hd _ IH]; cbn [fold_right no_nul]; [done|].
  split; [by apply digit_char_not_nul|done].
Qed.

(** [std::to_string] prints the decimal digits of its argument. *)
Lemma to_string_aux_digits fuel n acc :
  0 <= n < 10 ^ Z.of_nat fuel -> (0 < fuel)%nat ->
  exists ds, ds <> [] /\ Forall is_digit ds /\ (length ds <= fuel)%nat
             /\ digits_value ds = n
             /\ to_string_aux fuel n acc = digits_string ds +:+ acc.
Proof.
  revert n acc. induction fuel as [|fuel IH]; intros n acc Hn Hf; [lia|].
  cbn [to_string_aux].
  destruct (Z.ltb_spec n 10) as [Hs|Hl].
  - exists [n]. rewrite Z.mod_small by lia.
    split; [done|]. split; [apply Forall_singleton; unfold is_digit; lia|].
    split; [cbn; lia|]. split; [done|]. reflexivity.
  - rewrite Nat2Z.inj_succ, Z.pow_succ_r in Hn by lia.
    destruct fuel as [|fuel']; [cbn in Hn; lia|].
    destruct (IH (n / 10) (String (digit_char (n mod 10)) acc))
      as (ds & Hne & Hds & Hlen & Hv & Hs); [|lia|].
    { split; [apply Z.div_pos; lia|]. apply Z.div_lt_upper_bound; lia. }
    exists (ds ++ [n mod 10])%list.
    split; [by destruct ds|].
    split.
    { apply Forall_app. split; [done|]. apply Forall_singleton.
      unfold is_digit. apply Z.mod_pos_bound. lia. }
    split; [rewrite length_app; cbn; lia|].
    split.
    { unfold digits_value in *. rewrite fold_left_app. cbn [fold_left].
      rewrite Hv. pose proof (Z.div_mod n 10). lia. }
    rewrite Hs, digits_string_app, string_app_assoc. reflexivity.
Qed.

Lemma read_digits_digits ds acc :
  Forall is_digit ds ->
  read_digits (digits_string ds) acc
  = match ds with
    | [] => acc
    | _ => Some (fold_left (fun a d => a * 10 + d) ds (default 0 acc))
    end.
Proof.
  intros Hds. revert acc.
  induction Hds as [|d ds Hd Hds IH]; intros acc; cbn [digits_string fold_right read_digits];
    [done|].
  rewrite (digit_value_char d Hd). fold (digits_string ds). rewrite IH.
  by destruct ds.
Qed.

Lemma stoi_digits ds :
  ds <> [] -> Forall is_digit ds -> digits_value ds <= INT_MAX ->
  0 <= digits_value ds ->
  stoi (digits_string ds) = stoi_value (digits_value ds).
Proof.
  intros Hne Hds Hmax Hmin. destruct ds as [|d ds]; [done|].
  assert (Hd : is_digit d) by (by inversion Hds).
  assert (Hskip : skip_spaces (digits_string (d :: ds)) = digits_string (d :: ds)).
  { clear -Hd. each_digit Hd; reflexivity. }
  unfold stoi. rewrite Hskip.
  assert (Hm : match digits_string (d :: ds) with
               | String "-" r => (true, r)
               | String "+" r => (false, r)
               | _ => (false, digits_string (d :: ds))
               end = (false, digits_string (d :: ds))).
  { clear -Hd. each_digit Hd; reflexivity. }
  rewrite Hm. rewrite read_digits_digits by done.
  change (fold_left (fun a d0 => a * 10 + d0) (d :: ds) (default 0 None))
    with (digits_value (d :: ds)).
  destruct (Z.leb_spec INT_MIN (digits_value (d :: ds))) as [_|H];
    [|unfold INT_MIN in H; lia].
  by destruct (Z.leb_spec (digits_value (d :: ds)) INT_MAX) as [_|H]; [|lia].
Qed.

Lemma c_str_no_nul s :
  no_nul s -> c_str (list_byte_of_string s) = list_byte_of_string s.
Proof.
  induction s as [|c s IH]; [done|]. intros [Hc Hs].
  change (list_byte_of_string (String c s))
    with (byte_of_ascii c :: list_byte_of_string s).
  cbn [c_str]. rewrite bool_decide_eq_false_2.
  - by rewrite IH.
  - intros E. apply Hc. apply (f_equal ascii_of_byte) in E.
    by rewrite ascii_of_byte_of_ascii in E.
Qed.

Lemma length_list_byte_of_string s :
  length (list_byte_of_string s) = String.length s.
Proof.
  induction s as [|c s IH]; [done|].
  change (list_byte_of_string (String c s))
    with (byte_of_ascii c :: list_byte_of_string s).
  cbn. by rewrite IH.
Qed.

Lemma received_message_text s :
  no_nul s -> (String.length s <= 255)%nat ->
  received_message (list_byte_of_string s) = s.
Proof.
  intros Hn Hl. unfold received_message.
  rewrite take_ge by (rewrite length_list_byte_of_string; lia).
  rewrite c_str_no_nul by done. apply string_of_list_byte_of_string.
Qed.

Lemma parse_announce_digits ds :
  ds <> [] -> Forall is_digit ds -> digits_value ds <= INT_MAX ->
  0 <= digits_value ds ->
  parse_announce (DISCOVERY_PREFIX +:+ ":" +:+ digits_string ds)
  = Some (digits_string ds, to_uint16 (digits_value ds)).
Proof.
  intros Hne Hds Hmax Hmin. unfold parse_announce.
  set (message := DISCOVERY_PREFIX +:+ ":" +:+ digits_string ds).
  assert (H1 : substring 0 (String.length DISCOVERY_PREFIX) message = DISCOVERY_PREFIX)
    by reflexivity.
  assert (H2 : find_colon message = Some 17%nat) by reflexivity.
  assert (H3 : String.length message = (18 + length ds)%nat).
  { subst message. unfold DISCOVERY_PREFIX. rewrite !append_cons, !append_nil_l.
    cbn [String.length]. by rewrite length_digits_string. }
  assert (H4 : substr_from (17 + 1) message = digits_string ds) by reflexivity.
  rewrite H1, H2, H3, H4, String.eqb_refl. cbn [negb].
  destruct (Nat.ltb_spec 17 (18 + length ds - 1)) as [_|H].
  - cbn [negb]. by rewrite stoi_digits.
  - destruct ds; [done|cbn [length] in H; lia].
Qed.

Lemma parse_announce_datagram port :
  0 <= port < 65536 ->
  parse_announce (received_message (announce_datagram port))
  = Some (to_string port, port).
Proof.
  intros Hp. unfold announce_datagram, announce, to_string.
  destruct (to_string_aux_digits 20 port "") as (ds & Hne & Hds & Hlen & Hv & Hs);
    [lia|lia|].
  rewrite Hs.
  rewrite append_nil_r.
  rewrite received_message_text.
  - rewrite parse_announce_digits by (done || unfold INT_MAX; lia).
    rewrite Hv. unfold to_uint16. by rewrite Z.mod_small by lia.
  - unfold DISCOVERY_PREFIX. rewrite !append_cons, !append_nil_l. cbn [no_nul].
    repeat (split; [discriminate|]). by apply no_nul_digits_string.
  - unfold DISCOVERY_PREFIX. rewrite !append_cons, !append_nil_l.
    cbn [String.length]. rewrite length_digits_string. lia.
Qed.

Lemma is_own_announce_port st sender_ip port :
  is_own_announce st sender_ip port = (port =? _port st).
Proof.
  unfold is_own_announce. destruct (port =? _port st); [done|].
  by rewrite andb_false_r.
Qed.

(** What the guard of the listen loop comes to. Its test is
    [port == _port || (sender_ip == "127.0.0.1" && port == _port)], under
    the comment "check both localhost and port equality": the first operand
    decides alone, so the loop takes the skip branch on a well-formed
    announce exactly when the announced port equals the local port, whatever
    the source address. Every other well-formed announce is recorded under
    "ip:port" with the time of receipt and, when the key is new and a
    callback is set, reported through the discovered callback. *)
Lemma listen_skips_same_port now sender_ip port st :
  0 <= port < 65536 ->
  let key := sender_ip +:+ ":" +:+ to_string port in
  let after := on_datagram now sender_ip (announce_datagram port) st in
  (is_own_announce st sender_ip port = true <-> port = _port st)
  /\ after = (if port =? _port st then (st, [])
              else record_peer now sender_ip (to_string port) port st)
  /\ (port <> _port st ->
      _discovered_peers after.1 !! key = Some now
      /\ after.2 = if bool_decide (_discovered_peers st !! key = None)
                      && _discovered_callback st
                   then [discovered sender_ip port] else []).
Proof.
  intros Hp. cbv zeta.
  assert (Hrun : on_datagram now sender_ip (announce_datagram port) st
                 = if port =? _port st then (st, [])
                   else record_peer now sender_ip (to_string port) port st).
  { unfold on_datagram. rewrite parse_announce_datagram by done.
    by rewrite is_own_announce_port. }
  split; [rewrite is_own_announce_port; apply Z.eqb_eq|].
  split; [exact Hrun|].
  intros Hne. rewrite Hrun.
  destruct (Z.eqb_spec port (_port st)) as [|_]; [done|].
  unfold record_peer. cbn [fst snd _discovered_peers].
  split; [apply lookup_insert_eq|done].
Qed.

(** C5. An announce of the local port from a source that is not the
    loopback address should be recorded and reported; the listen loop passes
    it over: nothing is recorded and the callback does not run. *)
Theorem same_port_from_elsewhere_is_skipped :
  "192.168.1.5" <> "127.0.0.1"
  /\ on_datagram 5 "192.168.1.5" (announce_datagram 8080) Samples.sample_discovery
     = (Samples.sample_discovery, [])
  /\ snd (on_datagram 5 "192.168.1.5" (announce_datagram 8080)
            Samples.sample_discovery)
     <> [discovered "192.168.1.5" 8080].
Proof. split; [discriminate|]. split; [reflexivity|]. vm_compute. discriminate. Qed.

End DiscoveryFacts.

(** ** The file-transfer engine *)

Module FileTransferFacts.
Import Bytes Wire FileTransfer.
Local Open Scope Z_scope.

(** Run the monadic plumbing of a handler applied to a state. *)
Ltac run :=
  cbv [mbind M_bind mret M_ret gets modify emit when
       new_Header new_FileTransferRequestMessage new_FileChunkMessage
       new_FileTransferCompleteMessage NetworkManager_SendMessage
       fail_outgoing complete_outgoing SendNextChunk_under_lock].

(** The same, up to the calls of the network manager. *)
Ltac plumb :=
  cbv [mbind M_bind mret M_ret gets modify emit when
       new_Header new_FileTransferRequestMessage new_FileChunkMessage
       new_FileTransferCompleteMessage fail_outgoing complete_outgoing
       SendNextChunk_under_lock].

(** Read a field through the setters. *)
Ltac proj :=
  cbn [set_outgoing set_incoming set_sessions set_files set_is_directory
       set_constructed set_trace
       SetProgressCallback SetCompletedCallback SetRequestCallback
       _outgoing_transfers _incoming_transfers _chunk_size _progress_callback
       _completed_callback _request_callback _peer_sessions files
       is_directory creates_directories ofstream_opens
       write_goes_through current_path indeterminate drawn
       constructed trace output_path_of output_dir_of fst snd] in *.

(** The ways a send can go: no session, a closed one, a connection that
    holds, and one that breaks in the first write, in the second, or after
    both. *)
Ltac send_cases :=
  match goal with
  | |- context [_peer_sessions ?st !! ?p] =>
    let E := fresh "Hsession" in
    destruct (_peer_sessions st !! p) as [[[] [room|]]|] eqn:E
  end;
  cbn [_is_connected negb];
  cbv [PeerSession_SendMessage asio_write socket_room Close];
  repeat match goal with
         | |- context [(?a <=? ?b)%nat] => destruct (a <=? b)%nat; cbv beta iota
         end;
  cbn [negb]; proj.

(** C7. A chunk whose index is already among the received chunks of the
    matching incoming transfer is dropped: the handler leaves the whole
    state as it was, so the byte count, the received-chunk set, the status
    and the output file are unchanged, and nothing is sent and no callback
    runs. *)
Theorem duplicate_chunk_dropped message st transfer :
  _incoming_transfers st !! (_sender (chunk_header message), chunk_file_id message)
    = Some transfer ->
  is_Some (received_chunks transfer !! _chunk_index message) ->
  HandleFileChunk message st = (tt, st)
  /\ _incoming_transfers (HandleFileChunk message st).2
       !! (_sender (chunk_header message), chunk_file_id message) = Some transfer
  /\ files (HandleFileChunk message st).2 = files st
  /\ trace (HandleFileChunk message st).2 = trace st.
Proof.
  intros Hin [v Hdup].
  assert (H : HandleFileChunk message st = (tt, st)).
  { unfold HandleFileChunk. run. by rewrite Hin, Hdup. }
  rewrite H. by cbn [snd].
Qed.

Lemma duplicate_chunk_dropped_witness :
  HandleFileChunk (Samples.sample_data_chunk 1 ["x"%byte]) Samples.received_chunk_1
  = (tt, Samples.received_chunk_1).
Proof.
  eapply duplicate_chunk_dropped.
  - vm_compute. reflexivity.
  - vm_compute. eauto.
Defined.

(** C6. A request with declared total size 0 that the receiver accepts
    does not complete when the output file has been opened: the handler has
    sent nothing, no FileTransferComplete among it, and the transfer sits in
    the table, in progress. The sending side does treat size 0 as complete
    at once: [SendNextChunk] on an empty file ends the transfer without
    sending a chunk, so no chunk would come to complete the receiver's
    entry either. *)
Theorem zero_size_request_waits :
  accepts (Samples.sample_engine 0) (Samples.sample_request 0)
  /\ trace (Samples.receiving 0) = []
  /\ status <$> _incoming_transfers (Samples.receiving 0) !! (Samples.alice, "e.bin")
     = Some IN_PROGRESS
  /\ SendNextChunk Samples.alice "/srv/report.bin" (Samples.sending_sample 0 0)
     = (returns_to_caller,
        set_outgoing (fun _ => ∅)
          (set_trace (fun _ => [completed_callback Samples.alice "/srv/report.bin" true ""])
             (Samples.sending_sample 0 0))).
Proof.
  split; [exact I|]. split; [vm_compute; reflexivity|].
  split; vm_compute; reflexivity.
Qed.

(** *** The outgoing table over the life of the engine *)

Lemma outgoing_from_refl m : outgoing_from m m.
Proof. intros key t H. by left. Qed.

Lemma outgoing_from_delete m key : outgoing_from m (delete key m).
Proof.
  intros k t H. left. apply lookup_delete_Some in H. by destruct H.
Qed.

Lemma outgoing_from_emplace m key t :
  status t = PENDING -> key = (peer_id t, file_path t) ->
  outgoing_from m (emplace key t m).
Proof.
  intros Hs Hk k t' H. unfold emplace in H.
  destruct (m !! key) eqn:E; [by left|].
  destruct (decide (k = key)) as [->|Hne].
  - rewrite lookup_insert_eq in H. injection H as <-. by right.
  - rewrite lookup_insert_ne in H by done. by left.
Qed.

Lemma SendMessage_outgoing peer_id message st :
  _outgoing_transfers (NetworkManager_SendMessage peer_id message st).2
  = _outgoing_transfers st.
Proof.
  unfold NetworkManager_SendMessage. run. send_cases; reflexivity.
Qed.

Lemma SendFile_outgoing peer_id file_path st :
  outgoing_from (_outgoing_transfers st)
    (_outgoing_transfers (SendFile peer_id file_path st).2).
Proof.
  unfold SendFile. run.
  destruct (files st !! file_path) as [content|]; [|apply outgoing_from_refl].
  destruct (drawn st (constructed st)) as [id now]. proj.
  send_cases; try apply outgoing_from_refl; by apply outgoing_from_emplace.
Qed.

Lemma CancelTransfer_outgoing peer_id file_path st :
  outgoing_from (_outgoing_transfers st)
    (_outgoing_transfers (CancelTransfer peer_id file_path st).2).
Proof.
  unfold CancelTransfer. run.
  destruct (_outgoing_transfers st !! (peer_id, file_path)).
  - destruct (drawn st (constructed st)) as [id now]. proj.
    send_cases; apply outgoing_from_delete.
  - destruct (_incoming_transfers st !! (peer_id, file_path));
      [|apply outgoing_from_refl].
    destruct (drawn st (constructed st)) as [id now]. proj.
    send_cases; apply outgoing_from_refl.
Qed.

(** The request handler by the way it goes: refused, no directory, no
    stream, accepted. *)
Ltac request_cases :=
  match goal with
  | |- context [_request_callback ?st] =>
    destruct (_request_callback st) as [f|]; proj;
    [destruct (f _ _ _)|]; cbn [negb]; proj;
    try (destruct (creates_directories st _); cbn [negb]; proj;
         [destruct (ofstream_opens st _); cbn [negb]; proj|]);
    try (destruct (drawn st (constructed st)) as [mid now]; proj; send_cases)
  end.

Lemma HandleFileTransferRequest_outgoing message st :
  _outgoing_transfers (HandleFileTransferRequest message st).2
  = _outgoing_transfers st.
Proof. unfold HandleFileTransferRequest. run. request_cases; reflexivity. Qed.

Lemma HandleFileChunk_outgoing message st :
  _outgoing_transfers (HandleFileChunk message st).2 = _outgoing_transfers st.
Proof.
  unfold HandleFileChunk. run.
  destruct (_incoming_transfers st !! _) as [transfer|]; [|done].
  destruct (received_chunks transfer !! _); [done|]. proj.
  destruct (negb _); proj.
  - destruct (drawn st (constructed st)) as [id now]. proj.
    send_cases; by destruct (_completed_callback st).
  - destruct (_progress_callback st); proj;
      (destruct (_ <=? _); proj; [|done]);
      destruct (drawn st (constructed st)) as [id now]; proj;
      send_cases; by destruct (_completed_callback st).
Qed.

Lemma HandleFileTransferComplete_outgoing message st :
  outgoing_from (_outgoing_transfers st)
    (_outgoing_transfers (HandleFileTransferComplete message st).2).
Proof.
  unfold HandleFileTransferComplete. run.
  destruct (_outgoing_transfers st !! _); [|apply outgoing_from_refl].
  destruct (_completed_callback st); proj; apply outgoing_from_delete.
Qed.

Lemma step_outgoing st st' :
  step st st' -> outgoing_from (_outgoing_transfers st) (_outgoing_transfers st').
Proof.
  destruct 1 as [p f st|p f st|m st|b st|b st|c st|st st' Hw].
  - apply SendFile_outgoing.
  - apply CancelTransfer_outgoing.
  - destruct m as [c|r|c|c]; cbn [HandleMessage snd].
    + apply outgoing_from_refl.
    + rewrite HandleFileTransferRequest_outgoing. apply outgoing_from_refl.
    + rewrite HandleFileChunk_outgoing. apply outgoing_from_refl.
    + apply HandleFileTransferComplete_outgoing.
  - apply outgoing_from_refl.
  - apply outgoing_from_refl.
  - apply outgoing_from_refl.
  - destruct Hw as (-> & _). apply outgoing_from_refl.
Qed.

(** Every entry of the outgoing table of a running engine is pending. *)
Lemma reachable_outgoing_pending st : reachable st -> outgoing_pending st.
Proof.
  induction 1 as [st (Hout & _)|st st' _ IH Hstep].
  - intros key t H. rewrite Hout in H. by rewrite lookup_empty in H.
  - intros key t H. apply (step_outgoing _ _ Hstep) in H as [H|H]; [|done].
    by apply IH.
Qed.

Lemma lookup_emplace (key : TransferKey) (t : TransferInfo)
    (m : gmap TransferKey TransferInfo) :
  exists t', emplace key t m !! key = Some t'.
Proof.
  unfold emplace. destruct (m !! key) as [t0|] eqn:E.
  - by exists t0.
  - exists t. apply lookup_insert_eq.
Qed.

(** A send under a session that works sends the message and changes
    nothing else. *)
Lemma set_sessions_insert_id peer session st :
  _peer_sessions st !! peer = Some session ->
  set_sessions <[peer := session]> st = st.
Proof.
  intros H. destruct st. unfold set_sessions. cbn in *. f_equal. by apply insert_id.
Qed.

Lemma SendMessage_up peer message st :
  session_up st peer ->
  NetworkManager_SendMessage peer message st
  = (true, set_trace (fun t => t ++ [sent_to peer message]) st).
Proof.
  unfold session_up. intros Hup. unfold NetworkManager_SendMessage. run.
  rewrite Hup. cbn [_is_connected negb].
  cbv [PeerSession_SendMessage asio_write socket_room].
  by rewrite (set_sessions_insert_id _ _ _ Hup).
Qed.

(** A send that fails sends no message whole. *)
Lemma SendMessage_false peer message st :
  (NetworkManager_SendMessage peer message st).1 = false ->
  omap message_of (trace (NetworkManager_SendMessage peer message st).2)
  = omap message_of (trace st).
Proof.
  unfold NetworkManager_SendMessage. run. send_cases; try done;
    intros _; rewrite omap_app; cbn; by rewrite app_nil_r.
Qed.

Lemma SendMessage_not_connected peer message st :
  (forall session, _peer_sessions st !! peer = Some session ->
                   _is_connected session = false) ->
  NetworkManager_SendMessage peer message st = (false, st).
Proof.
  intros Hno. unfold NetworkManager_SendMessage. run.
  destruct (_peer_sessions st !! peer) as [[connected room]|] eqn:E; [|done].
  by rewrite (Hno _ eq_refl).
Qed.

(** What the trace gains by one send: the message, the part of a frame a
    broken write let through, or nothing. *)
Lemma SendMessage_trace peer message st :
  let call := NetworkManager_SendMessage peer message st in
  (call.1 = true /\ trace call.2 = trace st ++ [sent_to peer message])
  \/ (call.1 = false
      /\ (trace call.2 = trace st
          \/ exists taken, trace call.2 = trace st ++ [wrote_to peer taken])).
Proof.
  cbv zeta. unfold NetworkManager_SendMessage. run. send_cases; eauto 6.
Qed.

(** C8. On a running engine, [SendFile(peer, path)]
    - returns false and leaves everything as it was, so before any network
      send, when the path does not exist;
    - does not succeed and writes nothing to any socket when there is no
      connected session for the peer, returning false when the path is a
      file;
    - returns true, the FileTransferRequest sent, when the path is a file
      and the peer's session works;
    - returns true exactly when the FileTransferRequest was sent (the trace
      grew by that one send), and has sent no message when it did not return
      true;
    - once it returned true, the outgoing table holds an entry under
      (peer, path), for that peer and path, with status PENDING.
    A path that exists and is no regular file sends nothing either: the
    call is left by the exception of [file_size]. *)
Theorem SendFile_contract st peer file_path' :
  reachable st ->
  let call := SendFile peer file_path' st in
  let request h content :=
    FileTransferRequest
      {| request_header := h; _filename := path_filename file_path';
         _file_size := Z.of_nat (length content) |} in
  (files st !! file_path' = None -> is_directory st file_path' = false ->
   call = (returned false, st))
  /\ ((forall session, _peer_sessions st !! peer = Some session ->
                       _is_connected session = false) ->
      call.1 <> returned true /\ trace call.2 = trace st
      /\ (is_Some (files st !! file_path') -> call.1 = returned false))
  /\ (forall content,
        files st !! file_path' = Some content -> session_up st peer ->
        call.1 = returned true
        /\ exists h, trace call.2 = trace st ++ [sent_to peer (request h content)])
  /\ (call.1 = returned true <->
      exists h content,
        files st !! file_path' = Some content
        /\ trace call.2 = trace st ++ [sent_to peer (request h content)])
  /\ (call.1 <> returned true ->
      omap message_of (trace call.2) = omap message_of (trace st))
  /\ (call.1 = returned true ->
      exists transfer,
        _outgoing_transfers call.2 !! (peer, file_path') = Some transfer
        /\ status transfer = PENDING
        /\ peer_id transfer = peer /\ file_path transfer = file_path')
  /\ (files st !! file_path' = None -> is_directory st file_path' = true ->
      call = (filesystem_error, st)).
Proof.
  intros Hreach. cbv zeta.
  assert (Hinv : outgoing_pending (SendFile peer file_path' st).2).
  { apply reachable_outgoing_pending.
    eapply reachable_step; [exact Hreach|apply step_SendFile]. }
  revert Hinv. unfold SendFile. plumb.
  destruct (files st !! file_path') as [content|] eqn:Hfile.
  2:{ intros _. destruct (is_directory st file_path'); proj;
        repeat split; try done; try (intros [? ?]; done);
        intros (h & c & Hc & _); discriminate. }
  destruct (drawn st (constructed st)) as [id now] eqn:Hdraw.
  set (header := {| _sender := peer; _id := id; _timestamp := now |}).
  set (message := FileTransferRequest _).
  set (st0 := set_constructed _ st).
  assert (Htrace0 : trace st0 = trace st) by done.
  assert (Hsessions0 : _peer_sessions st0 = _peer_sessions st) by done.
  pose proof (SendMessage_trace peer message st0) as Hsend.
  pose proof (SendMessage_false peer message st0) as Hfalse.
  pose proof (SendMessage_not_connected peer message st0) as Hnc.
  pose proof (SendMessage_up peer message st0) as Hu.
  cbv zeta in Hsend. rewrite Hsessions0 in Hnc. unfold session_up in Hu.
  rewrite Hsessions0 in Hu.
  destruct (NetworkManager_SendMessage peer message st0) as [sent st1] eqn:Hcall.
  cbn [fst snd] in Hsend, Hfalse. rewrite Htrace0 in Hsend, Hfalse.
  destruct sent; cbn [negb]; proj.
  - destruct Hsend as [[_ Htr]|[? _]]; [|done]. intros Hinv.
    split; [done|]. split.
    { intros Hno. by specialize (Hnc Hno). }
    split.
    { intros c [= <-] _. split; [done|]. by exists header. }
    split.
    { split; [|done]. intros _. by exists header, content. }
    split; [done|]. split; [|done]. intros _.
    destruct (lookup_emplace (peer, file_path')
                {| file_path := file_path'; file_id := file_path';
                   file_size := Z.of_nat (length content); peer_id := peer;
                   status := PENDING; bytes_transferred := 0;
                   input_stream := closed_ifstream; output_stream := closed_ofstream;
                   next_chunk_index := indeterminate st1; received_chunks := ∅ |}
                (_outgoing_transfers st1)) as [t Ht].
    exists t. split; [exact Ht|].
    destruct (Hinv _ _ Ht) as [Hs Hk]. injection Hk as <- <-. done.
  - intros _. destruct Hsend as [[? _]|[_ Htr]]; [done|].
    split; [done|]. split.
    { intros Hno. split; [done|]. split; [|done].
      specialize (Hnc Hno). by injection Hnc as ->. }
    split.
    { intros c _ Hup. by specialize (Hu Hup). }
    split.
    { split; [done|]. intros (h & c & _ & Ht). exfalso.
      destruct Htr as [Htr|[taken Htr]]; rewrite Htr in Ht.
      - apply (f_equal length) in Ht. rewrite length_app in Ht. cbn in Ht. lia.
      - apply app_inj_tail in Ht as [_ Ht]. discriminate. }
    split; [intros _; by apply Hfalse|]. split; [done|done].
Qed.

Lemma reachable_sample_engine n : reachable (Samples.sample_engine n).
Proof. apply reachable_constructed. by repeat split. Qed.

Lemma SendFile_contract_witness :
  (SendFile Samples.alice "/srv/missing.bin" (Samples.sample_engine 8)).1 = returned false
  /\ (SendFile Samples.alice "/srv/report.bin" (Samples.sample_engine 8)).1
     = returned true
  /\ (SendFile Samples.alice "/srv" (Samples.sample_engine 8)).1 = filesystem_error
  /\ exists transfer,
      _outgoing_transfers
        (SendFile Samples.alice "/srv/report.bin" (Samples.sample_engine 8)).2
        !! (Samples.alice, "/srv/report.bin") = Some transfer
      /\ status transfer = PENDING
      /\ peer_id transfer = Samples.alice /\ file_path transfer = "/srv/report.bin".
Proof.
  pose proof (SendFile_contract (Samples.sample_engine 8) Samples.alice
                "/srv/missing.bin" (reachable_sample_engine 8)) as Hmissing.
  pose proof (SendFile_contract (Samples.sample_engine 8) Samples.alice
                "/srv/report.bin" (reachable_sample_engine 8)) as Hreport.
  pose proof (SendFile_contract (Samples.sample_engine 8) Samples.alice
                "/srv" (reachable_sample_engine 8)) as Hdir.
  cbv zeta in Hmissing, Hreport, Hdir.
  destruct Hmissing as (Hm & _). destruct Hreport as (_ & _ & Hr & _ & _ & Hentry & _).
  destruct Hdir as (_ & _ & _ & _ & _ & _ & Hd).
  split; [by rewrite Hm|].
  destruct (Hr (replicate 8 "r"%byte)) as [Htrue _]; [reflexivity|reflexivity|].
  split; [exact Htrue|]. split; [by rewrite Hd|]. by apply Hentry.
Defined.

(** *** The chunk loop *)

Lemma chunks_sent_app t1 t2 : chunks_sent (t1 ++ t2) = chunks_sent t1 ++ chunks_sent t2.
Proof. unfold chunks_sent. apply omap_app. Qed.

Lemma length_chunk (content : ByteBuffer) i :
  0 <= i -> i * DEFAULT_CHUNK_SIZE < Z.of_nat (length content) ->
  Z.of_nat (length (take (Z.to_nat DEFAULT_CHUNK_SIZE)
                      (drop (Z.to_nat (i * DEFAULT_CHUNK_SIZE)) content)))
  = Z.min DEFAULT_CHUNK_SIZE (Z.of_nat (length content) - i * DEFAULT_CHUNK_SIZE).
Proof.
  intros Hi Hlt. rewrite length_take, length_drop. unfold DEFAULT_CHUNK_SIZE in *. lia.
Qed.

(** One call of [SendNextChunk], entered with the mutex free in the middle
    of a transfer: chunk [i] goes out and is counted. When it was the last
    one the transfer is completed and the call returns; when it was not,
    the entry stands at chunk [i + 1] and the call goes on to lock the
    mutex it holds. *)
Lemma SendNextChunk_step st peer path content i :
  sending st peer path content i ->
  0 <= i -> i + 1 < 2 ^ 32 ->
  i * DEFAULT_CHUNK_SIZE < Z.of_nat (length content) ->
  Z.of_nat (length content) < 2 ^ 63 ->
  let L := Z.of_nat (length content) in
  let chunk := take (Z.to_nat DEFAULT_CHUNK_SIZE)
                 (drop (Z.to_nat (i * DEFAULT_CHUNK_SIZE)) content) in
  let call := SendNextChunk peer path st in
  (exists h,
     trace call.2
     = trace st
       ++ [sent_to peer
             (FileChunk {| chunk_header := h; chunk_file_id := path;
                           _chunk_index := i; _data := chunk |})]
       ++ (if _progress_callback st
           then [progress_callback peer path
                   (i * DEFAULT_CHUNK_SIZE + Z.of_nat (length chunk)) L]
           else [])
       ++ (if (L <=? (i + 1) * DEFAULT_CHUNK_SIZE) && _completed_callback st
           then [completed_callback peer path true ""] else []))
  /\ (L <= (i + 1) * DEFAULT_CHUNK_SIZE ->
      call.1 = returns_to_caller
      /\ _outgoing_transfers call.2 !! (peer, path) = None)
  /\ ((i + 1) * DEFAULT_CHUNK_SIZE < L ->
      call.1 = locks_held_mutex
      /\ sending call.2 peer path content (i + 1)
      /\ _progress_callback call.2 = _progress_callback st
      /\ _completed_callback call.2 = _completed_callback st).
Proof.
  intros (t & Hout & Hst & Hstream & Hidx & Hbytes & Hsize & Hpath & Hfile & Hsess & Hcs)
         Hi Hi32 Hlt Hbig.
  cbv zeta. unfold SendNextChunk. run.
  rewrite Hout, Hst, Hstream. cbn [bool_decide decide_rel negb in_is_open in_fail].
  rewrite bool_decide_eq_true_2 by done. cbn [negb].
  rewrite Hcs, Hpath, Hfile, Hidx. cbn [default from_option id].
  assert (Hpos : to_uint64 (i * DEFAULT_CHUNK_SIZE) = i * DEFAULT_CHUNK_SIZE).
  { unfold to_uint64. apply Z.mod_small. unfold DEFAULT_CHUNK_SIZE in *. lia. }
  rewrite Hpos.
  pose proof (length_chunk content i Hi Hlt) as Hlen.
  set (chunk := take (Z.to_nat DEFAULT_CHUNK_SIZE)
                  (drop (Z.to_nat (i * DEFAULT_CHUNK_SIZE)) content)) in *.
  destruct (Z.eqb_spec (Z.of_nat (length chunk)) 0) as [H0|_].
  { unfold DEFAULT_CHUNK_SIZE in *. lia. }
  destruct (drawn st (constructed st)) as [id now]. proj.
  rewrite Hsess. cbn [_is_connected negb PeerSession_SendMessage asio_write socket_room].
  proj.
  rewrite Hbytes, Hsize.
  assert (Hsum : to_uint64 (i * DEFAULT_CHUNK_SIZE + Z.of_nat (length chunk))
                 = i * DEFAULT_CHUNK_SIZE + Z.of_nat (length chunk)).
  { unfold to_uint64. apply Z.mod_small. unfold DEFAULT_CHUNK_SIZE in *. lia. }
  rewrite Hsum.
  destruct (Z.leb_spec (Z.of_nat (length content))
              (i * DEFAULT_CHUNK_SIZE + Z.of_nat (length chunk))) as [Hdone|Hmore].
  - destruct (Z.leb_spec (Z.of_nat (length content)) ((i + 1) * DEFAULT_CHUNK_SIZE))
      as [_|H]; [|unfold DEFAULT_CHUNK_SIZE in *; lia].
    cbn [andb].
    split; [|split; [|unfold DEFAULT_CHUNK_SIZE in *; lia]].
    + eexists.
      destruct (_progress_callback st); proj; destruct (_completed_callback st); proj;
        rewrite <- ?app_assoc; reflexivity.
    + intros _.
      destruct (_progress_callback st); proj; destruct (_completed_callback st); proj;
        (split; [done|]); apply lookup_delete_eq.
  - destruct (Z.leb_spec (Z.of_nat (length content)) ((i + 1) * DEFAULT_CHUNK_SIZE))
      as [H|_]; [unfold DEFAULT_CHUNK_SIZE in *; lia|].
    cbn [andb].
    assert (Hfull : Z.of_nat (length chunk) = DEFAULT_CHUNK_SIZE)
      by (unfold DEFAULT_CHUNK_SIZE in *; lia).
    rewrite Hfull.
    destruct (Z.ltb_spec DEFAULT_CHUNK_SIZE DEFAULT_CHUNK_SIZE) as [H|_]; [lia|].
    assert (Hnext : to_uint32 (i + 1) = i + 1)
      by (unfold to_uint32; apply Z.mod_small; lia).
    rewrite Hnext.
    split; [|split; [unfold DEFAULT_CHUNK_SIZE in *; lia|]].
    + eexists. destruct (_progress_callback st); proj;
        rewrite <- ?app_assoc, ?app_nil_r; reflexivity.
    + intros _.
      destruct (_progress_callback st) eqn:Hp; proj; (split; [done|]);
        (split; [|done]);
        eexists; proj; rewrite !lookup_insert_eq;
        repeat split; try reflexivity; try done;
        cbn [bytes_transferred with_input_stream with_next_chunk_index
             with_bytes_transferred file_size file_path status input_stream
             next_chunk_index]; try done; lia.
Qed.








(** *** What a running engine sends

    The chunk loop is the only place a FileChunk is sent from, and it is no
    step of a running engine. *)

Ltac same_chunks :=
  proj; rewrite ?chunks_sent_app;
  cbn [chunks_sent omap list_omap chunk_of app]; rewrite ?app_nil_r;
  try reflexivity.

Lemma SendFile_chunks peer_id file_path st :
  chunks_sent (trace (SendFile peer_id file_path st).2) = chunks_sent (trace st).
Proof.
  unfold SendFile. run.
  destruct (files st !! file_path) as [content|]; [|done].
  destruct (drawn st (constructed st)) as [mid now]. proj.
  send_cases; same_chunks.
Qed.

Lemma CancelTransfer_chunks peer_id file_path st :
  chunks_sent (trace (CancelTransfer peer_id file_path st).2) = chunks_sent (trace st).
Proof.
  unfold CancelTransfer. run.
  destruct (_outgoing_transfers st !! (peer_id, file_path)).
  - destruct (drawn st (constructed st)) as [mid now]. proj.
    send_cases; same_chunks.
  - destruct (_incoming_transfers st !! (peer_id, file_path)); [|done].
    destruct (drawn st (constructed st)) as [mid now]. proj.
    send_cases; same_chunks.
Qed.

Lemma HandleFileTransferRequest_chunks message st :
  chunks_sent (trace (HandleFileTransferRequest message st).2) = chunks_sent (trace st).
Proof. unfold HandleFileTransferRequest. run. request_cases; same_chunks. Qed.

Lemma HandleFileChunk_chunks message st :
  chunks_sent (trace (HandleFileChunk message st).2) = chunks_sent (trace st).
Proof.
  unfold HandleFileChunk. run.
  destruct (_incoming_transfers st !! _) as [transfer|]; [|done].
  destruct (received_chunks transfer !! _); [done|]. proj.
  destruct (negb _); proj.
  - destruct (drawn st (constructed st)) as [mid now]. proj.
    send_cases; destruct (_completed_callback st); same_chunks.
  - destruct (_progress_callback st); proj;
      (destruct (_ <=? _); proj; [|same_chunks]);
      destruct (drawn st (constructed st)) as [mid now]; proj;
      send_cases; destruct (_completed_callback st); same_chunks.
Qed.

Lemma HandleFileTransferComplete_chunks message st :
  chunks_sent (trace (HandleFileTransferComplete message st).2) = chunks_sent (trace st).
Proof.
  unfold HandleFileTransferComplete. run.
  destruct (_outgoing_transfers st !! _); [|done].
  destruct (_completed_callback st); same_chunks.
Qed.

(** Through its public functions and its message handler alone, the engine
    never sends a FileChunk. *)
Lemma reachable_sends_no_chunk st : reachable st -> chunks_sent (trace st) = [].
Proof.
  induction 1 as [st (_ & _ & _ & Htrace)|st st' _ IH Hstep].
  - by rewrite Htrace.
  - rewrite <- IH.
    destruct Hstep as [p f st|p f st|m st|b st|b st|c st|st st' Hw].
    + apply SendFile_chunks.
    + apply CancelTransfer_chunks.
    + destruct m as [c|r|c|c]; cbn [HandleMessage snd].
      * reflexivity.
      * apply HandleFileTransferRequest_chunks.
      * apply HandleFileChunk_chunks.
      * apply HandleFileTransferComplete_chunks.
    + reflexivity.
    + reflexivity.
    + reflexivity.
    + destruct Hw as (_ & _ & _ & ->). reflexivity.
Qed.

End FileTransferFacts.

(** ** Parsing, truncation and framing of wire messages *)

Module ParserFacts.
Import Bytes BytesFacts Wire WireFacts.

Lemma be_decode_range l : 0 <= be_decode l < 256 ^ Z.of_nat (length l).
Proof.
  induction l as [|b l IH] using rev_ind.
  - cbn. lia.
  - rewrite be_decode_snoc, length_app. cbn [length].
    pose proof (byte_to_Z_range b).
    replace (Z.of_nat (length l + 1)) with (Z.succ (Z.of_nat (length l))) by lia.
    rewrite Z.pow_succ_r by lia. lia.
Qed.

Lemma byte_of_Z_mod z : byte_of_Z (z mod 256) = byte_of_Z z.
Proof. unfold byte_of_Z. by rewrite Z.mod_mod. Qed.

Lemma be_encode_decode l : be_encode (length l) (be_decode l) = l.
Proof.
  induction l as [|b l IH] using rev_ind; [done|].
  rewrite length_app, Nat.add_comm. cbn [length Nat.add be_encode].
  rewrite be_decode_snoc. pose proof (byte_to_Z_range b).
  rewrite Z.div_add_l, Z.div_small, Z.add_0_r, IH by lia.
  f_equal. rewrite <- byte_of_Z_mod, Z.add_comm, Z.mod_add, Z.mod_small by lia.
  by rewrite CryptoFacts.byte_of_to_Z.
Qed.

Lemma be_encode_decode_sized k l : length l = k -> be_encode k (be_decode l) = l.
Proof. intros <-. apply be_encode_decode. Qed.

Lemma length_slice (d : ByteBuffer) off len :
  (off + len <= length d)%nat -> length (slice off len d) = len.
Proof. intros H. unfold slice. rewrite length_take, length_drop. lia. Qed.

Lemma slice_app_within (d junk : ByteBuffer) off len :
  (off + len <= length d)%nat -> slice off len (d ++ junk) = slice off len d.
Proof.
  intros H. unfold slice. rewrite drop_app_le by lia.
  apply take_app_le. rewrite length_drop. lia.
Qed.

Lemma slice_cat (d : ByteBuffer) a k j b :
  b = (a + k)%nat -> slice a k d ++ slice b j d = slice a (k + j) d.
Proof.
  intros ->. unfold slice. rewrite <- drop_drop. apply take_take_drop.
Qed.

Lemma to_int64_range u : 0 <= u < 2 ^ 64 -> - 2 ^ 63 <= to_int64 u < 2 ^ 63.
Proof. intros H. unfold to_int64. destruct (Z.ltb_spec u (2 ^ 63)); lia. Qed.

Lemma to_uint64_to_int64 u : 0 <= u < 2 ^ 64 -> to_uint64 (to_int64 u) = u.
Proof.
  intros H. unfold to_int64, to_uint64. destruct (Z.ltb_spec u (2 ^ 63)).
  - apply Z.mod_small. lia.
  - rewrite <- (Z.mod_add _ 1) by lia.
    replace (u - 2 ^ 64 + 1 * 2 ^ 64) with u by lia. apply Z.mod_small. lia.
Qed.

Lemma be_decode_slice_range (d : ByteBuffer) off len :
  0 <= be_decode (slice off len d) < 256 ^ Z.of_nat len.
Proof.
  pose proof (be_decode_range (slice off len d)) as H.
  assert (Hl : (length (slice off len d) <= len)%nat).
  { unfold slice. rewrite length_take. lia. }
  assert (256 ^ Z.of_nat (length (slice off len d)) <= 256 ^ Z.of_nat len)
    by (apply Z.pow_le_mono_r; lia).
  lia.
Qed.

Lemma valid_deserialize_header (d : ByteBuffer) :
  (57 <= length d)%nat -> valid_Header (deserialize_header d).
Proof.
  intros H. unfold valid_Header, deserialize_header. cbn [_sender _id _timestamp].
  rewrite !length_slice by lia. split; [done|]. split; [done|].
  apply to_int64_range. apply (be_decode_slice_range d 49 8).
Qed.

Lemma deserialize_header_app (d junk : ByteBuffer) :
  (57 <= length d)%nat -> deserialize_header (d ++ junk) = deserialize_header d.
Proof.
  intros H. unfold deserialize_header. by rewrite !slice_app_within by lia.
Qed.

Lemma has_type_app t (d junk : ByteBuffer) :
  (1 <= length d)%nat -> has_type t (d ++ junk) = has_type t d.
Proof. destruct d; cbn; [lia|done]. Qed.

(** Writing back the header that was read gives the first 57 bytes. *)
Lemma serialize_deserialize_header t (d : ByteBuffer) :
  (57 <= length d)%nat -> has_type t d = true ->
  serialize_header t (deserialize_header d) = take 57 d.
Proof.
  intros Hlen Ht. unfold serialize_header, deserialize_header.
  cbn [_sender _id _timestamp].
  rewrite to_uint64_to_int64 by apply (be_decode_slice_range d 49 8).
  rewrite be_encode_decode_sized by (apply length_slice; lia).
  assert (Hb : [byte_of_Z (MessageType_code t)] = slice 0 1 d).
  { destruct d as [|b d]; [done|]. cbn in Ht. apply Z.eqb_eq in Ht.
    rewrite <- Ht, CryptoFacts.byte_of_to_Z. reflexivity. }
  rewrite Hb, (slice_cat d 33 16 8 49), (slice_cat d 1 32 (16 + 8) 33),
    (slice_cat d 0 1 (32 + (16 + 8)) 1) by done.
  reflexivity.
Qed.

Lemma size_bytes_string (l : ByteBuffer) : size (bytes_string l) = Z.of_nat (length l).
Proof.
  unfold size, string_bytes, bytes_string.
  by rewrite list_byte_of_string_of_list_byte.
Qed.

Lemma string_bytes_string (l : ByteBuffer) : string_bytes (bytes_string l) = l.
Proof. apply list_byte_of_string_of_list_byte. Qed.


(** One guard of a [Deserialize] that did not return false. *)
Ltac head_check H :=
  match type of H with
  | (if ?c then None else _) = Some _ =>
    let E := fresh "E" in destruct c eqn:E; [discriminate H|]
  end.

Ltac passed :=
  repeat match goal with
  | E : (_ <? _) = false |- _ => apply Z.ltb_ge in E
  | E : negb _ = false |- _ => apply negb_false_iff in E
  end.

Ltac pass_checks :=
  repeat match goal with
  | |- (if (?a <? ?b) then None else _) = _ =>
    destruct (Z.ltb_spec a b); [lia|]
  end.

(** *** What a successful [Deserialize] has read *)

Lemma ChatMessage_Deserialize_inv d m :
  ChatMessage_Deserialize d = Some m ->
  exists n : nat,
    (61 + n <= length d)%nat /\ has_type CHAT_MESSAGE d = true
    /\ be_decode (slice 57 4 d) = Z.of_nat n
    /\ m = {| chat_header := deserialize_header d;
              _content := bytes_string (slice 61 n d) |}.
Proof.
  unfold ChatMessage_Deserialize. cbv zeta. intros H.
  do 3 head_check H. passed.
  pose proof (be_decode_slice_range d 57 4) as Hr.
  exists (Z.to_nat (be_decode (slice 57 4 d))).
  split; [lia|]. split; [done|]. split; [lia|]. by injection H as <-.
Qed.

Lemma ChatMessage_Deserialize_intro d (n : nat) :
  (61 + n <= length d)%nat -> has_type CHAT_MESSAGE d = true ->
  be_decode (slice 57 4 d) = Z.of_nat n ->
  ChatMessage_Deserialize d
  = Some {| chat_header := deserialize_header d;
            _content := bytes_string (slice 61 n d) |}.
Proof.
  intros Hlen Ht Hn. unfold ChatMessage_Deserialize. cbv zeta.
  rewrite Ht, Hn, Nat2Z.id. cbn [negb]. by pass_checks.
Qed.

Lemma FileTransferRequestMessage_Deserialize_inv d m :
  FileTransferRequestMessage_Deserialize d = Some m ->
  exists n : nat,
    (69 + n <= length d)%nat /\ has_type FILE_TRANSFER_REQUEST d = true
    /\ be_decode (slice 65 4 d) = Z.of_nat n
    /\ m = {| request_header := deserialize_header d;
              _filename := bytes_string (slice 69 n d);
              _file_size := be_decode (slice 57 8 d) |}.
Proof.
  unfold FileTransferRequestMessage_Deserialize. cbv zeta. intros H.
  do 3 head_check H. passed.
  pose proof (be_decode_slice_range d 65 4) as Hr.
  exists (Z.to_nat (be_decode (slice 65 4 d))).
  split; [lia|]. split; [done|]. split; [lia|]. by injection H as <-.
Qed.

Lemma FileTransferRequestMessage_Deserialize_intro d (n : nat) :
  (69 + n <= length d)%nat -> has_type FILE_TRANSFER_REQUEST d = true ->
  be_decode (slice 65 4 d) = Z.of_nat n ->
  FileTransferRequestMessage_Deserialize d
  = Some {| request_header := deserialize_header d;
            _filename := bytes_string (slice 69 n d);
            _file_size := be_decode (slice 57 8 d) |}.
Proof.
  intros Hlen Ht Hn. unfold FileTransferRequestMessage_Deserialize. cbv zeta.
  rewrite Ht, Hn, Nat2Z.id. cbn [negb]. by pass_checks.
Qed.

Lemma FileChunkMessage_Deserialize_inv d m :
  FileChunkMessage_Deserialize d = Some m ->
  exists n k : nat,
    (69 + n + k <= length d)%nat /\ has_type FILE_CHUNK d = true
    /\ be_decode (slice 57 4 d) = Z.of_nat n
    /\ be_decode (slice (65 + n) 4 d) = Z.of_nat k
    /\ m = {| chunk_header := deserialize_header d;
              chunk_file_id := bytes_string (slice 61 n d);
              _chunk_index := be_decode (slice (61 + n) 4 d);
              _data := slice (69 + n) k d |}.
Proof.
  unfold FileChunkMessage_Deserialize. cbv zeta. intros H.
  do 4 head_check H. passed.
  pose proof (be_decode_slice_range d 57 4) as Hr.
  set (n := Z.to_nat (be_decode (slice 57 4 d))) in *.
  pose proof (be_decode_slice_range d (65 + n) 4) as Hk.
  exists n, (Z.to_nat (be_decode (slice (65 + n) 4 d))).
  split; [lia|]. split; [done|]. split; [lia|]. split; [lia|].
  by injection H as <-.
Qed.

Lemma FileChunkMessage_Deserialize_intro d (n k : nat) :
  (69 + n + k <= length d)%nat -> has_type FILE_CHUNK d = true ->
  be_decode (slice 57 4 d) = Z.of_nat n ->
  be_decode (slice (65 + n) 4 d) = Z.of_nat k ->
  FileChunkMessage_Deserialize d
  = Some {| chunk_header := deserialize_header d;
            chunk_file_id := bytes_string (slice 61 n d);
            _chunk_index := be_decode (slice (61 + n) 4 d);
            _data := slice (69 + n) k d |}.
Proof.
  intros Hlen Ht Hn Hk. unfold FileChunkMessage_Deserialize. cbv zeta.
  rewrite Ht, Hn, Nat2Z.id, Hk, Nat2Z.id. cbn [negb]. by pass_checks.
Qed.

Lemma FileTransferCompleteMessage_Deserialize_inv d m :
  FileTransferCompleteMessage_Deserialize d = Some m ->
  exists n k : nat,
    (66 + n + k <= length d)%nat /\ has_type FILE_TRANSFER_COMPLETE d = true
    /\ be_decode (slice 57 4 d) = Z.of_nat n
    /\ be_decode (slice (62 + n) 4 d) = Z.of_nat k
    /\ m = {| complete_header := deserialize_header d;
              complete_file_id := bytes_string (slice 61 n d);
              _success := negb (be_decode (slice (61 + n) 1 d) =? 0);
              _error_message := bytes_string (slice (66 + n) k d) |}.
Proof.
  unfold FileTransferCompleteMessage_Deserialize. cbv zeta. intros H.
  do 4 head_check H. passed.
  pose proof (be_decode_slice_range d 57 4) as Hr.
  set (n := Z.to_nat (be_decode (slice 57 4 d))) in *.
  pose proof (be_decode_slice_range d (62 + n) 4) as Hk.
  exists n, (Z.to_nat (be_decode (slice (62 + n) 4 d))).
  split; [lia|]. split; [done|]. split; [lia|]. split; [lia|].
  by injection H as <-.
Qed.

Lemma FileTransferCompleteMessage_Deserialize_intro d (n k : nat) :
  (66 + n + k <= length d)%nat -> has_type FILE_TRANSFER_COMPLETE d = true ->
  be_decode (slice 57 4 d) = Z.of_nat n ->
  be_decode (slice (62 + n) 4 d) = Z.of_nat k ->
  FileTransferCompleteMessage_Deserialize d
  = Some {| complete_header := deserialize_header d;
            complete_file_id := bytes_string (slice 61 n d);
            _success := negb (be_decode (slice (61 + n) 1 d) =? 0);
            _error_message := bytes_string (slice (66 + n) k d) |}.
Proof.
  intros Hlen Ht Hn Hk. unfold FileTransferCompleteMessage_Deserialize. cbv zeta.
  rewrite Ht, Hn, Nat2Z.id, Hk, Nat2Z.id. cbn [negb]. by pass_checks.
Qed.


(** *** Bytes after the message do not change what is read *)

Lemma ChatMessage_Deserialize_app d junk m :
  ChatMessage_Deserialize d = Some m -> ChatMessage_Deserialize (d ++ junk) = Some m.
Proof.
  intros (n & Hlen & Ht & Hn & ->)%ChatMessage_Deserialize_inv.
  rewrite (ChatMessage_Deserialize_intro (d ++ junk) n).
  - by rewrite deserialize_header_app, slice_app_within by lia.
  - rewrite length_app. lia.
  - by rewrite has_type_app by lia.
  - by rewrite slice_app_within by lia.
Qed.

Lemma FileTransferRequestMessage_Deserialize_app d junk m :
  FileTransferRequestMessage_Deserialize d = Some m ->
  FileTransferRequestMessage_Deserialize (d ++ junk) = Some m.
Proof.
  intros (n & Hlen & Ht & Hn & ->)%FileTransferRequestMessage_Deserialize_inv.
  rewrite (FileTransferRequestMessage_Deserialize_intro (d ++ junk) n).
  - by rewrite deserialize_header_app, !slice_app_within by lia.
  - rewrite length_app. lia.
  - by rewrite has_type_app by lia.
  - by rewrite slice_app_within by lia.
Qed.

Lemma FileChunkMessage_Deserialize_app d junk m :
  FileChunkMessage_Deserialize d = Some m ->
  FileChunkMessage_Deserialize (d ++ junk) = Some m.
Proof.
  intros (n & k & Hlen & Ht & Hn & Hk & ->)%FileChunkMessage_Deserialize_inv.
  rewrite (FileChunkMessage_Deserialize_intro (d ++ junk) n k).
  - by rewrite deserialize_header_app, !slice_app_within by lia.
  - rewrite length_app. lia.
  - by rewrite has_type_app by lia.
  - by rewrite slice_app_within by lia.
  - by rewrite slice_app_within by lia.
Qed.

Lemma FileTransferCompleteMessage_Deserialize_app d junk m :
  FileTransferCompleteMessage_Deserialize d = Some m ->
  FileTransferCompleteMessage_Deserialize (d ++ junk) = Some m.
Proof.
  intros (n & k & Hlen & Ht & Hn & Hk & ->)%FileTransferCompleteMessage_Deserialize_inv.
  rewrite (FileTransferCompleteMessage_Deserialize_intro (d ++ junk) n k).
  - by rewrite deserialize_header_app, !slice_app_within by lia.
  - rewrite length_app. lia.
  - by rewrite has_type_app by lia.
  - by rewrite slice_app_within by lia.
  - by rewrite slice_app_within by lia.
Qed.

Lemma Deserialize_app t d junk m :
  Deserialize t d = Some m -> Deserialize t (d ++ junk) = Some m.
Proof.
  destruct t; cbn [Deserialize]; try done; intros H;
    apply fmap_Some in H as (c & H & ->).
  - by rewrite (ChatMessage_Deserialize_app d junk c).
  - by rewrite (FileTransferRequestMessage_Deserialize_app d junk c).
  - by rewrite (FileChunkMessage_Deserialize_app d junk c).
  - by rewrite (FileTransferCompleteMessage_Deserialize_app d junk c).
Qed.

(** *** What was read is well formed, and writes back as it was read *)

Lemma be_encode_length32 (d : ByteBuffer) off (n : nat) :
  (off + 4 <= length d)%nat -> be_decode (slice off 4 d) = Z.of_nat n ->
  be_encode 4 (to_uint32 (Z.of_nat n)) = slice off 4 d.
Proof.
  intros Hlen Hn. pose proof (be_decode_slice_range d off 4) as Hr.
  rewrite <- Hn. unfold to_uint32.
  rewrite Z.mod_small by (change (256 ^ Z.of_nat 4) with (2 ^ 32) in Hr; lia).
  apply be_encode_decode_sized, length_slice. lia.
Qed.

Lemma ChatMessage_parsed d m :
  ChatMessage_Deserialize d = Some m ->
  valid_ChatMessage m
  /\ ChatMessage_Serialize m = take (length (ChatMessage_Serialize m)) d.
Proof.
  intros (n & Hlen & Ht & Hn & ->)%ChatMessage_Deserialize_inv.
  pose proof (be_decode_slice_range d 57 4) as Hr.
  change (256 ^ Z.of_nat 4) with (2 ^ 32) in Hr.
  assert (Hs : ChatMessage_Serialize
                 {| chat_header := deserialize_header d;
                    _content := bytes_string (slice 61 n d) |}
               = take (61 + n) d).
  { unfold ChatMessage_Serialize. cbn [chat_header _content].
    rewrite serialize_deserialize_header, size_bytes_string, string_bytes_string,
      length_slice by (done || lia).
    rewrite (be_encode_length32 d 57 n) by (done || lia).
    change (take 57 d) with (slice 0 57 d).
    by rewrite (slice_cat d 57 4 n 61), (slice_cat d 0 57 (4 + n) 57). }
  split.
  - split; cbn [chat_header _content].
    + apply valid_deserialize_header. lia.
    + rewrite size_bytes_string, length_slice by lia. lia.
  - rewrite Hs at 2. rewrite length_take, Nat.min_l by lia. exact Hs.
Qed.

Lemma FileTransferRequestMessage_parsed d m :
  FileTransferRequestMessage_Deserialize d = Some m ->
  valid_FileTransferRequestMessage m
  /\ FileTransferRequestMessage_Serialize m
     = take (length (FileTransferRequestMessage_Serialize m)) d.
Proof.
  intros (n & Hlen & Ht & Hn & ->)%FileTransferRequestMessage_Deserialize_inv.
  pose proof (be_decode_slice_range d 65 4) as Hr.
  change (256 ^ Z.of_nat 4) with (2 ^ 32) in Hr.
  pose proof (be_decode_slice_range d 57 8) as Hr8.
  change (256 ^ Z.of_nat 8) with (2 ^ 64) in Hr8.
  assert (Hs : FileTransferRequestMessage_Serialize
                 {| request_header := deserialize_header d;
                    _filename := bytes_string (slice 69 n d);
                    _file_size := be_decode (slice 57 8 d) |}
               = take (69 + n) d).
  { unfold FileTransferRequestMessage_Serialize.
    cbn [request_header _filename _file_size].
    rewrite serialize_deserialize_header, size_bytes_string, string_bytes_string,
      length_slice by (done || lia).
    rewrite (be_encode_length32 d 65 n) by (done || lia).
    unfold to_uint64. rewrite Z.mod_small by lia.
    rewrite be_encode_decode_sized by (apply length_slice; lia).
    change (take 57 d) with (slice 0 57 d).
    by rewrite (slice_cat d 65 4 n 69), (slice_cat d 57 8 (4 + n) 65),
      (slice_cat d 0 57 (8 + (4 + n)) 57). }
  split.
  - split; [|split]; cbn [request_header _filename _file_size].
    + apply valid_deserialize_header. lia.
    + lia.
    + rewrite size_bytes_string, length_slice by lia. lia.
  - rewrite Hs at 2. rewrite length_take, Nat.min_l by lia. exact Hs.
Qed.

Lemma FileChunkMessage_parsed d m :
  FileChunkMessage_Deserialize d = Some m ->
  valid_FileChunkMessage m
  /\ FileChunkMessage_Serialize m = take (length (FileChunkMessage_Serialize m)) d.
Proof.
  intros (n & k & Hlen & Ht & Hn & Hk & ->)%FileChunkMessage_Deserialize_inv.
  pose proof (be_decode_slice_range d 57 4) as Hr.
  pose proof (be_decode_slice_range d (61 + n) 4) as Hi.
  pose proof (be_decode_slice_range d (65 + n) 4) as Hd.
  change (256 ^ Z.of_nat 4) with (2 ^ 32) in Hr, Hi, Hd.
  assert (Hs : FileChunkMessage_Serialize
                 {| chunk_header := deserialize_header d;
                    chunk_file_id := bytes_string (slice 61 n d);
                    _chunk_index := be_decode (slice (61 + n) 4 d);
                    _data := slice (69 + n) k d |}
               = take (69 + n + k) d).
  { unfold FileChunkMessage_Serialize.
    cbn [chunk_header chunk_file_id _chunk_index _data].
    rewrite serialize_deserialize_header, size_bytes_string, string_bytes_string,
      !length_slice by (done || lia).
    rewrite (be_encode_length32 d 57 n), (be_encode_length32 d (65 + n) k)
      by (done || lia).
    rewrite be_encode_decode_sized by (apply length_slice; lia).
    change (take 57 d) with (slice 0 57 d).
    rewrite (slice_cat d (65 + n) 4 k (69 + n)) by lia.
    rewrite (slice_cat d (61 + n) 4 (4 + k) (65 + n)) by lia.
    rewrite (slice_cat d 61 n (4 + (4 + k)) (61 + n)) by lia.
    rewrite (slice_cat d 57 4 (n + (4 + (4 + k))) 61) by lia.
    rewrite (slice_cat d 0 57 (4 + (n + (4 + (4 + k)))) 57) by lia.
    unfold slice. cbn [drop]. f_equal. lia. }
  split.
  - split; [|split; [|split]]; cbn [chunk_header chunk_file_id _chunk_index _data].
    + apply valid_deserialize_header. lia.
    + rewrite size_bytes_string, length_slice by lia. lia.
    + lia.
    + rewrite length_slice by lia. lia.
  - rewrite Hs at 2. rewrite length_take, Nat.min_l by lia. exact Hs.
Qed.

Lemma FileTransferCompleteMessage_parsed d m :
  FileTransferCompleteMessage_Deserialize d = Some m ->
  valid_FileTransferCompleteMessage m
  /\ (length (FileTransferCompleteMessage_Serialize m) <= length d)%nat.
Proof.
  intros (n & k & Hlen & Ht & Hn & Hk & ->)%FileTransferCompleteMessage_Deserialize_inv.
  pose proof (be_decode_slice_range d 57 4) as Hr.
  pose proof (be_decode_slice_range d (62 + n) 4) as Hd.
  change (256 ^ Z.of_nat 4) with (2 ^ 32) in Hr, Hd.
  assert (Hh : valid_Header (deserialize_header d))
    by (apply valid_deserialize_header; lia).
  split.
  - split; [|split];
      cbn [complete_header complete_file_id _success _error_message].
    + done.
    + rewrite size_bytes_string, length_slice by lia. lia.
    + rewrite size_bytes_string, length_slice by lia. lia.
  - unfold FileTransferCompleteMessage_Serialize.
    cbn [complete_header complete_file_id _success _error_message].
    rewrite !length_app, length_serialize_header, !length_be_encode,
      !string_bytes_string, !length_slice by (done || lia).
    cbn [length]. lia.
Qed.

Lemma Deserialize_type t d m :
  Deserialize t d = Some m -> GetType m = t /\ has_type t d = true.
Proof.
  destruct t; cbn [Deserialize]; try done; intros H;
    apply fmap_Some in H as (c & H & ->); (split; [done|]).
  - by apply ChatMessage_Deserialize_inv in H as (? & ? & ? & _).
  - by apply FileTransferRequestMessage_Deserialize_inv in H as (? & ? & ? & _).
  - by apply FileChunkMessage_Deserialize_inv in H as (? & ? & ? & ? & _).
  - by apply FileTransferCompleteMessage_Deserialize_inv in H as (? & ? & ? & ? & _).
Qed.

Lemma prefix_length (s d : ByteBuffer) : s = take (length s) d -> (length s <= length d)%nat.
Proof. intros H. apply (f_equal length) in H. rewrite length_take in H. lia. Qed.

Lemma Deserialize_parsed t d m :
  Deserialize t d = Some m ->
  valid_Message m /\ (length (Serialize m) <= length d)%nat
  /\ (t <> FILE_TRANSFER_COMPLETE -> Serialize m = take (length (Serialize m)) d).
Proof.
  destruct t; cbn [Deserialize]; try done; intros H;
    apply fmap_Some in H as (c & H & ->); cbn [valid_Message Serialize].
  - apply ChatMessage_parsed in H as [Hv Hs].
    split; [done|]. split; [by apply prefix_length|done].
  - apply FileTransferRequestMessage_parsed in H as [Hv Hs].
    split; [done|]. split; [by apply prefix_length|done].
  - apply FileChunkMessage_parsed in H as [Hv Hs].
    split; [done|]. split; [by apply prefix_length|done].
  - apply FileTransferCompleteMessage_parsed in H as [Hv Hs]. done.
Qed.


(** The factory returns what the class's own [Deserialize] reads, for the
    two kinds it has a case for. *)
Lemma CreateFromBuffer_Deserialize t d m :
  factory_kind t = true -> Deserialize t d = Some m -> CreateFromBuffer d = Some m.
Proof.
  intros Hk H. pose proof (Deserialize_type t d m H) as [_ Ht].
  pose proof (Deserialize_parsed t d m H) as (Hv & Hlen & _).
  pose proof (length_Serialize_ge m Hv) as H57.
  destruct d as [|b d]; [done|].
  rewrite (CreateFromBuffer_tag (b :: d) b) by done.
  destruct (Nat.ltb_spec (length (b :: d)) 33); [lia|].
  cbn [has_type] in Ht. apply Z.eqb_eq in Ht. rewrite Ht.
  destruct t; try discriminate Hk; exact H.
Qed.

Lemma Deserialize_CreateFromBuffer d m :
  CreateFromBuffer d = Some m -> Deserialize (GetType m) d = Some m.
Proof.
  intros H. pose proof (CreateFromBuffer_type d m H) as Hk.
  destruct d as [|b d]; [done|].
  rewrite (CreateFromBuffer_tag (b :: d) b) in H by done.
  destruct (length (b :: d) <? 33)%nat; [done|].
  destruct (byte_to_Z b =? 0).
  - pose proof (Deserialize_type _ _ _ H) as [-> _]. exact H.
  - destruct (byte_to_Z b =? 1); [|done].
    pose proof (Deserialize_type _ _ _ H) as [-> _]. exact H.
Qed.

Lemma MessageType_code_inj t t' : MessageType_code t = MessageType_code t' -> t = t'.
Proof. by destruct t, t'. Qed.

Lemma has_type_Serialize t m : has_type t (Serialize m) = true -> t = GetType m.
Proof.
  destruct (Serialize_head m) as [rest ->]. cbn [has_type].
  rewrite byte_to_of_Z. intros H%Z.eqb_eq.
  rewrite Z.mod_small in H by (destruct (GetType m); cbn; lia).
  symmetry. by apply MessageType_code_inj.
Qed.

(** X1. [Deserialize] reads a message from the front of its buffer and does
    not look at what follows: if a buffer parses to [m], the same buffer
    with any bytes appended parses to [m] too, by the class's own
    [Deserialize] and, for the two kinds it knows, by the factory. *)
Theorem trailing_bytes_ignored t d junk m :
  Deserialize t d = Some m ->
  Deserialize t (d ++ junk) = Some m
  /\ (factory_kind t = true -> CreateFromBuffer (d ++ junk) = Some m).
Proof.
  intros H. pose proof (Deserialize_app t d junk m H) as Happ.
  split; [exact Happ|]. intros Hk. by apply (CreateFromBuffer_Deserialize t).
Qed.

Lemma trailing_bytes_ignored_witness :
  Deserialize CHAT_MESSAGE (Serialize Samples.sample_chat ++ [x00; xff])
  = Some Samples.sample_chat
  /\ (factory_kind CHAT_MESSAGE = true ->
      CreateFromBuffer (Serialize Samples.sample_chat ++ [x00; xff])
      = Some Samples.sample_chat).
Proof.
  apply (trailing_bytes_ignored CHAT_MESSAGE (Serialize Samples.sample_chat)).
  vm_compute. reflexivity.
Defined.

(** X2. Whatever [Deserialize] accepts is a well-formed message of the kind
    asked for, no longer than the buffer; for a chat message, a transfer
    request and a file chunk, serializing it again gives back the bytes it
    was read from, so the buffer is that serialization followed by bytes
    that were not looked at. The same holds of what the factory returns. *)
Theorem parsed_message_writes_back t d m :
  Deserialize t d = Some m ->
  valid_Message m /\ GetType m = t
  /\ (length (Serialize m) <= length d)%nat
  /\ (t <> FILE_TRANSFER_COMPLETE -> exists rest, d = Serialize m ++ rest)
  /\ (CreateFromBuffer d = Some m -> exists rest, d = Serialize m ++ rest).
Proof.
  intros H. pose proof (Deserialize_parsed t d m H) as (Hv & Hlen & Hs).
  pose proof (Deserialize_type t d m H) as [Ht _].
  assert (Hrest : t <> FILE_TRANSFER_COMPLETE -> exists rest, d = Serialize m ++ rest).
  { intros Hne. exists (drop (length (Serialize m)) d).
    rewrite (Hs Hne) at 1. by rewrite take_drop. }
  split; [done|]. split; [done|]. split; [done|]. split; [done|].
  intros Hf. apply Hrest. apply CreateFromBuffer_type in Hf.
  rewrite Ht in Hf. by destruct t.
Qed.

Lemma parsed_message_writes_back_witness :
  valid_Message Samples.sample_chunk /\ GetType Samples.sample_chunk = FILE_CHUNK
  /\ (length (Serialize Samples.sample_chunk)
      <= length (Serialize Samples.sample_chunk ++ [x01]))%nat
  /\ (FILE_CHUNK <> FILE_TRANSFER_COMPLETE ->
      exists rest, Serialize Samples.sample_chunk ++ [x01]
                   = Serialize Samples.sample_chunk ++ rest)
  /\ (CreateFromBuffer (Serialize Samples.sample_chunk ++ [x01])
      = Some Samples.sample_chunk ->
      exists rest, Serialize Samples.sample_chunk ++ [x01]
                   = Serialize Samples.sample_chunk ++ rest).
Proof.
  apply (parsed_message_writes_back FILE_CHUNK
           (Serialize Samples.sample_chunk ++ [x01]) Samples.sample_chunk).
  vm_compute. reflexivity.
Defined.

(** The completion message is the exception: any non-zero flag byte reads as
    success and is written back as 1. *)
Example complete_flag_not_written_back :
  let m := {| complete_header := Samples.sample_header; complete_file_id := "f";
              _success := true; _error_message := "" |} in
  let d := <[62%nat := "002"%byte]> (FileTransferCompleteMessage_Serialize m) in
  FileTransferCompleteMessage_Deserialize d = Some m
  /\ FileTransferCompleteMessage_Serialize m <> take (length d) d.
Proof. split; [vm_compute; reflexivity|vm_compute; discriminate]. Qed.

(** X3. A serialized message cut short is rejected: no proper prefix of
    [Serialize m] is accepted by the [Deserialize] of any class, nor by the
    factory. *)
Theorem truncated_message_rejected m k t :
  valid_Message m -> (k < length (Serialize m))%nat ->
  Deserialize t (take k (Serialize m)) = None
  /\ CreateFromBuffer (take k (Serialize m)) = None.
Proof.
  intros Hv Hk.
  assert (Hnone : forall t', Deserialize t' (take k (Serialize m)) = None).
  { intros t'. destruct (Deserialize t' (take k (Serialize m))) as [m'|] eqn:E; [|done].
    exfalso.
    pose proof (Deserialize_parsed _ _ _ E) as (_ & Hlen & _).
    pose proof (Deserialize_app _ _ (drop k (Serialize m)) _ E) as Hfull.
    rewrite take_drop in Hfull.
    pose proof (Deserialize_type _ _ _ Hfull) as [_ Ht].
    apply has_type_Serialize in Ht. subst t'.
    rewrite (Deserialize_Serialize m Hv) in Hfull. injection Hfull as <-.
    rewrite length_take in Hlen. lia. }
  split; [apply Hnone|].
  destruct (CreateFromBuffer (take k (Serialize m))) as [m'|] eqn:E; [|done].
  apply Deserialize_CreateFromBuffer in E. by rewrite Hnone in E.
Qed.

Lemma truncated_message_rejected_witness :
  Deserialize CHAT_MESSAGE (take 62 (Serialize Samples.sample_chat)) = None
  /\ CreateFromBuffer (take 62 (Serialize Samples.sample_chat)) = None.
Proof.
  apply (truncated_message_rejected Samples.sample_chat 62 CHAT_MESSAGE).
  - exact valid_sample_chat.
  - vm_compute. lia.
Defined.

(** X4. Two well-formed messages with the same serialization are the same
    message: kind, sender, id, timestamp and body can all be told from the
    bytes. *)
Theorem Serialize_injective m1 m2 :
  valid_Message m1 -> valid_Message m2 -> Serialize m1 = Serialize m2 -> m1 = m2.
Proof.
  intros H1 H2 E.
  pose proof (Deserialize_Serialize m1 H1) as D1.
  pose proof (Deserialize_Serialize m2 H2) as D2.
  rewrite E in D1. pose proof (Deserialize_type _ _ _ D1) as [_ Ht].
  apply has_type_Serialize in Ht. rewrite Ht, D2 in D1. by injection D1.
Qed.

Lemma Serialize_injective_witness : Samples.sample_chat = Samples.sample_chat.
Proof.
  apply (Serialize_injective Samples.sample_chat Samples.sample_chat).
  - exact valid_sample_chat.
  - exact valid_sample_chat.
  - reflexivity.
Defined.


(** *** Frames on a connection *)

Lemma length_frame m : length (frame m) = (4 + length (Serialize m))%nat.
Proof. unfold frame. by rewrite length_app, length_be_encode. Qed.



Lemma ReadMessage_loop_partial fuel m k :
  Z.of_nat (length (Serialize m)) < 2 ^ 32 -> (k < length (frame m))%nat ->
  ReadMessage_loop fuel (take k (frame m)) = [].
Proof.
  intros Hlen Hk. rewrite length_frame in Hk.
  destruct fuel as [|fuel]; [done|]. cbn [ReadMessage_loop].
  rewrite length_take, length_frame.
  destruct (Nat.ltb_spec (k `min` (4 + length (Serialize m))) 4) as [|H4]; [done|].
  assert (Hsz : take 4 (frame m) = be_encode 4 (Z.of_nat (length (Serialize m)))).
  { unfold frame. cbv zeta. unfold to_uint32. rewrite Z.mod_small by lia.
    apply take_app_length'. by rewrite length_be_encode. }
  rewrite take_take, Nat.min_l, Hsz by lia.
  rewrite be_decode_encode, Z.mod_small, Nat2Z.id
    by (change (256 ^ Z.of_nat 4) with (2 ^ 32); lia).
  rewrite length_drop, length_take, length_frame.
  destruct (Nat.ltb_spec (k `min` (4 + length (Serialize m)) - 4) (length (Serialize m)));
    [done|lia].
Qed.




End ParserFacts.

(** ** The public-key wrappers *)

Module AsymmetricFacts.
Import Bytes BytesFacts Crypto CryptoFacts Asymmetric.

Section Box.
Context {box : SodiumBox} (contract : BoxContract box).

(** X6. What [AsymmetricEncrypt] returns for a receiver is the 24-byte nonce
    it drew followed by the sealed message, 40 bytes more than the
    plaintext, and [AsymmetricDecrypt] with the sender's public key and the
    receiver's secret key takes the nonce off the front and returns the
    plaintext, libsodium keeping its documented contract. *)
Theorem AsymmetricDecrypt_AsymmetricEncrypt nonce p pk_s sk_s pk_r sk_r :
  length nonce = NONCE_SIZE ->
  crypto_box_keypair pk_s sk_s -> crypto_box_keypair pk_r sk_r ->
  exists blob,
    AsymmetricEncrypt nonce p pk_r sk_s = Returns blob
    /\ take NONCE_SIZE blob = nonce
    /\ length blob = (length p + 40)%nat
    /\ AsymmetricDecrypt blob pk_s sk_r = Returns p.
Proof.
  intros Hn Hs Hr.
  destruct (box_easy_ok box contract p nonce pk_r sk_r sk_s Hn Hr) as (c & Hc & Hlen).
  unfold crypto_box_MACBYTES in Hlen.
  exists (nonce ++ c). unfold AsymmetricEncrypt. rewrite Hc. cbn [Z.eqb negb].
  rewrite (fill_exact _ c) by (by rewrite length_ByteBuffer_sized).
  rewrite fill_exact
    by (rewrite !length_ByteBuffer_sized, length_app, Hlen;
        unfold crypto_box_MACBYTES; lia).
  split; [done|]. split; [by apply take_app_length'|].
  split; [rewrite length_app, Hn, Hlen; unfold NONCE_SIZE; lia|].
  unfold AsymmetricDecrypt.
  destruct (Nat.ltb_spec (length (nonce ++ c)) (NONCE_SIZE + crypto_box_MACBYTES)) as [H|_].
  { rewrite length_app, Hn, Hlen in H. unfold crypto_box_MACBYTES in H. lia. }
  rewrite take_app_length', drop_app_length' by done.
  rewrite (box_open_easy_ok box contract p nonce c pk_s sk_s pk_r sk_r Hn Hs Hr Hc).
  cbn [Z.eqb negb]. rewrite fill_exact; [done|].
  rewrite length_ByteBuffer_sized, Hlen. unfold crypto_box_MACBYTES. lia.
Qed.

End Box.

Lemma repeat_box_contract : BoxContract repeat_box.
Proof.
  pose proof repeat_sodium_contract as [Heasy Hopen].
  cbn [crypto_secretbox_easy crypto_secretbox_open_easy repeat_sodium] in *.
  split; cbn [crypto_box_easy crypto_box_open_easy crypto_box_keypair repeat_box].
  - intros m n pk_r sk_r sk_s Hn _. unfold secretbox_easy. cbv zeta.
    eexists. split; [reflexivity|].
    unfold fold_auth, repeat_stream, crypto_box_MACBYTES.
    rewrite length_app, length_map, length_seq, length_xor_bytes
      by (rewrite length_drop, length_map, length_seq; lia).
    lia.
  - intros m n c pk_s sk_s pk_r sk_r Hn [-> Hs] [-> Hr] Hc.
    apply Hopen; [done| |done].
    rewrite length_xor_bytes by lia. done.
Qed.

Lemma AsymmetricDecrypt_AsymmetricEncrypt_witness :
  exists blob,
    AsymmetricEncrypt Samples.sample_nonce Samples.sample_plaintext
      Samples.sample_key (replicate 32 "s"%byte) = Returns blob
    /\ take NONCE_SIZE blob = Samples.sample_nonce
    /\ length blob = (length Samples.sample_plaintext + 40)%nat
    /\ AsymmetricDecrypt blob (replicate 32 "s"%byte) Samples.sample_key
       = Returns Samples.sample_plaintext.
Proof.
  apply (AsymmetricDecrypt_AsymmetricEncrypt repeat_box_contract
           Samples.sample_nonce Samples.sample_plaintext
           (replicate 32 "s"%byte) (replicate 32 "s"%byte)
           Samples.sample_key Samples.sample_key).
  - reflexivity.
  - split; reflexivity.
  - split; reflexivity.
Defined.

(** X7. Whatever libsodium does, the four wrappers hand out buffers of the
    documented sizes and refuse inputs too short to hold a tag: a
    ciphertext is 16 bytes longer than its plaintext, a public-key blob 40
    bytes longer, and [Decrypt] below 16 bytes and [AsymmetricDecrypt] below
    40 bytes leave by [invalid_argument] before libsodium is called. *)
Theorem wrapper_buffer_sizes {sodium : Sodium} {box : SodiumBox}
    (input output key key' nonce : ByteBuffer) :
  (Encrypt input key nonce = Returns output ->
   length output = (length input + 16)%nat)
  /\ (Decrypt input key nonce = Returns output ->
      length input = (length output + 16)%nat)
  /\ ((length input < 16)%nat ->
      Decrypt input key nonce = Throws "Ciphertext too short")
  /\ (AsymmetricEncrypt nonce input key key' = Returns output ->
      length output = (length nonce + length input + 16)%nat)
  /\ (AsymmetricDecrypt input key key' = Returns output ->
      length input = (length output + 40)%nat)
  /\ ((length input < 40)%nat ->
      AsymmetricDecrypt input key key' = Throws "Encrypted data too short").
Proof.
  unfold Encrypt, Decrypt, AsymmetricEncrypt, AsymmetricDecrypt,
    crypto_secretbox_MACBYTES, crypto_box_MACBYTES, NONCE_SIZE.
  repeat split.
  - destruct (crypto_secretbox_easy input nonce key) as [rc written].
    destruct (negb (rc =? 0)); [done|]. intros [= <-].
    by rewrite length_fill, length_ByteBuffer_sized.
  - destruct (Nat.ltb_spec (length input) 16); [done|].
    destruct (crypto_secretbox_open_easy input nonce key) as [rc written].
    destruct (negb (rc =? 0)); [done|]. intros [= <-].
    rewrite length_fill, length_ByteBuffer_sized. lia.
  - intros H. by destruct (Nat.ltb_spec (length input) 16); [|lia].
  - destruct (crypto_box_easy input nonce key key') as [rc written].
    destruct (negb (rc =? 0)); [done|]. intros [= <-].
    rewrite length_fill, !length_ByteBuffer_sized. lia.
  - destruct (Nat.ltb_spec (length input) (24 + 16)); [done|].
    destruct (crypto_box_open_easy _ _ key key') as [rc written].
    destruct (negb (rc =? 0)); [done|]. intros [= <-].
    rewrite length_fill, length_ByteBuffer_sized, length_drop. lia.
  - intros H. by destruct (Nat.ltb_spec (length input) (24 + 16)); [|lia].
Qed.

Lemma wrapper_buffer_sizes_witness :
  Decrypt (sodium := repeat_sodium) [x00; x01] Samples.sample_key Samples.sample_nonce
  = Throws "Ciphertext too short"
  /\ AsymmetricDecrypt (box := repeat_box) [x00; x01] Samples.sample_key
       Samples.sample_key
     = Throws "Encrypted data too short".
Proof.
  pose proof (wrapper_buffer_sizes (sodium := repeat_sodium) (box := repeat_box)
                [x00; x01] [] Samples.sample_key Samples.sample_key
                Samples.sample_nonce) as (_ & _ & Hd & _ & _ & Ha).
  split; [apply Hd|apply Ha]; cbn; lia.
Defined.

End AsymmetricFacts.

(** ** The conversation with a peer and the merged history *)

Module ConversationFacts.
Import Bytes Wire Chat Conversation ChatFacts.

Lemma push_back_other (peer_id peer : PeerId) (info : ChatInfo) (h : History) :
  peer_id <> peer -> push_back peer_id info h !! peer = h !! peer.
Proof. intros Hne. unfold push_back. by rewrite lookup_insert_ne. Qed.

Lemma push_back_entries (peer_id peer : PeerId) (info : ChatInfo) (h : History) :
  default [] (push_back peer_id info h !! peer)
  = default [] (h !! peer) ++ (if bool_decide (peer_id = peer) then [info] else []).
Proof.
  case_bool_decide as Hp.
  - subst. apply push_back_stored.
  - by rewrite push_back_other, app_nil_r.
Qed.

Lemma BroadcastMessage_entries (me : PeerId) (name message : string) (ts : Z)
    (peers : list PeerId) (peer : PeerId) : forall h : History,
  default [] (BroadcastMessage me name message ts peers h !! peer)
  = default [] (h !! peer)
    ++ entries_with me name peer (Broadcast message ts peers).
Proof.
  unfold BroadcastMessage. cbn [entries_with].
  induction peers as [|p peers IH]; intros h; cbn [fold_left List.filter fmap list_fmap].
  - by rewrite app_nil_r.
  - rewrite IH, push_back_entries, <- app_assoc. f_equal.
    by case_bool_decide.
Qed.

Lemma act_entries (me : PeerId) (name : string) (peer : PeerId) (a : Action)
    (h : History) :
  default [] (act me name a h !! peer)
  = default [] (h !! peer) ++ entries_with me name peer a.
Proof.
  destruct a as [p message ts [|]|message ts peers|[c|r|c|c]];
    cbn [act SendMessage HandleMessage entries_with snd]; rewrite ?app_nil_r; try done.
  - apply push_back_entries.
  - apply BroadcastMessage_entries.
  - apply push_back_entries.
Qed.

(** X8. The history kept for a peer is the conversation with that peer:
    after any run of [SendMessage] and [BroadcastMessage] calls and inbound
    messages, it holds, behind what was there and in the order things
    happened, the messages sent to the peer with success, the broadcasts
    made while the peer was connected, and the chat messages received from
    it (under the name "Unknown"). A send that failed and an inbound
    message that is no chat message leave no entry, and
    [GetChatHistory] returns the last [max_messages] of them. *)
Theorem history_is_the_conversation (me : PeerId) (name : string) (peer : PeerId)
    (actions : list Action)
    (h : History) (max_messages : nat) :
  let conversation :=
    default [] (h !! peer) ++ actions ≫= entries_with me name peer in
  let after := fold_left (fun h a => act me name a h) actions h in
  default [] (after !! peer) = conversation
  /\ GetChatHistory after peer max_messages
     = drop (length conversation - max_messages) conversation.
Proof.
  cbv zeta.
  assert (Hc : forall h : History,
             default [] (fold_left (fun h a => act me name a h) actions h !! peer)
             = default [] (h !! peer) ++ actions ≫= entries_with me name peer).
  { induction actions as [|a actions IH]; intros h'; cbn [fold_left mbind list_bind].
    - by rewrite app_nil_r.
    - by rewrite IH, act_entries, <- app_assoc. }
  split; [apply Hc|].
  rewrite GetChatHistory_drop. cbv zeta. rewrite Hc. f_equal. lia.
Qed.

Section Sorted.
Variable sort : list ChatInfo -> list ChatInfo.
Hypothesis sort_ok : sorts_by_timestamp sort.

(** X9. [GetAllChatHistory(max)] returns the [max] newest of all stored
    entries, or all of them when there are no more than [max]: as many as
    that, oldest first, each one stored for some peer, and none of the
    entries left out newer than one returned, [std::sort] doing what the
    standard asks of it. *)
Theorem GetAllChatHistory_newest (h : History) (max_messages : nat) :
  let result := GetAllChatHistory sort h max_messages in
  length result = min max_messages (length (stored_entries h))
  /\ StronglySorted not_after result
  /\ (forall info, info ∈ result ->
        exists peer history, h !! peer = Some history /\ info ∈ history)
  /\ exists older,
       older ++ result ≡ₚ stored_entries h
       /\ forall a b, a ∈ older -> b ∈ result -> timestamp a <= timestamp b.
Proof.
  cbv zeta. destruct (sort_ok (stored_entries h)) as [Hperm Hsorted].
  assert (Hlen : length (sort (stored_entries h)) = length (stored_entries h))
    by (by rewrite Hperm).
  set (s := sort (stored_entries h)) in *.
  assert (Hr : GetAllChatHistory sort h max_messages
               = drop (length s - max_messages) s).
  { unfold GetAllChatHistory. cbv zeta. fold s.
    destruct (Nat.ltb_spec max_messages (length s)) as [H|H]; [done|].
    replace (length s - max_messages)%nat with 0%nat by lia. done. }
  rewrite Hr. set (k := (length s - max_messages)%nat).
  assert (Hs : s = take k s ++ drop k s) by (by rewrite take_drop).
  split; [rewrite length_drop; lia|]. split.
  - rewrite Hs in Hsorted. by apply StronglySorted_app_1_r in Hsorted.
  - split.
    + intros info Hin.
      assert (Hall : info ∈ stored_entries h).
      { rewrite <- Hperm, Hs. apply elem_of_app. by right. }
      unfold stored_entries in Hall.
      apply list_elem_of_join in Hall as (history & Hin' & Hh).
      apply list_elem_of_fmap in Hh as ([peer history'] & -> & Hh).
      apply elem_of_map_to_list in Hh. by exists peer, history'.
    + exists (take k s). split; [by rewrite take_drop|].
      intros a b Ha Hb. rewrite Hs in Hsorted.
      by apply (StronglySorted_app_1_elem_of _ _ _ a b) in Hsorted.
Qed.

End Sorted.

#[local] Instance not_after_trans : Transitive not_after.
Proof. intros a b c. unfold not_after. lia. Qed.

#[local] Instance not_after_total : Total not_after.
Proof. intros a b. unfold not_after. lia. Qed.

Lemma merge_sort_sorts : sorts_by_timestamp (merge_sort not_after).
Proof.
  intros l. split; [apply merge_sort_Permutation|apply StronglySorted_merge_sort; apply _].
Qed.

Lemma GetAllChatHistory_newest_witness :
  let result := GetAllChatHistory (merge_sort not_after) Samples.sample_history 2 in
  length result = min 2 (length (stored_entries Samples.sample_history))
  /\ StronglySorted not_after result
  /\ (forall info, info ∈ result ->
        exists peer history,
          Samples.sample_history !! peer = Some history /\ info ∈ history)
  /\ exists older,
       older ++ result ≡ₚ stored_entries Samples.sample_history
       /\ forall a b, a ∈ older -> b ∈ result -> timestamp a <= timestamp b.
Proof.
  exact (GetAllChatHistory_newest (merge_sort not_after) merge_sort_sorts
           Samples.sample_history 2).
Defined.

End ConversationFacts.

(** ** Discovery over time: new keys, time-outs, ports *)

Module ExpiryFacts.
Import Bytes Discovery Expiry DiscoveryFacts.
Local Open Scope string_scope.
Local Open Scope Z_scope.

Lemma on_datagram_cases now sender_ip payload st :
  on_datagram now sender_ip payload st = (st, [])
  \/ exists port_str port,
       on_datagram now sender_ip payload st
       = record_peer now sender_ip port_str port st.
Proof.
  unfold on_datagram. destruct (parse_announce _) as [[port_str port]|]; [|by left].
  destruct (is_own_announce st sender_ip port); [by left|]. right. eauto.
Qed.

Lemma record_peer_counts now sender_ip port_str port st :
  let after := record_peer now sender_ip port_str port st in
  _port after.1 = _port st
  /\ _discovered_callback after.1 = _discovered_callback st
  /\ (forall key, is_Some (_discovered_peers st !! key) ->
                  is_Some (_discovered_peers after.1 !! key))
  /\ (size (_discovered_peers st) <= size (_discovered_peers after.1))%nat
  /\ length after.2
     = if _discovered_callback st
       then (size (_discovered_peers after.1) - size (_discovered_peers st))%nat
       else 0%nat.
Proof.
  cbv zeta. unfold record_peer. cbn [fst snd _port _discovered_peers _discovered_callback].
  set (key := sender_ip +:+ ":" +:+ port_str).
  split; [done|]. split; [done|]. split.
  { intros k Hk. destruct (decide (k = key)) as [->|Hne].
    - rewrite lookup_insert_eq. eauto.
    - by rewrite lookup_insert_ne. }
  destruct (_discovered_peers st !! key) as [seen|] eqn:E.
  - rewrite bool_decide_eq_false_2 by done. cbn [andb length].
    assert (Hsize : size (<[key := now]> (_discovered_peers st))
                    = size (_discovered_peers st)).
    { rewrite <- (insert_delete_eq (_discovered_peers st)).
      rewrite <- (insert_delete_id (_discovered_peers st) key seen) at 2 by done.
      rewrite !map_size_insert_None by apply lookup_delete_eq. done. }
    rewrite Hsize. split; [lia|]. destruct (_discovered_callback st); lia.
  - rewrite bool_decide_eq_true_2 by done. cbn [andb].
    rewrite map_size_insert_None by done.
    split; [lia|]. destruct (_discovered_callback st); cbn [length]; lia.
Qed.

(** X10. The listen loop never forgets a peer and reports each one once: over
    any run of datagrams the local port and the callback slot stay as they
    were, every key that was in the table is still there, and the number of
    calls of the discovered callback is the number of keys the table has
    gained (no call at all without a callback). *)
Theorem listen_reports_new_keys_once datagrams st :
  let after := ListenThreadFunc datagrams st in
  _port after.1 = _port st
  /\ _discovered_callback after.1 = _discovered_callback st
  /\ (forall key, is_Some (_discovered_peers st !! key) ->
                  is_Some (_discovered_peers after.1 !! key))
  /\ (size (_discovered_peers st) <= size (_discovered_peers after.1))%nat
  /\ length after.2
     = if _discovered_callback st
       then (size (_discovered_peers after.1) - size (_discovered_peers st))%nat
       else 0%nat.
Proof.
  cbv zeta. revert st.
  induction datagrams as [|[[now sender_ip] payload] datagrams IH]; intros st.
  - cbn [ListenThreadFunc fst snd length]. repeat split; try done.
    destruct (_discovered_callback st); lia.
  - cbn [ListenThreadFunc].
    assert (Hone :
      let after := on_datagram now sender_ip payload st in
      _port after.1 = _port st
      /\ _discovered_callback after.1 = _discovered_callback st
      /\ (forall key, is_Some (_discovered_peers st !! key) ->
                      is_Some (_discovered_peers after.1 !! key))
      /\ (size (_discovered_peers st) <= size (_discovered_peers after.1))%nat
      /\ length after.2
         = if _discovered_callback st
           then (size (_discovered_peers after.1) - size (_discovered_peers st))%nat
           else 0%nat).
    { destruct (on_datagram_cases now sender_ip payload st) as [->|(ps & p & ->)].
      - cbn [fst snd length]. repeat split; try done.
        destruct (_discovered_callback st); lia.
      - apply record_peer_counts. }
    cbv zeta in Hone.
    destruct (on_datagram now sender_ip payload st) as [st1 ev1].
    specialize (IH st1).
    destruct (ListenThreadFunc datagrams st1) as [st2 ev2].
    cbn [fst snd] in *.
    destruct Hone as (Hp1 & Hc1 & Hk1 & Hs1 & Hl1).
    destruct IH as (Hp2 & Hc2 & Hk2 & Hs2 & Hl2).
    split; [congruence|]. split; [congruence|]. split; [auto|]. split; [lia|].
    rewrite length_app, Hl1, Hl2, Hc1.
    destruct (_discovered_callback st); lia.
Qed.

Lemma lookup_clean_up ticks now st key :
  _discovered_peers (clean_up ticks now st) !! key
  = match _discovered_peers st !! key with
    | Some seen => if timed_out ticks now seen then None else Some seen
    | None => None
    end.
Proof.
  unfold clean_up. cbn [_discovered_peers].
  destruct (_discovered_peers st !! key) as [seen|] eqn:E.
  - destruct (timed_out ticks now seen) eqn:T.
    + apply map_lookup_filter_None. right. intros x Hx. cbn [snd].
      rewrite E in Hx. injection Hx as <-. by rewrite T.
    + apply map_lookup_filter_Some. by rewrite E.
  - apply map_lookup_filter_None. by left.
Qed.

(** X11. A peer stays in the table for 30 seconds after it was last heard:
    the clean-up of the broadcast loop erases an entry last refreshed more
    than 30 seconds before, and keeps one refreshed 30 seconds before or
    later. An announce that was silent because its peer was known is
    reported through the discovered callback again once the entry has been
    erased, and stays silent while it has not. *)
Theorem peer_times_out ticks now now' sender_ip payload port_str port seen st :
  parse_announce (received_message payload) = Some (port_str, port) ->
  port <> _port st -> _discovered_callback st = true ->
  let key := sender_ip +:+ ":" +:+ port_str in
  _discovered_peers st !! key = Some seen ->
  let cleaned := clean_up ticks now st in
  (on_datagram now' sender_ip payload st).2 = []
  /\ (30 * ticks < now - seen ->
      _discovered_peers cleaned !! key = None
      /\ (on_datagram now' sender_ip payload cleaned).2 = [discovered sender_ip port])
  /\ (now - seen <= 30 * ticks ->
      _discovered_peers cleaned !! key = Some seen
      /\ (on_datagram now' sender_ip payload cleaned).2 = []).
Proof.
  intros Hparse Hport Hcb. cbv zeta. intros Hseen.
  assert (Hrun : forall st',
             _port st' = _port st -> _discovered_callback st' = true ->
             (on_datagram now' sender_ip payload st').2
             = if bool_decide
                    (_discovered_peers st' !! (sender_ip +:+ ":" +:+ port_str) = None)
               then [discovered sender_ip port] else []).
  { intros st' Hp Hc. unfold on_datagram. rewrite Hparse, is_own_announce_port, Hp.
    destruct (Z.eqb_spec port (_port st)) as [|_]; [done|].
    unfold record_peer. cbn [snd]. rewrite Hc. by rewrite andb_true_r. }
  split.
  { rewrite Hrun by done. by rewrite Hseen, bool_decide_eq_false_2. }
  split; intros Hage.
  - assert (Hgone : _discovered_peers (clean_up ticks now st)
                      !! (sender_ip +:+ ":" +:+ port_str) = None).
    { rewrite lookup_clean_up, Hseen. unfold timed_out, PEER_TIMEOUT_SEC.
      by destruct (Z.ltb_spec (30 * ticks) (now - seen)); [|lia]. }
    split; [exact Hgone|]. rewrite Hrun by done.
    by rewrite Hgone, bool_decide_eq_true_2.
  - assert (Hkept : _discovered_peers (clean_up ticks now st)
                      !! (sender_ip +:+ ":" +:+ port_str) = Some seen).
    { rewrite lookup_clean_up, Hseen. unfold timed_out, PEER_TIMEOUT_SEC.
      by destruct (Z.ltb_spec (30 * ticks) (now - seen)); [lia|]. }
    split; [exact Hkept|]. rewrite Hrun by done.
    by rewrite Hkept, bool_decide_eq_false_2.
Qed.

Lemma peer_times_out_witness :
  let known :=
    (on_datagram 5 "192.168.1.5" (announce_datagram 9090) Samples.sample_discovery).1 in
  (on_datagram 40 "192.168.1.5" (announce_datagram 9090) known).2 = []
  /\ (on_datagram 40 "192.168.1.5" (announce_datagram 9090) (clean_up 1 36 known)).2
     = [discovered "192.168.1.5" 9090]
  /\ (on_datagram 40 "192.168.1.5" (announce_datagram 9090) (clean_up 1 35 known)).2
     = [].
Proof.
  cbv zeta.
  set (known := (on_datagram 5 "192.168.1.5" (announce_datagram 9090)
                   Samples.sample_discovery).1).
  assert (Hparse : parse_announce (received_message (announce_datagram 9090))
                   = Some ("9090", 9090)) by (vm_compute; reflexivity).
  assert (Hport : 9090 <> _port known) by (vm_compute; discriminate).
  assert (Hcb : _discovered_callback known = true) by (vm_compute; reflexivity).
  assert (Hseen : _discovered_peers known !! ("192.168.1.5" +:+ ":" +:+ "9090") = Some 5)
    by (vm_compute; reflexivity).
  pose proof (peer_times_out 1 36 40 "192.168.1.5" (announce_datagram 9090) "9090" 9090
                5 known Hparse Hport Hcb Hseen) as (Hsilent & Hout & _).
  pose proof (peer_times_out 1 35 40 "192.168.1.5" (announce_datagram 9090) "9090" 9090
                5 known Hparse Hport Hcb Hseen) as (_ & _ & Hin).
  split; [exact Hsilent|]. split; [apply Hout; lia|apply Hin; lia].
Defined.

Lemma digits_value_snoc ds d : digits_value (ds ++ [d]) = digits_value ds * 10 + d.
Proof. unfold digits_value. by rewrite fold_left_app. Qed.

Lemma digits_value_nonneg ds : Forall is_digit ds -> 0 <= digits_value ds.
Proof.
  induction ds as [|d ds IH] using rev_ind; intros H; [done|].
  apply Forall_app in H as [H1 H2]. apply Forall_inv in H2.
  rewrite digits_value_snoc. unfold is_digit in H2. specialize (IH H1). lia.
Qed.

Lemma stoi_digits_out_of_range ds :
  ds <> [] -> Forall is_digit ds -> INT_MAX < digits_value ds ->
  stoi (digits_string ds) = out_of_range.
Proof.
  intros Hne Hds Hmax. destruct ds as [|d ds]; [done|].
  assert (Hd : is_digit d) by (by inversion Hds).
  assert (Hskip : skip_spaces (digits_string (d :: ds)) = digits_string (d :: ds)).
  { clear -Hd. each_digit Hd; reflexivity. }
  unfold stoi. rewrite Hskip.
  assert (Hm : match digits_string (d :: ds) with
               | String "-" r => (true, r)
               | String "+" r => (false, r)
               | _ => (false, digits_string (d :: ds))
               end = (false, digits_string (d :: ds))).
  { clear -Hd. each_digit Hd; reflexivity. }
  rewrite Hm. rewrite read_digits_digits by done.
  change (fold_left (fun a d0 => a * 10 + d0) (d :: ds) (default 0 None))
    with (digits_value (d :: ds)).
  destruct (Z.leb_spec (digits_value (d :: ds)) INT_MAX) as [H|_]; [lia|].
  by rewrite andb_false_r.
Qed.

Lemma parse_announce_out_of_range ds :
  ds <> [] -> Forall is_digit ds -> INT_MAX < digits_value ds ->
  parse_announce (DISCOVERY_PREFIX +:+ ":" +:+ digits_string ds) = None.
Proof.
  intros Hne Hds Hmax. unfold parse_announce.
  set (message := DISCOVERY_PREFIX +:+ ":" +:+ digits_string ds).
  assert (H1 : substring 0 (String.length DISCOVERY_PREFIX) message = DISCOVERY_PREFIX)
    by reflexivity.
  assert (H2 : find_colon message = Some 17%nat) by reflexivity.
  assert (H4 : substr_from (17 + 1) message = digits_string ds) by reflexivity.
  rewrite H1, H2, H4, String.eqb_refl. cbn [negb].
  destruct (negb _); [done|]. by rewrite stoi_digits_out_of_range.
Qed.

(** X12. The port of an announce is what [std::stoi] reads of the text
    after the colon, cut to 16 bits, while the table key keeps the text as
    sent: a decimal text above 65535 is taken modulo 65536 (and skipped as
    the node's own if that equals the local port), two texts for one number
    make two keys, and a text above [INT_MAX] drops the datagram in the
    [catch] without a record or a callback. *)
Theorem announced_port_is_cut_to_16_bits now sender_ip ds st :
  ds <> [] -> Forall is_digit ds -> (length ds <= 200)%nat ->
  let text := digits_string ds in
  let value := digits_value ds in
  on_datagram now sender_ip
    (list_byte_of_string (DISCOVERY_PREFIX +:+ ":" +:+ text)) st
  = if INT_MAX <? value then (st, [])
    else if value mod 65536 =? _port st then (st, [])
    else record_peer now sender_ip text (value mod 65536) st.
Proof.
  intros Hne Hds Hlen. cbv zeta. unfold on_datagram.
  rewrite received_message_text.
  - destruct (Z.ltb_spec INT_MAX (digits_value ds)) as [Hbig|Hok].
    + by rewrite parse_announce_out_of_range.
    + rewrite parse_announce_digits by (done || by apply digits_value_nonneg).
      by rewrite is_own_announce_port.
  - unfold DISCOVERY_PREFIX. rewrite !append_cons, !append_nil_l. cbn [no_nul].
    repeat (split; [discriminate|]). by apply no_nul_digits_string.
  - unfold DISCOVERY_PREFIX. rewrite !append_cons, !append_nil_l.
    cbn [String.length]. rewrite length_digits_string. lia.
Qed.

Lemma announced_port_is_cut_to_16_bits_witness :
  on_datagram 5 "192.168.1.5" (list_byte_of_string "LINKNET_DISCOVERY:73616")
    Samples.sample_discovery
  = (Samples.sample_discovery, [])
  /\ on_datagram 5 "192.168.1.5" (list_byte_of_string "LINKNET_DISCOVERY:09090")
       Samples.sample_discovery
     = record_peer 5 "192.168.1.5" "09090" 9090 Samples.sample_discovery.
Proof.
  split.
  - apply (announced_port_is_cut_to_16_bits 5 "192.168.1.5" [7; 3; 6; 1; 6]
             Samples.sample_discovery).
    + discriminate.
    + repeat (apply Forall_cons_2; [unfold is_digit; lia|]). apply Forall_nil_2.
    + cbn. lia.
  - apply (announced_port_is_cut_to_16_bits 5 "192.168.1.5" [0; 9; 0; 9; 0]
             Samples.sample_discovery).
    + discriminate.
    + repeat (apply Forall_cons_2; [unfold is_digit; lia|]). apply Forall_nil_2.
    + cbn. lia.
Defined.

End ExpiryFacts.

(** ** Transfers from request to completion *)

Module TransfersFacts.
Import Bytes Wire FileTransfer Transfers FileTransferFacts.
Local Open Scope Z_scope.

(** Project the events of a trace that was added to. *)
Ltac events :=
  proj; rewrite ?omap_app, ?filter_app;
  cbn [omap list_omap verdict_of completion_of erased_completion_of chunk_of
       sent_chunk_of message_of filter list_filter is_sent app];
  rewrite ?app_nil_r, <- ?app_assoc; try reflexivity.

(** X13. A request the receiver does not take up leaves nothing behind: no
    transfer is filed and no file is created or written. When the request
    callback says no, or when it says yes (or is not set), the [downloads]
    directory is there or was made and the output file cannot be opened,
    the handler returns, and over a working session under the sender id of
    the message one FileTransferComplete with success false goes out, naming
    the file and giving the reason, "Transfer rejected by receiver" in the
    first case and "Failed to create output file" in the second. When the
    [downloads] directory cannot be made, [create_directories] throws: the
    exception leaves the handler, and nothing at all is sent. *)
Theorem refused_request_leaves_nothing st message reason :
  let sender := _sender (request_header message) in
  let filename := _filename message in
  let call := HandleFileTransferRequest message st in
  _outgoing_transfers call.2 = _outgoing_transfers st
  /\ (((exists f, _request_callback st = Some f
                  /\ f sender filename (_file_size message) = false)
       /\ reason = "Transfer rejected by receiver")
      \/ (accepts st message
          /\ creates_directories st (output_dir_of st) = true
          /\ ofstream_opens st (output_path_of st filename) = false
          /\ reason = "Failed to create output file") ->
      call.1 = returned tt
      /\ _incoming_transfers call.2 = _incoming_transfers st
      /\ files call.2 = files st
      /\ (session_up st sender ->
          exists h,
            omap verdict_of (trace call.2)
            = omap verdict_of (trace st)
              ++ [(sender, {| complete_header := h; complete_file_id := filename;
                              _success := false; _error_message := reason |})]))
  /\ (accepts st message -> creates_directories st (output_dir_of st) = false ->
      call.1 = filesystem_error
      /\ _incoming_transfers call.2 = _incoming_transfers st
      /\ files call.2 = files st
      /\ filter is_sent (trace call.2) = filter is_sent (trace st)).
Proof.
  cbv zeta. split; [apply HandleFileTransferRequest_outgoing|].
  unfold HandleFileTransferRequest, accepts, session_up, output_dir_of, output_path_of.
  split.
  - run. intros [[(f & Hcb & Hno) ->]|(Hacc & Hdir & Hopen & ->)].
    + rewrite Hcb, Hno. cbn [negb]. proj.
      destruct (drawn st (constructed st)) as [mid now]. proj.
      send_cases; (split; [done|]); (split; [done|]); (split; [done|]); try done.
      intros _. eexists. events.
    + destruct (_request_callback st) as [f|] eqn:Hcb.
      * rewrite Hacc. cbn [negb]. proj. rewrite Hdir. cbn [negb]. proj.
        rewrite Hopen. cbn [negb]. proj.
        destruct (drawn st (constructed st)) as [mid now]. proj.
        send_cases; (split; [done|]); (split; [done|]); (split; [done|]); try done.
        intros _. eexists. events.
      * cbn [negb]. proj. rewrite Hdir. cbn [negb]. proj.
        rewrite Hopen. cbn [negb]. proj.
        destruct (drawn st (constructed st)) as [mid now]. proj.
        send_cases; (split; [done|]); (split; [done|]); (split; [done|]); try done.
        intros _. eexists. events.
  - run. intros Hacc Hdir.
    destruct (_request_callback st) as [f|] eqn:Hcb.
    + rewrite Hacc. cbn [negb]. proj. rewrite Hdir. cbn [negb]. proj.
      repeat split; try done. events.
    + cbn [negb]. proj. rewrite Hdir. cbn [negb]. by proj.
Qed.

Lemma refused_request_leaves_nothing_witness :
  let call := HandleFileTransferRequest (Samples.sample_request 5)
                Scenarios.refusing_engine in
  call.1 = returned tt
  /\ _incoming_transfers call.2 = ∅
  /\ files call.2 = files Scenarios.refusing_engine
  /\ exists h,
       omap verdict_of (trace call.2)
       = [(Samples.alice,
           {| complete_header := h; complete_file_id := "e.bin";
              _success := false; _error_message := "Transfer rejected by receiver" |})].
Proof.
  pose proof (refused_request_leaves_nothing Scenarios.refusing_engine
                (Samples.sample_request 5) "Transfer rejected by receiver") as H.
  cbv zeta in H. destruct H as (_ & H & _).
  destruct H as (Hret & Hin & Hfiles & Hsent).
  { left. split; [|reflexivity]. eexists. split; reflexivity. }
  cbv zeta. split; [exact Hret|]. split; [exact Hin|]. split; [exact Hfiles|].
  apply Hsent. reflexivity.
Defined.

(** With no [downloads] directory to be had, the request ends in the
    exception and the sender hears nothing. *)
Example request_without_downloads :
  HandleFileTransferRequest (Samples.sample_request 5) Scenarios.no_downloads
  = (filesystem_error, Scenarios.no_downloads).
Proof. reflexivity. Qed.



(** X15. A FileTransferComplete that comes in ends the outgoing transfer
    filed under its sender and file id and nothing else: the entry is
    erased and the completed callback, when set, is called with the
    transfer's path and the message's flag, and with the message's error text
    only when the flag is false. Incoming transfers, files and sessions are
    never touched and nothing is sent, so a sender's cancellation does not
    end the receiver's side; a message for a key with no outgoing transfer
    changes nothing at all. *)
Theorem completion_message_effect st message :
  let key := (_sender (complete_header message), complete_file_id message) in
  let st1 := (HandleMessage (FileTransferComplete message) st).2 in
  _incoming_transfers st1 = _incoming_transfers st
  /\ files st1 = files st
  /\ _peer_sessions st1 = _peer_sessions st
  /\ filter is_sent (trace st1) = filter is_sent (trace st)
  /\ _outgoing_transfers st1 = delete key (_outgoing_transfers st)
  /\ omap completion_of (trace st1)
     = omap completion_of (trace st)
       ++ match _outgoing_transfers st !! key with
          | Some transfer =>
            if _completed_callback st
            then [(key.1, file_path transfer, _success message,
                   if _success message then "" else _error_message message)]
            else []
          | None => []
          end
  /\ (_outgoing_transfers st !! key = None -> st1 = st).
Proof.
  cbv zeta. cbn [HandleMessage snd]. unfold HandleFileTransferComplete. run.
  destruct (_outgoing_transfers st !! _) as [t|] eqn:Hout.
  - destruct (_completed_callback st); proj; repeat split; try done; events.
  - cbn [snd]. rewrite delete_id, app_nil_r by done. done.
Qed.

(** What a write that breaks lets through is the front of the frame. *)
Lemma take_frame n message :
  let data := Serialize message in
  let size_network := be_encode 4 (to_uint32 (Z.of_nat (length data))) in
  ((n < 4)%nat -> take n size_network = take n (frame message))
  /\ ((4 <= n)%nat -> size_network ++ take (n - 4) data = take n (frame message)).
Proof.
  cbv zeta. unfold frame. cbv zeta. rewrite take_app, BytesFacts.length_be_encode.
  split; intros Hn.
  - replace (n - 4)%nat with 0%nat by lia. by rewrite take_0, app_nil_r.
  - by rewrite (take_ge (be_encode _ _)) by (rewrite BytesFacts.length_be_encode; lia).
Qed.

(** X16. A write that breaks closes the session. When the connection to a
    peer takes fewer bytes than the frame of a message has, the send returns
    false with the front of the frame on the wire, as many bytes as the
    connection took: part of the length, or the length and part of the
    message. The session is closed, so from then on every send to that peer
    returns false without trying the socket; the sessions of the other
    peers stay as they are. A reader at the other end gets no message out of
    such a front. *)
Theorem failed_write_closes_session st peer message n :
  _peer_sessions st !! peer = Some {| _is_connected := true; socket_room := Some n |} ->
  (n < length (frame message))%nat ->
  let sent := NetworkManager_SendMessage peer message st in
  sent.1 = false
  /\ trace sent.2 = trace st ++ [wrote_to peer (take n (frame message))]
  /\ _is_connected <$> _peer_sessions sent.2 !! peer = Some false
  /\ (forall other, other <> peer ->
        _peer_sessions sent.2 !! other = _peer_sessions st !! other)
  /\ (forall message', NetworkManager_SendMessage peer message' sent.2 = (false, sent.2))
  /\ (Z.of_nat (length (Serialize message)) < 2 ^ 32 ->
      ReadMessage (take n (frame message)) = []).
Proof.
  intros Hs Hn. cbv zeta.
  destruct (take_frame n message) as [Hfirst Hsecond]. cbv zeta in Hfirst, Hsecond.
  assert (Hlen : length (frame message) = (4 + length (Serialize message))%nat).
  { unfold frame. cbv zeta. by rewrite length_app, BytesFacts.length_be_encode. }
  split; [|split; [|split; [|split; [|split]]]].
  6:{ intros Hsize. by apply ParserFacts.ReadMessage_loop_partial. }
  all: unfold NetworkManager_SendMessage; run; rewrite Hs; cbn [_is_connected negb];
    cbv [PeerSession_SendMessage asio_write socket_room Close];
    rewrite BytesFacts.length_be_encode.
  all: destruct (Nat.leb_spec 4 n) as [H4|H4]; cbv beta iota;
    [destruct (Nat.leb_spec (length (Serialize message)) (n - 4)) as [Hfit|Hcut];
     [lia|]; cbv beta iota|]; proj.
  all: rewrite ?lookup_insert_eq, ?Hfirst, ?Hsecond by lia; try done.
  all: try (intros other Hne; by rewrite lookup_insert_ne).
Qed.

Lemma failed_write_closes_session_witness :
  let sent := NetworkManager_SendMessage Samples.alice Samples.sample_chat
                Scenarios.broken_link in
  sent.1 = false
  /\ trace sent.2 = [wrote_to Samples.alice (take 6 (frame Samples.sample_chat))]
  /\ NetworkManager_SendMessage Samples.alice Samples.sample_chunk sent.2
     = (false, sent.2).
Proof.
  pose proof (failed_write_closes_session Scenarios.broken_link Samples.alice
                Samples.sample_chat 6) as H.
  cbv zeta in H. destruct H as (H1 & H2 & _ & _ & H3 & _).
  - reflexivity.
  - vm_compute. lia.
  - cbv zeta. split; [exact H1|]. split; [exact H2|apply H3].
Defined.


(** *** File names *)

Lemma no_slash_app a b : no_slash a -> no_slash b -> no_slash (a +:+ b).
Proof.
  induction a as [|c a IH]; [done|]. intros [Hc Ha] Hb.
  rewrite DiscoveryFacts.append_cons. split; [done|]. by apply IH.
Qed.

Lemma path_filename_from_no_slash p : forall acc,
  no_slash acc -> no_slash (path_filename_from p acc).
Proof.
  induction p as [|c p IH]; intros acc Hacc; cbn [path_filename_from]; [done|].
  destruct (Ascii.eqb c "/") eqn:E; apply IH; [done|].
  apply no_slash_app; [done|]. by split.
Qed.

Lemma path_filename_from_bare r : forall acc,
  no_slash r -> path_filename_from r acc = acc +:+ r.
Proof.
  induction r as [|c r IH]; intros acc Hr; cbn [path_filename_from].
  - by rewrite DiscoveryFacts.append_nil_r.
  - destruct Hr as [Hc Hr]. rewrite Hc, IH by done.
    by rewrite DiscoveryFacts.string_app_assoc.
Qed.

Lemma path_filename_from_slash a r : forall acc,
  path_filename_from (a +:+ String "/" r) acc = path_filename_from r "".
Proof.
  induction a as [|c a IH]; intros acc.
  - reflexivity.
  - rewrite DiscoveryFacts.append_cons. cbn [path_filename_from].
    destruct (Ascii.eqb c "/"); apply IH.
Qed.

Lemma ends_with_slash_downloads x : ends_with_slash (x +:+ "downloads") = false.
Proof.
  induction x as [|c x IH]; [reflexivity|].
  rewrite DiscoveryFacts.append_cons. cbn [ends_with_slash].
  destruct x as [|c' x]; [reflexivity|].
  rewrite DiscoveryFacts.append_cons in *. exact IH.
Qed.

(** X17. The file name [SendFile] puts into a request is the text after
    the last slash of the path and holds no slash itself, and a receiver
    puts a file of such a name directly into the [downloads] directory
    under its working directory: the output path is that directory, a
    slash, and the name. A name that began with a slash would be taken as
    the whole output path instead. *)
Theorem requested_file_lands_in_downloads st path :
  let filename := path_filename path in
  let downloads := path_append (current_path st) "downloads" in
  no_slash filename
  /\ output_path_of st filename = downloads +:+ "/" +:+ filename
  /\ path_filename (output_path_of st filename) = filename
  /\ (forall rest, output_path_of st (String "/" rest) = String "/" rest).
Proof.
  cbv zeta.
  assert (Hbare : no_slash (path_filename path))
    by (by apply path_filename_from_no_slash).
  assert (Hout : output_path_of st (path_filename path)
                 = path_append (current_path st) "downloads" +:+ "/"
                   +:+ path_filename path).
  { unfold output_path_of.
    set (downloads := path_append (current_path st) "downloads").
    assert (Hd : ends_with_slash downloads = false /\ String.eqb downloads "" = false).
    { subst downloads. unfold path_append.
      change (match "downloads" with String "/" _ => "downloads" | _ => ?x end) with x.
      destruct (ends_with_slash (current_path st) || String.eqb (current_path st) "").
      - split; [apply ends_with_slash_downloads|].
        by destruct (current_path st).
      - rewrite <- DiscoveryFacts.string_app_assoc.
        split; [apply ends_with_slash_downloads|].
        by destruct (current_path st). }
    destruct Hd as [Hd1 Hd2]. unfold path_append at 1.
    destruct (path_filename path) as [|c name] eqn:E.
    - by rewrite Hd1, Hd2.
    - destruct Hbare as [Hc _].
      assert (Hne : c <> "/"%char) by (intros ->; discriminate Hc).
      rewrite Hd1, Hd2. cbn [orb].
      destruct c as [[] [] [] [] [] [] [] []]; try reflexivity. done. }
  split; [done|]. split; [done|]. split; [|done].
  rewrite Hout. unfold path_filename at 1.
  change ("/" +:+ path_filename path) with (String "/" (path_filename path)).
  rewrite path_filename_from_slash. by apply path_filename_from_bare.
Qed.


(** *** The two tables over the life of the engine *)

Lemma emplace_kept (P : TransferKey -> TransferInfo -> Prop) (key : TransferKey)
    (t : TransferInfo) (m : gmap TransferKey TransferInfo) :
  P key t -> map_Forall P m -> map_Forall P (emplace key t m).
Proof.
  intros Ht Hm. unfold emplace. destruct (m !! key); [done|].
  by apply map_Forall_insert_2.
Qed.

Lemma delete_insert_kept (P : TransferKey -> TransferInfo -> Prop) (key : TransferKey)
    (t : TransferInfo) (m : gmap TransferKey TransferInfo) :
  map_Forall P m -> map_Forall P (delete key (<[key := t]> m)).
Proof.
  intros Hm k t' H. apply lookup_delete_Some in H as [Hne H].
  rewrite lookup_insert_ne in H by done. by apply Hm.
Qed.

Ltac kept :=
  repeat first [assumption | apply delete_insert_kept | apply map_Forall_delete
                | apply map_Forall_insert_2 | apply emplace_kept].

Lemma SendFile_kept peer_id file_path st :
  well_kept st -> well_kept (SendFile peer_id file_path st).2.
Proof.
  intros [Hout Hin]. unfold well_kept, SendFile. run.
  destruct (files st !! file_path) as [content|]; [|done].
  destruct (drawn st (constructed st)) as [mid now]. proj.
  send_cases; try done; (split; [|done]); kept; by repeat split.
Qed.

Lemma CancelTransfer_kept peer_id file_path st :
  well_kept st -> well_kept (CancelTransfer peer_id file_path st).2.
Proof.
  intros [Hout Hin]. unfold well_kept, CancelTransfer. run.
  destruct (_outgoing_transfers st !! (peer_id, file_path)).
  - destruct (drawn st (constructed st)) as [mid now]. proj.
    send_cases; split; kept.
  - destruct (_incoming_transfers st !! (peer_id, file_path)); [|done].
    destruct (drawn st (constructed st)) as [mid now]. proj.
    send_cases; split; kept.
Qed.

Lemma HandleFileTransferRequest_kept message st :
  well_kept st -> well_kept (HandleFileTransferRequest message st).2.
Proof.
  intros [Hout Hin]. unfold well_kept, HandleFileTransferRequest. run.
  assert (Hnew : forall path size,
             live_incoming (_sender (request_header message), _filename message)
               {| file_path := path; file_id := _filename message; file_size := size;
                  peer_id := _sender (request_header message); status := IN_PROGRESS;
                  bytes_transferred := 0; input_stream := closed_ifstream;
                  output_stream := {| out_is_open := true; out_fail := false |};
                  next_chunk_index := 0; received_chunks := ∅ |})
    by (intros; repeat split; by left).
  request_cases; try done; split; kept; apply Hnew.
Qed.

Lemma HandleFileChunk_kept message st :
  well_kept st -> well_kept (HandleFileChunk message st).2.
Proof.
  intros [Hout Hin]. unfold well_kept, HandleFileChunk. run.
  destruct (_incoming_transfers st !! _) as [transfer|] eqn:Ht; [|done].
  destruct (received_chunks transfer !! _); [done|]. proj.
  pose proof (Hin _ _ Ht) as (Hs & Hk & Hstream & Hb).
  destruct (negb _); proj.
  - destruct (drawn st (constructed st)) as [mid now]. proj.
    send_cases; destruct (_completed_callback st); proj; split; kept.
  - set (bytes := to_uint64 (bytes_transferred transfer
                             + Z.of_nat (length (_data message)))).
    assert (Hbytes : 0 <= bytes) by (apply Z.mod_pos_bound; lia).
    destruct (Z.leb_spec (file_size transfer) bytes) as [Hdone|Hmore].
    + destruct (_progress_callback st); proj;
        destruct (drawn st (constructed st)) as [mid now]; proj;
        send_cases; destruct (_completed_callback st); proj; split; kept.
    + destruct (_progress_callback st); proj; (split; [done|]);
        apply map_Forall_insert_2; try done;
        (split; [done|]); (split; [done|]); (split; [done|]);
        right; cbn [bytes_transferred with_bytes_transferred with_received_chunks
                    file_size]; fold bytes; lia.
Qed.


Lemma HandleFileTransferComplete_kept message st :
  well_kept st -> well_kept (HandleFileTransferComplete message st).2.
Proof.
  intros [Hout Hin]. unfold well_kept, HandleFileTransferComplete. run.
  destruct (_outgoing_transfers st !! _); [|done].
  destruct (_completed_callback st); proj; split; kept.
Qed.

Lemma step_kept st st' : step st st' -> well_kept st -> well_kept st'.
Proof.
  destruct 1 as [p f st|p f st|m st|b st|b st|c st|st st' Hw]; intros Hk.
  - by apply SendFile_kept.
  - by apply CancelTransfer_kept.
  - destruct m as [c|r|c|c]; cbn [HandleMessage snd].
    + done.
    + by apply HandleFileTransferRequest_kept.
    + by apply HandleFileChunk_kept.
    + by apply HandleFileTransferComplete_kept.
  - done.
  - done.
  - done.
  - destruct Hw as (Ho & Hi & _). unfold well_kept. by rewrite Ho, Hi.
Qed.

Lemma reachable_well_kept st : reachable st -> well_kept st.
Proof.
  induction 1 as [st (Hout & Hin & _)|st st' _ IH Hstep].
  - unfold well_kept. rewrite Hout, Hin. split; apply map_Forall_empty.
  - by apply (step_kept st).
Qed.

(** X18. On a running engine [GetOngoingTransfers] never reports a transfer
    as COMPLETED, FAILED or REJECTED: every outgoing transfer it lists is
    PENDING with no byte transferred, filed under the peer and path it
    reports, and every incoming one is IN_PROGRESS with fewer bytes
    received than the declared size (or none). No FileChunk has been sent,
    whatever calls and messages the engine has seen: the loop that sends
    chunks is never started. *)
Theorem running_engine_reports st :
  reachable st ->
  chunks_sent (trace st) = []
  /\ forall peer path status progress,
       (peer, path, status, progress) ∈ GetOngoingTransfers st ->
       (status = PENDING
        /\ is_Some (_outgoing_transfers st !! (peer, path))
        /\ (progress = None \/ exists size, progress = Some (0, size)))
       \/ (status = IN_PROGRESS
           /\ (progress = None
               \/ exists bytes size, progress = Some (bytes, size) /\ 0 <= bytes < size)).
Proof.
  intros Hreach. split; [by apply reachable_sends_no_chunk|].
  destruct (reachable_well_kept st Hreach) as [Hout Hin].
  intros peer path status progress' Hrep. unfold GetOngoingTransfers in Hrep.
  apply elem_of_app in Hrep as [Hrep|Hrep];
    apply list_elem_of_fmap in Hrep as (t & Heq & Ht);
    apply list_elem_of_fmap in Ht as ([key t'] & -> & Ht);
    apply elem_of_map_to_list in Ht; cbn [snd] in Heq;
    unfold report, progress in Heq; injection Heq as -> -> -> ->.
  - left. destruct (Hout _ _ Ht) as (Hs & Hb & _ & Hk & _).
    split; [done|]. split; [rewrite <- Hk; eauto|].
    rewrite Hb. destruct (0 <? file_size t'); eauto.
  - right. destruct (Hin _ _ Ht) as (Hs & _ & _ & Hb).
    split; [done|].
    destruct (Z.ltb_spec 0 (file_size t')); [|by left]. right.
    exists (bytes_transferred t'), (file_size t'). split; [done|]. lia.
Qed.

Lemma reachable_sent_report : reachable Scenarios.sent_report.
Proof.
  eapply reachable_step; [apply (reachable_sample_engine 8)|apply step_SendFile].
Qed.

Lemma running_engine_reports_witness :
  chunks_sent (trace Scenarios.sent_report) = []
  /\ GetOngoingTransfers Scenarios.sent_report
     = [(Samples.alice, "/srv/report.bin", PENDING, Some (0, 8))].
Proof.
  split; [|vm_compute; reflexivity].
  apply (running_engine_reports Scenarios.sent_report reachable_sent_report).
Defined.


(** *** The chunk loop *)

Lemma number_of_chunks_spec (L : nat) :
  let n := Z.of_nat (number_of_chunks L) in
  Z.of_nat L <= n * DEFAULT_CHUNK_SIZE < Z.of_nat L + DEFAULT_CHUNK_SIZE.
Proof.
  cbv zeta. unfold number_of_chunks, DEFAULT_CHUNK_SIZE.
  change (16 * 1024) with 16384.
  pose proof (Z.div_mod (Z.of_nat L + 16384 - 1) 16384 ltac:(lia)) as Hd.
  pose proof (Z.mod_pos_bound (Z.of_nat L + 16384 - 1) 16384 ltac:(lia)) as Hm.
  assert (0 <= (Z.of_nat L + 16384 - 1) / 16384) by (apply Z.div_pos; lia).
  rewrite Z2Nat.id by done. lia.
Qed.

Lemma join_chunks (content : ByteBuffer) n :
  mjoin (chunk_at content <$> seq 0 n)
  = take (n * Z.to_nat DEFAULT_CHUNK_SIZE) content.
Proof.
  induction n as [|n IH]; [done|].
  rewrite seq_S, fmap_app, join_app, IH. cbn [fmap list_fmap mjoin list_join].
  rewrite app_nil_r. unfold chunk_at. cbn [Nat.add Nat.mul].
  rewrite take_take_drop. f_equal. lia.
Qed.

(** X19. The chunk loop cannot run. [StartSendingFile] holds
    [_transfers_mutex] when it calls [SendNextChunk], whose first line locks
    it: on every transfer it finds with its file open or to be opened,
    [StartSendingFile] puts the entry in progress at chunk 0 and then locks
    the mutex it holds, with nothing sent and no callback called; it sends a
    chunk in no case at all. [SendNextChunk] holds the mutex when it calls
    itself: entered with the mutex free on a transfer with more than one
    chunk to go, it sends one full chunk, counts it, and locks the mutex it
    holds. *)
Theorem chunk_loop_locks_twice st peer path :
  let start := StartSendingFile peer path st in
  (start.1 = locks_held_mutex <->
   exists transfer,
     _outgoing_transfers st !! (peer, path) = Some transfer
     /\ (in_is_open (input_stream transfer) = true
         \/ is_Some (files st !! file_path transfer)))
  /\ (start.1 = locks_held_mutex ->
      trace start.2 = trace st /\ files start.2 = files st
      /\ _peer_sessions start.2 = _peer_sessions st
      /\ exists entry,
           _outgoing_transfers start.2 !! (peer, path) = Some entry
           /\ status entry = IN_PROGRESS /\ next_chunk_index entry = 0)
  /\ chunks_sent (trace start.2) = chunks_sent (trace st)
  /\ (forall content i,
        sending st peer path content i -> 0 <= i -> i + 1 < 2 ^ 32 ->
        (i + 1) * DEFAULT_CHUNK_SIZE < Z.of_nat (length content) < 2 ^ 63 ->
        let next := SendNextChunk peer path st in
        next.1 = locks_held_mutex
        /\ chunks_sent (trace next.2)
           = chunks_sent (trace st) ++ [(i, DEFAULT_CHUNK_SIZE)]
        /\ sending next.2 peer path content (i + 1)).
Proof.
  cbv zeta. split; [|split; [|split]].
  - unfold StartSendingFile. run.
    destruct (_outgoing_transfers st !! (peer, path)) as [t|] eqn:Hout.
    2:{ split; [done|]. by intros (? & ? & _). }
    destruct (in_is_open (input_stream t)) eqn:Hopen; cbn [negb andb].
    { split; [|done]. intros _. exists t. split; [done|]. by left. }
    destruct (files st !! file_path t) as [content|] eqn:Hfile.
    + rewrite bool_decide_eq_true_2 by eauto. cbn [negb].
      split; [|done]. intros _. exists t. split; [done|]. right. eauto.
    + rewrite bool_decide_eq_false_2 by (by intros [? ?]). cbn [negb].
      split.
      * destruct (drawn st (constructed st)) as [mid now]. proj.
        send_cases; by destruct (_completed_callback st).
      * intros (t' & [= <-] & [H|[? H]]); [congruence|].
        rewrite Hfile in H. discriminate.
  - unfold StartSendingFile. run.
    destruct (_outgoing_transfers st !! (peer, path)) as [t|] eqn:Hout; [|done].
    destruct (negb (in_is_open (input_stream t))
              && negb (bool_decide (is_Some (files st !! file_path t)))).
    + destruct (drawn st (constructed st)) as [mid now]. proj.
      send_cases; by destruct (_completed_callback st).
    + intros _. proj. rewrite lookup_insert_eq. repeat split; try done.
      eexists. split; [reflexivity|]. done.
  - unfold StartSendingFile. run.
    destruct (_outgoing_transfers st !! (peer, path)) as [t|] eqn:Hout; [|done].
    destruct (negb (in_is_open (input_stream t))
              && negb (bool_decide (is_Some (files st !! file_path t)))); [|done].
    destruct (drawn st (constructed st)) as [mid now]. proj.
    send_cases; destruct (_completed_callback st); same_chunks.
  - intros content i Hs Hi Hi32 [Hmore Hbig].
    destruct (SendNextChunk_step st peer path content i Hs Hi Hi32
                ltac:(unfold DEFAULT_CHUNK_SIZE in *; lia) Hbig)
      as ([h Htrace] & _ & Hnext). cbv zeta in Htrace, Hnext.
    destruct (Hnext Hmore) as (Hend & Hsending & _).
    split; [done|]. split; [|done].
    rewrite Htrace, !chunks_sent_app.
    assert (Hsize : Z.of_nat (length (take (Z.to_nat DEFAULT_CHUNK_SIZE)
                                       (drop (Z.to_nat (i * DEFAULT_CHUNK_SIZE)) content)))
                    = DEFAULT_CHUNK_SIZE).
    { rewrite length_chunk by (unfold DEFAULT_CHUNK_SIZE in *; lia).
      unfold DEFAULT_CHUNK_SIZE in *. lia. }
    destruct (_progress_callback st), (_ && _);
      cbn [chunks_sent omap list_omap chunk_of _chunk_index _data app];
      by rewrite Hsize.
Qed.

(** On the sender's engine after [SendFile], the call that should start
    the transfer stops at the second lock. *)
Example StartSendingFile_after_SendFile :
  (StartSendingFile Samples.alice "/srv/report.bin" Scenarios.sent_report).1
  = locks_held_mutex.
Proof. reflexivity. Qed.

(** X20. When the file of a transfer [SendFile] has filed can no longer be
    opened, [StartSendingFile] gives the transfer up: the peer is sent a
    FileTransferComplete with success false and "Failed to open file for
    reading" (over a working session), the entry is erased, and no chunk is
    sent. The completed callback, when set, is called after the erase, with
    the path read through the entry that is gone: it is never handed a path
    that is still there. *)
Theorem StartSendingFile_gives_up st peer path transfer :
  reachable st ->
  _outgoing_transfers st !! (peer, path) = Some transfer ->
  files st !! path = None ->
  let call := StartSendingFile peer path st in
  _outgoing_transfers call.2 !! (peer, path) = None
  /\ omap completion_of (trace call.2) = omap completion_of (trace st)
  /\ omap erased_completion_of (trace call.2)
     = omap erased_completion_of (trace st)
       ++ (if _completed_callback st
           then [(peer, false, "Failed to open file for reading")] else [])
  /\ chunks_sent (trace call.2) = chunks_sent (trace st)
  /\ (session_up st peer ->
      exists h,
        omap verdict_of (trace call.2)
        = omap verdict_of (trace st)
          ++ [(peer, {| complete_header := h; complete_file_id := path;
                        _success := false;
                        _error_message := "Failed to open file for reading" |})]).
Proof.
  intros Hreach Hout Hfile. cbv zeta.
  destruct (reachable_well_kept st Hreach) as [Hkept _].
  destruct (Hkept _ _ Hout) as (Hst & Hb & Hstream & Hkey & Hid).
  injection Hkey as _ Hpath. symmetry in Hpath.
  unfold StartSendingFile, session_up. run. rewrite Hout, Hstream.
  cbn [closed_ifstream in_is_open negb andb]. rewrite Hpath, Hfile.
  rewrite bool_decide_eq_false_2 by (by intros [? ?]). cbn [negb].
  destruct (drawn st (constructed st)) as [mid now]. proj.
  send_cases; destruct (_completed_callback st); proj; rewrite lookup_delete_eq;
    (split; [done|]); (split; [events|]); (split; [events|]);
    (split; [same_chunks|]); try done; intros _; eexists; events.
Qed.

Lemma same_engine_set_files f st : same_engine st (set_files f st).
Proof. by repeat split. Qed.

Lemma reachable_report_deleted : reachable Scenarios.report_deleted.
Proof.
  eapply reachable_step; [apply reachable_sent_report|].
  apply step_world, same_engine_set_files.
Qed.

Lemma StartSendingFile_gives_up_witness :
  let call := StartSendingFile Samples.alice "/srv/report.bin" Scenarios.report_deleted in
  _outgoing_transfers call.2 !! (Samples.alice, "/srv/report.bin") = None
  /\ omap completion_of (trace call.2) = []
  /\ omap erased_completion_of (trace call.2)
     = [(Samples.alice, false, "Failed to open file for reading")].
Proof.
  pose proof (StartSendingFile_gives_up Scenarios.report_deleted Samples.alice
                "/srv/report.bin" Scenarios.pending_report reachable_report_deleted) as H.
  cbv zeta in H. destruct H as (H1 & H2 & H3 & _).
  - vm_compute. reflexivity.
  - reflexivity.
  - cbv zeta. split; [exact H1|]. split; [exact H2|exact H3].
Defined.


(** *** The receiving side, chunk by chunk *)

Lemma length_write_at (F d : ByteBuffer) pos :
  d <> [] -> length (write_at F pos d) = (length F `max` (pos + length d))%nat.
Proof.
  intros Hd. unfold write_at. rewrite bool_decide_eq_false_2 by done.
  rewrite !length_app, length_take, length_app, length_replicate, length_drop. lia.
Qed.

Lemma slice_write_at_same (F d : ByteBuffer) pos :
  slice pos (length d) (write_at F pos d) = d.
Proof.
  unfold write_at, slice. case_bool_decide as Hd; [by subst|].
  rewrite drop_app_length'
    by (rewrite length_take, length_app, length_replicate; lia).
  apply take_app_length.
Qed.

Lemma slice_write_at_before (F d : ByteBuffer) pos a l :
  (a + l <= pos)%nat -> (a + l <= length F)%nat ->
  slice a l (write_at F pos d) = slice a l F.
Proof.
  intros Hp HF. unfold write_at, slice. case_bool_decide as Hd; [done|].
  rewrite drop_app_le
    by (rewrite length_take, length_app, length_replicate; lia).
  rewrite take_app_le
    by (rewrite length_drop, length_take, length_app, length_replicate; lia).
  rewrite skipn_firstn_comm, take_take, Nat.min_l by lia.
  rewrite drop_app_le by lia. apply take_app_le. rewrite length_drop. lia.
Qed.

Lemma slice_write_at_after (F d : ByteBuffer) pos a l :
  (pos + length d <= a)%nat -> slice a l (write_at F pos d) = slice a l F.
Proof.
  intros Hp. unfold write_at, slice. case_bool_decide as Hd; [done|].
  rewrite drop_app_ge
    by (rewrite length_take, length_app, length_replicate; lia).
  rewrite length_take, length_app, length_replicate.
  rewrite drop_app_ge by lia. rewrite drop_drop. do 2 f_equal. lia.
Qed.

Lemma length_chunk_at (content : ByteBuffer) k :
  length (chunk_at content k)
  = (Z.to_nat DEFAULT_CHUNK_SIZE
     `min` (length content - k * Z.to_nat DEFAULT_CHUNK_SIZE))%nat.
Proof. unfold chunk_at. by rewrite length_take, length_drop. Qed.

Lemma holds_chunks_write content got F k :
  holds_chunks content got F -> k ∉ got ->
  (k * Z.to_nat DEFAULT_CHUNK_SIZE < length content)%nat ->
  holds_chunks content (got ++ [k])
    (write_at F (k * Z.to_nat DEFAULT_CHUNK_SIZE) (chunk_at content k)).
Proof.
  intros [Hlen Hdone] Hk Hin.
  assert (Hchunk : chunk_at content k <> []).
  { intros H. apply (f_equal length) in H. rewrite length_chunk_at in H.
    cbn [length] in H. unfold DEFAULT_CHUNK_SIZE in *. lia. }
  split.
  - rewrite length_write_at, length_chunk_at by done. lia.
  - intros j Hj. cbv zeta. apply elem_of_app in Hj as [Hj|Hj].
    + destruct (Hdone j Hj) as [Hin' Hsl]. cbv zeta in Hin', Hsl.
      assert (Hne : j <> k) by (intros ->; done).
      pose proof (length_chunk_at content j) as Hlj.
      pose proof (length_chunk_at content k) as Hlk.
      set (len := length (chunk_at content j)) in *.
      split; [rewrite length_write_at by done; lia|].
      rewrite <- Hsl.
      destruct (Nat.lt_ge_cases j k).
      * apply slice_write_at_before; [|lia].
        assert ((j + 1) * Z.to_nat DEFAULT_CHUNK_SIZE
                <= k * Z.to_nat DEFAULT_CHUNK_SIZE)%nat
          by (apply Nat.mul_le_mono_r; lia).
        lia.
      * apply slice_write_at_after.
        assert ((k + 1) * Z.to_nat DEFAULT_CHUNK_SIZE
                <= j * Z.to_nat DEFAULT_CHUNK_SIZE)%nat
          by (apply Nat.mul_le_mono_r; lia).
        lia.
    + apply list_elem_of_singleton in Hj as ->.
      split; [rewrite length_write_at by done; lia|]. apply slice_write_at_same.
Qed.

Lemma bytes_of_all (content : ByteBuffer) :
  bytes_of content (seq 0 (number_of_chunks (length content))) = length content.
Proof.
  pose proof (number_of_chunks_spec (length content)) as Hn. cbv zeta in Hn.
  unfold bytes_of.
  transitivity (length (take (number_of_chunks (length content)
                              * Z.to_nat DEFAULT_CHUNK_SIZE) content));
    [|rewrite take_ge; [done|unfold DEFAULT_CHUNK_SIZE in *; lia]].
  rewrite <- join_chunks, length_join, <- list_fmap_compose.
  generalize (seq 0 (number_of_chunks (length content))). intros l.
  induction l as [|j l IH]; [done|]. cbn. by rewrite IH.
Qed.

Lemma holds_chunks_all content got F :
  holds_chunks content got F ->
  got ≡ₚ seq 0 (number_of_chunks (length content)) ->
  F = content.
Proof.
  intros [Hlen Hdone] Hperm.
  pose proof (number_of_chunks_spec (length content)) as Hn. cbv zeta in Hn.
  set (n := number_of_chunks (length content)) in *.
  assert (Hall : forall j, (j < n)%nat -> chunk_at F j = chunk_at content j
                                          /\ (j * Z.to_nat DEFAULT_CHUNK_SIZE
                                              + length (chunk_at content j)
                                              <= length F)%nat).
  { intros j Hj. destruct (Hdone j) as [Hin Hsl].
    { rewrite Hperm. apply elem_of_seq. lia. }
    cbv zeta in Hin, Hsl. split; [|done]. rewrite <- Hsl.
    unfold chunk_at, slice. rewrite length_take, length_drop.
    rewrite <- take_take. f_equal. symmetry. apply take_ge.
    rewrite length_drop. lia. }
  assert (HlenF : length F = length content).
  { destruct n as [|n'] eqn:En.
    - unfold DEFAULT_CHUNK_SIZE in *. lia.
    - destruct (Hall n' ltac:(lia)) as [_ Hin]. rewrite length_chunk_at in Hin.
      unfold DEFAULT_CHUNK_SIZE in *. lia. }
  transitivity (take (n * Z.to_nat DEFAULT_CHUNK_SIZE) F);
    [symmetry; apply take_ge; unfold DEFAULT_CHUNK_SIZE in *; lia|].
  transitivity (take (n * Z.to_nat DEFAULT_CHUNK_SIZE) content);
    [|apply take_ge; unfold DEFAULT_CHUNK_SIZE in *; lia].
  rewrite <- !join_chunks. apply (f_equal mjoin). apply list_fmap_ext.
  intros i j Hj. apply lookup_seq in Hj as [-> Hj]. by apply Hall.
Qed.


Lemma bytes_of_snoc content got k :
  bytes_of content (got ++ [k])
  = (bytes_of content got + length (chunk_at content k))%nat.
Proof. unfold bytes_of. rewrite sum_list_with_app. cbn. lia. Qed.

Lemma bytes_of_nil content : bytes_of content [] = 0%nat.
Proof. reflexivity. Qed.

Lemma bytes_of_cons content k rest :
  bytes_of content (k :: rest)
  = (length (chunk_at content k) + bytes_of content rest)%nat.
Proof. reflexivity. Qed.

(** One fresh chunk: it is written in its place, and the transfer goes on
    or, the declared size reached, completes. *)
Lemma HandleFileChunk_collects st sender name path content got F header k :
  collecting st sender name path content got F ->
  _sender header = sender -> k ∉ got ->
  (k * Z.to_nat DEFAULT_CHUNK_SIZE < length content)%nat ->
  Z.of_nat (length content) < 2 ^ 63 ->
  Z.of_nat (bytes_of content (got ++ [k])) < 2 ^ 64 ->
  let F' := write_at F (k * Z.to_nat DEFAULT_CHUNK_SIZE) (chunk_at content k) in
  let st1 := (HandleFileChunk (chunk_message header name content k) st).2 in
  files st1 !! path = Some F'
  /\ ((bytes_of content (got ++ [k]) < length content)%nat ->
      collecting st1 sender name path content (got ++ [k]) F'
      /\ omap verdict_of (trace st1) = omap verdict_of (trace st)
      /\ omap completion_of (trace st1) = omap completion_of (trace st)
      /\ _completed_callback st1 = _completed_callback st
      /\ _peer_sessions st1 = _peer_sessions st)
  /\ ((length content <= bytes_of content (got ++ [k]))%nat ->
      _incoming_transfers st1 !! (sender, name) = None
      /\ omap completion_of (trace st1)
         = omap completion_of (trace st)
           ++ (if _completed_callback st then [(sender, path, true, "")] else [])
      /\ (session_up st sender ->
          exists h,
            omap verdict_of (trace st1)
            = omap verdict_of (trace st)
              ++ [(sender, {| complete_header := h; complete_file_id := name;
                              _success := true; _error_message := "" |})])).
Proof.
  intros (t & Hin & Hpath & Hsize & Hstream & Hbytes & Hrecv & Hfile & Hwrite & Hcs)
         Hsender Hk Hrange Hbig Hsum.
  cbv zeta. unfold HandleFileChunk, chunk_message, session_up. run.
  cbn [chunk_header chunk_file_id _chunk_index _data].
  rewrite Hsender, Hin, (Hrecv k Hk), Hstream, Hpath, Hwrite, Hcs, Hsize, Hbytes.
  cbn [out_is_open out_fail negb andb].
  assert (Hpos : Z.to_nat (to_uint64 (Z.of_nat k * DEFAULT_CHUNK_SIZE))
                 = (k * Z.to_nat DEFAULT_CHUNK_SIZE)%nat).
  { unfold to_uint64. rewrite Z.mod_small by (unfold DEFAULT_CHUNK_SIZE in *; lia).
    unfold DEFAULT_CHUNK_SIZE. lia. }
  rewrite Hpos.
  assert (Hnew : to_uint64 (Z.of_nat (bytes_of content got)
                            + Z.of_nat (length (chunk_at content k)))
                 = Z.of_nat (bytes_of content (got ++ [k]))).
  { rewrite bytes_of_snoc in *. unfold to_uint64. rewrite Z.mod_small; lia. }
  rewrite Hnew.
  destruct (Z.leb_spec (Z.of_nat (length content))
              (Z.of_nat (bytes_of content (got ++ [k])))) as [Hdone|Hmore]; proj.
  - destruct (_progress_callback st); proj;
      destruct (drawn st (constructed st)) as [mid now]; proj;
      (send_cases;
       destruct (_completed_callback st); proj;
       rewrite ?Hfile, ?lookup_insert_eq, ?lookup_delete_eq;
       cbn [default from_option id];
       (split; [done|]); (split; [intros; lia|]); intros _;
       (split; [done|]); (split; [events|]); try done;
       intros _; eexists; events).
  - destruct (_progress_callback st); proj; rewrite Hfile, !lookup_insert_eq;
      cbn [default from_option id];
      (split; [done|]); (split; [|intros; lia]); intros _;
      (split; [|repeat split; events]);
      unfold collecting; proj; rewrite ?lookup_insert_eq, ?Hfile;
      cbn [default from_option id];
      eexists; (split; [reflexivity|]);
      cbn [file_path file_size output_stream bytes_transferred received_chunks
           with_bytes_transferred with_received_chunks];
      (split; [done|]); (split; [done|]); (split; [done|]); (split; [done|]);
      (split; [|done]);
      intros j Hj; rewrite lookup_insert_ne;
      [apply Hrecv; intros Hj'; apply Hj, elem_of_app; by left
      |intros Heq; apply Hj, elem_of_app; right;
       apply list_elem_of_singleton; lia
      |apply Hrecv; intros Hj'; apply Hj, elem_of_app; by left
      |intros Heq; apply Hj, elem_of_app; right;
       apply list_elem_of_singleton; lia].
Qed.


(** An accepted request starts the collecting, on an empty file. *)
Lemma HandleFileTransferRequest_collecting st message content :
  accepts st message ->
  opens_for_writing st (output_path_of st (_filename message)) = true ->
  write_goes_through st (output_path_of st (_filename message)) = true ->
  _chunk_size st = DEFAULT_CHUNK_SIZE ->
  _file_size message = Z.of_nat (length content) ->
  let st1 := (HandleFileTransferRequest message st).2 in
  collecting st1 (_sender (request_header message)) (_filename message)
    (output_path_of st (_filename message)) content [] []
  /\ omap verdict_of (trace st1) = omap verdict_of (trace st)
  /\ omap completion_of (trace st1) = omap completion_of (trace st)
  /\ _completed_callback st1 = _completed_callback st
  /\ _peer_sessions st1 = _peer_sessions st.
Proof.
  intros Hacc Hopen Hwrite Hcs Hsize. cbv zeta.
  apply andb_true_iff in Hopen as [Hdir Hopen].
  unfold HandleFileTransferRequest, accepts, collecting, output_dir_of, output_path_of
    in *. run.
  destruct (_request_callback st) as [f|] eqn:Hcb.
  - rewrite Hacc. cbn [negb]. proj. rewrite Hdir. cbn [negb]. proj.
    rewrite Hopen. cbn [negb]. proj. rewrite !lookup_insert_eq.
    split; [|repeat split; events].
    eexists. split; [reflexivity|]. cbn. repeat split; try done.
  - cbn [negb]. proj. rewrite Hdir. cbn [negb]. proj.
    rewrite Hopen. cbn [negb]. proj. rewrite !lookup_insert_eq.
    split; [|repeat split; events].
    eexists. split; [reflexivity|]. cbn. repeat split; try done.
Qed.

Lemma chunk_in_file (content : ByteBuffer) k :
  (k < number_of_chunks (length content))%nat ->
  (k * Z.to_nat DEFAULT_CHUNK_SIZE < length content)%nat
  /\ (0 < length (chunk_at content k))%nat.
Proof.
  intros Hk. pose proof (number_of_chunks_spec (length content)) as Hn.
  cbv zeta in Hn. rewrite length_chunk_at. unfold DEFAULT_CHUNK_SIZE in *. lia.
Qed.

(** The chunks still to come, in any order, complete the file. *)
Lemma HandleFileChunk_collects_rest sender name path content headers rest :
  forall got st F,
  got ++ rest ≡ₚ seq 0 (number_of_chunks (length content)) ->
  rest <> [] ->
  collecting st sender name path content got F ->
  holds_chunks content got F ->
  Z.of_nat (length content) < 2 ^ 63 ->
  (forall k, _sender (headers k) = sender) ->
  let st' :=
    fold_left
      (fun st k =>
         (HandleFileChunk (chunk_message (headers k) name content k) st).2)
      rest st in
  files st' !! path = Some content
  /\ _incoming_transfers st' !! (sender, name) = None
  /\ omap completion_of (trace st')
     = omap completion_of (trace st)
       ++ (if _completed_callback st then [(sender, path, true, "")] else [])
  /\ (session_up st sender ->
      exists h,
        omap verdict_of (trace st')
        = omap verdict_of (trace st)
          ++ [(sender, {| complete_header := h; complete_file_id := name;
                          _success := true; _error_message := "" |})]).
Proof.
  induction rest as [|k rest IH]; intros got st F Hperm Hne Hcol Hfile Hbig Hsender;
    [done|].
  cbv zeta. cbn [fold_left].
  assert (Hnodup : NoDup (got ++ k :: rest)).
  { rewrite Hperm. apply NoDup_seq. }
  assert (Hk : k ∉ got).
  { intros Hin. apply NoDup_app in Hnodup as (_ & Hd & _).
    apply (Hd k Hin). by left. }
  assert (Hkn : (k < number_of_chunks (length content))%nat).
  { assert (Hin : k ∈ seq 0 (number_of_chunks (length content))).
    { rewrite <- Hperm. apply elem_of_app. right. by left. }
    apply elem_of_seq in Hin. lia. }
  destruct (chunk_in_file content k Hkn) as [Hrange Hpos].
  assert (Htotal : (bytes_of content (got ++ [k]) + bytes_of content rest
                    = length content)%nat).
  { unfold bytes_of. rewrite <- sum_list_with_app, <- app_assoc. cbn [app].
    rewrite Hperm. apply bytes_of_all. }
  destruct (HandleFileChunk_collects st sender name path content got F (headers k) k
              Hcol (Hsender k) Hk Hrange Hbig ltac:(lia)) as (Hf1 & Hgo & Hend).
  cbv zeta in Hf1, Hgo, Hend.
  pose proof (holds_chunks_write content got F k Hfile Hk Hrange) as Hfile1.
  set (st1 := (HandleFileChunk (chunk_message (headers k) name content k) st).2) in *.
  destruct rest as [|k' rest].
  - cbn [fold_left]. rewrite bytes_of_nil in Htotal.
    destruct Hend as (He1 & He2 & He3); [lia|].
    split; [|done]. rewrite Hf1. f_equal.
    apply (holds_chunks_all content (got ++ [k])); [done|].
    by rewrite <- Hperm.
  - assert (Hk'n : (k' < number_of_chunks (length content))%nat).
    { assert (Hin : k' ∈ seq 0 (number_of_chunks (length content))).
      { rewrite <- Hperm. apply elem_of_app. right. right. by left. }
      apply elem_of_seq in Hin. lia. }
    destruct (chunk_in_file content k' Hk'n) as [_ Hpos'].
    assert (Hless : (bytes_of content (got ++ [k]) < length content)%nat).
    { rewrite bytes_of_cons in Htotal. lia. }
    destruct (Hgo Hless) as (Hcol1 & Hv1 & Hc1 & Hcb1 & Hs1).
    destruct (IH (got ++ [k]) st1 (write_at F (k * Z.to_nat DEFAULT_CHUNK_SIZE)
                                      (chunk_at content k)))
      as (H1 & H2 & H3 & H4); try done.
    { by rewrite <- app_assoc. }
    cbv zeta in H1, H2, H3, H4.
    split; [done|]. split; [done|]. split; [by rewrite H3, Hc1, Hcb1|].
    intros Hup. destruct H4 as [h Hh].
    { unfold session_up in *. by rewrite Hs1. }
    exists h. by rewrite Hh, Hv1.
Qed.

(** X21. A file arrives whole whatever the order of its chunks. After a
    request for a non-empty file was accepted, the chunks of the file,
    handled once each in any order, rebuild it: every chunk is written at
    its own offset, and when the last one has come the output file under
    [downloads] holds exactly the bytes of the file, the transfer is erased,
    the completed callback is called with success, and the sender is sent
    one FileTransferComplete with success true. *)
Theorem chunks_in_any_order_rebuild_the_file st request content order headers :
  let sender := _sender (request_header request) in
  let name := _filename request in
  let path := output_path_of st name in
  accepts st request ->
  opens_for_writing st path = true ->
  write_goes_through st path = true ->
  _chunk_size st = DEFAULT_CHUNK_SIZE ->
  _file_size request = Z.of_nat (length content) ->
  0 < Z.of_nat (length content) < 2 ^ 63 ->
  order ≡ₚ seq 0 (number_of_chunks (length content)) ->
  (forall k, _sender (headers k) = sender) ->
  let accepted := (HandleMessage (FileTransferRequest request) st).2 in
  let st' :=
    fold_left
      (fun st k =>
         (HandleMessage (FileChunk (chunk_message (headers k) name content k)) st).2)
      order accepted in
  files st' !! path = Some content
  /\ _incoming_transfers st' !! (sender, name) = None
  /\ omap completion_of (trace st')
     = omap completion_of (trace st)
       ++ (if _completed_callback st then [(sender, path, true, "")] else [])
  /\ (session_up st sender ->
      exists h,
        omap verdict_of (trace st')
        = omap verdict_of (trace st)
          ++ [(sender, {| complete_header := h; complete_file_id := name;
                          _success := true; _error_message := "" |})]).
Proof.
  cbv zeta. intros Hacc Hopen Hwrite Hcs Hsize Hlen Hperm Hsender.
  change (HandleMessage (FileTransferRequest request) st)
    with (HandleFileTransferRequest request st).
  change (fun (st0 : State) (k : nat) =>
            (HandleMessage
               (FileChunk (chunk_message (headers k) (_filename request) content k))
               st0).2)
    with (fun (st0 : State) (k : nat) =>
            (HandleFileChunk (chunk_message (headers k) (_filename request) content k)
               st0).2).
  destruct (HandleFileTransferRequest_collecting st request content Hacc Hopen Hwrite
              Hcs Hsize) as (Hcol & Hv & Hc & Hcb & Hs).
  cbv zeta in Hcol, Hv, Hc, Hcb, Hs.
  set (accepted := (HandleFileTransferRequest request st).2) in *.
  assert (Hne : order <> []).
  { intros ->. apply Permutation_length in Hperm.
    rewrite length_seq in Hperm. cbn [length] in Hperm.
    pose proof (number_of_chunks_spec (length content)) as Hn. cbv zeta in Hn.
    rewrite <- Hperm in Hn. unfold DEFAULT_CHUNK_SIZE in Hn. lia. }
  destruct (HandleFileChunk_collects_rest (_sender (request_header request))
              (_filename request) (output_path_of st (_filename request)) content
              headers order [] accepted []) as (H1 & H2 & H3 & H4); try done.
  { split; [cbn; lia|]. intros j Hj. by apply elem_of_nil in Hj. }
  { lia. }
  cbv zeta in H1, H2, H3, H4.
  split; [done|]. split; [done|]. split; [by rewrite H3, Hc, Hcb|].
  intros Hup. destruct H4 as [h Hh].
  { unfold session_up in *. by rewrite Hs. }
  exists h. by rewrite Hh, Hv.
Qed.


Lemma chunks_in_any_order_rebuild_the_file_witness :
  let st := Samples.sample_engine 0 in
  let request := Scenarios.two_chunk_request in
  let content := Scenarios.two_chunk_file in
  let sender := _sender (request_header request) in
  let name := _filename request in
  let path := output_path_of st name in
  let accepted := (HandleMessage (FileTransferRequest request) st).2 in
  let st' :=
    fold_left
      (fun st k =>
         (HandleMessage
            (FileChunk (chunk_message Samples.sample_header name content k)) st).2)
      [1; 0]%nat accepted in
  files st' !! path = Some content
  /\ _incoming_transfers st' !! (sender, name) = None
  /\ omap completion_of (trace st')
     = omap completion_of (trace st)
       ++ (if _completed_callback st then [(sender, path, true, "")] else [])
  /\ (session_up st sender ->
      exists h,
        omap verdict_of (trace st')
        = omap verdict_of (trace st)
          ++ [(sender, {| complete_header := h; complete_file_id := name;
                          _success := true; _error_message := "" |})]).
Proof.
  apply (chunks_in_any_order_rebuild_the_file (Samples.sample_engine 0)
           Scenarios.two_chunk_request Scenarios.two_chunk_file [1; 0]%nat
           (fun _ => Samples.sample_header)).
  - exact I.
  - reflexivity.
  - reflexivity.
  - reflexivity.
  - reflexivity.
  - unfold Scenarios.two_chunk_file. rewrite length_replicate. lia.
  - unfold Scenarios.two_chunk_file. rewrite length_replicate.
    vm_compute. apply perm_swap.
  - reflexivity.
Defined.

End TransfersFacts.

(** ** The command line *)

Module MainFacts.
Import Discovery DiscoveryFacts Main.
Local Open Scope string_scope.
Local Open Scope Z_scope.

Lemma starts_with_split prefix s :
  starts_with prefix s = true ->
  s = prefix +:+ substr_from (String.length prefix) s.
Proof.
  revert s. induction prefix as [|a prefix IH]; intros s H; [done|].
  destruct s as [|b s]; [done|]. cbn [starts_with] in H.
  apply andb_true_iff in H as [Hab Hs]. apply Ascii.eqb_eq in Hab as ->.
  rewrite append_cons. cbn [String.length substr_from]. by rewrite <- IH.
Qed.

(** After "--auto-connect=" the code takes the text from the fifteenth
    character on, which is the "=" itself. *)
Lemma auto_connect_value_ignored value rest options :
  parse_arguments (("--auto-connect=" +:+ value) :: rest) options
  = parse_arguments rest options.
Proof. reflexivity. Qed.

(** X22. Of the command-line options only [--no-auto-connect] turns
    auto-connect off: when the argument loop goes on to start the node,
    auto-connect is off exactly when it was off before or
    [--no-auto-connect] is among the arguments. [--auto-connect=false] and
    [--auto-connect=0] change nothing, because the value is compared from
    the "=" on. *)
Theorem only_no_auto_connect_turns_it_off args options options' :
  parse_arguments args options = starts options' ->
  auto_connect options'
  = auto_connect options && negb (existsb (String.eqb "--no-auto-connect") args)
  /\ (forall value rest o,
        parse_arguments (("--auto-connect=" +:+ value) :: rest) o
        = parse_arguments rest o).
Proof.
  intros H. split; [|intros; apply auto_connect_value_ignored].
  revert options H. induction args as [|arg args IH]; intros options H.
  - cbn in *. injection H as <-. by rewrite andb_true_r.
  - cbn [parse_arguments existsb] in *.
    destruct (starts_with "--port=" arg) eqn:Hport.
    { assert (Hother : String.eqb "--no-auto-connect" arg = false).
      { apply String.eqb_neq. intros <-. discriminate Hport. }
      rewrite Hother. cbn [orb].
      destruct (stoi (substr_from 7 arg)); try discriminate H.
      by rewrite (IH _ H). }
    destruct (starts_with "--auto-connect=" arg) eqn:Hauto.
    { assert (Hother : String.eqb "--no-auto-connect" arg = false).
      { apply String.eqb_neq. intros <-. discriminate Hauto. }
      rewrite Hother. cbn [orb].
      apply starts_with_split in Hauto. rewrite Hauto in H.
      change (substr_from 14 ("--auto-connect=" +:+ ?x)) with (String "=" x) in H.
      cbn [String.eqb Ascii.eqb Bool.eqb orb] in H. by apply IH. }
    destruct (String.eqb arg "--no-auto-connect") eqn:Hno.
    { apply String.eqb_eq in Hno as ->.
      rewrite String.eqb_refl. cbn [orb negb]. rewrite andb_false_r.
      rewrite (IH _ H). reflexivity. }
    rewrite String.eqb_sym, Hno. cbn [orb].
    destruct (String.eqb arg "--help" || String.eqb arg "-h"); [discriminate H|].
    by apply IH.
Qed.

Lemma only_no_auto_connect_turns_it_off_witness :
  auto_connect {| port := 9000; auto_connect := true |}
  = auto_connect defaults
    && negb (existsb (String.eqb "--no-auto-connect")
               ["--auto-connect=false"; "--port=9000"]).
Proof.
  apply (only_no_auto_connect_turns_it_off ["--auto-connect=false"; "--port=9000"]
           defaults {| port := 9000; auto_connect := true |}).
  vm_compute. reflexivity.
Defined.

End MainFacts.
